(** * PanicTrader backtester and parameter grid search

    A shallow embedding of the C++ backtesters of the repository:

    - [Try2]       : [round 1/grid search/try2/src/Backtester.cpp]
                     (the library version, [double runBacktest(...)]);
    - [GridSearch] : the single-file grid search with
                     [computeRollingAverage] and the [runBacktest] that
                     returns a [BacktestResult] (its [getOrders] repeats the
                     checks of the loop body and is called nowhere);
    - [Fuzzer]     : [round 1/grid search/try2/src/FuzzerMain.cpp]
                     (the parameter fuzzing and the grid construction);
    - [Pool]       : [workerThreadFunc] of the same file, as the steps of
                     the worker threads over the shared counters and the
                     result vector, under any schedule;
    - [Split]      : the round-robin split of the grid among the threads
                     in the [main] of the single-file grid search;
    - [NaiveFuzzer]: [fuzzIntParam] and [fuzzDoubleParam] of the first
                     program of the single file, whose loop counter is a
                     [double];
    - [Report]     : the final block of [progressThreadFunc] of
                     [FuzzerMain.cpp], which sorts the results and prints
                     the first three;
    - [GridPool]   : [workerThread] of the single-file grid search and the
                     final ranking of its [main], over the queue of the
                     ten best results;
    - [Ranking]    : what the C++ standard fixes of [std::sort], and the
                     stable sort to compare it with.

    C++ [double] is IEEE-754 binary64 and is modelled by Rocq's primitive
    [float] (the same format, round to nearest even).  C++ [int] is modelled
    by [Z]: every [int] of the programs is a position (bounded by 100), a
    parameter, or an index into the price series, whose length is cast to
    [int] by the sources themselves; the fuzzers cast a rounded [double] to
    [int], and what is stated of their values is stated where that cast is
    defined ([Fuzzer.cast_defined]).  A [std::vector] is a [list];
    [push_back] appends at the end.  The [size_t] counters of the worker
    pool are modelled by [nat]: the index counter stays below the number of
    combinations plus the number of workers, far from wrapping around. *)

From Stdlib Require Import ZArith List Bool Lia Floats Uint63.
From Stdlib Require Import Sorted Permutation.
Import ListNotations.

Set Warnings "-inexact-float".

Local Open Scope Z_scope.

(** ** Numbers and vectors *)

Abbreviation double := float (only parsing).

(** [(double) z] for an [int] [z]. *)
Definition Z2d (z : Z) : double :=
  if z <? 0 then PrimFloat.opp (of_uint63 (Uint63.of_Z (- z)))
  else of_uint63 (Uint63.of_Z z).

(** [std::isnan] *)
Definition isnan (x : double) : bool := PrimFloat.is_nan x.

(** [std::fabs] *)
Definition fabs (x : double) : double := PrimFloat.abs x.

(** [x > y] and [x >= y] on doubles (false as soon as one side is NaN). *)
Definition dgt (x y : double) : bool := PrimFloat.ltb y x.
Definition dge (x y : double) : bool := PrimFloat.leb y x.
Definition dlt (x y : double) : bool := PrimFloat.ltb x y.
Definition dle (x y : double) : bool := PrimFloat.leb x y.

Section Vectors.
Context {A : Type}.

Definition size (v : list A) : Z := Z.of_nat (length v).

(** [v[i]]; reading outside [0 .. size-1] is undefined behaviour in the
    source and yields the default [d] here. *)
Definition at_ (d : A) (v : list A) (i : Z) : A :=
  if i <? 0 then d else nth (Z.to_nat i) v d.

Definition push_back (v : list A) (x : A) : list A := v ++ [x].

Definition back (d : A) (v : list A) : A := last v d.

Definition empty (v : list A) : bool :=
  match v with [] => true | _ => false end.

(** [v[i] = x] on a vector that is already allocated. *)
Fixpoint set_nth (v : list A) (n : nat) (x : A) : list A :=
  match v, n with
  | [], _ => []
  | _ :: t, O => x :: t
  | a :: t, S n' => a :: set_nth t n' x
  end.

Definition assign (v : list A) (i : Z) (x : A) : list A :=
  if i <? 0 then v else set_nth v (Z.to_nat i) x.
End Vectors.

(** The loop counter values [0, 1, ..., n-1]. *)
Definition indices (n : nat) : list Z := map Z.of_nat (seq 0 n).

(** [for (i = lo; i < lo + n; i++) sum += arr[i];] *)
Fixpoint sum_loop (arr : list double) (i : Z) (n : nat) (sum : double) : double :=
  match n with
  | O => sum
  | S n' => sum_loop arr (i + 1) n' (sum + at_ nan arr i)%float
  end.

(** Left-to-right floating-point sum of a list, starting from [0.0]: the
    arithmetic the specification calls "the sum". *)
Definition fsum (l : list double) : double :=
  fold_left PrimFloat.add l 0%float.

(** The last [n] elements of [l]. *)
Definition lastn {A} (n : nat) (l : list A) : list A :=
  skipn (length l - n) l.

(** ** Backtester.cpp (try2) *)

Module Try2.

Definition LONG_WINDOW : Z := 500.
Definition HIGH_SPREAD_THRESHOLD : double := 1.3%float.
Definition POSITION_SIZE : Z := 100.
Definition FEES : double := 0.002%float.
Definition POSITION_LIMIT : Z := 100.

(** Helper: calculates the mean of the last N elements in an array.
    The loop runs over [sz - N <= i < sz]. *)
Definition mean_of_last_N (arr : list double) (N : Z) : double :=
  let sz := size arr in
  (sum_loop arr (sz - N) (Z.to_nat (sz - (sz - N))) 0 / Z2d N)%float.

(** The "historical" arrays of [runBacktest]. *)
Record History := mkHistory {
  timestamp      : list Z;
  bid_vec        : list double;
  ask_vec        : list double;
  mid_price      : list double;
  spread         : list double;
  short_avg      : list double;
  long_avg       : list double;
  position_log   : list Z;
  in_high_spread : list bool;
  trade_profit   : list double
}.

(** The strategy states of [runBacktest]. *)
Record Strategy := mkStrategy {
  in_position                : bool;
  position_is_long           : bool;
  current_position_extreme   : double;
  waiting_for_signal         : bool;
  high_spread_exit_index     : Z;
  last_high_spread_exit_savg : double
}.

(** All the locals that live across loop iterations. *)
Record State := mkState {
  hist  : History;
  strat : Strategy;
  pos   : Z;
  cash  : double
}.

(** What one pass through the checks of a tick has decided so far. *)
Record Work := mkWork {
  order_quantity : Z;
  trade_p        : double;
  wstrat         : Strategy
}.

Record Params := mkParams {
  short_window             : Z;
  waiting_period           : Z;
  hs_exit_change_threshold : double;
  ma_turn_threshold        : double
}.

Definition empty_history : History :=
  mkHistory [] [] [] [] [] [] [] [] [] [].

Definition init_strategy : Strategy :=
  mkStrategy false false 0%float false (-1) 0%float.

Definition init_state : State :=
  mkState empty_history init_strategy 0 0%float.

Definition record_trade_section (entry_i exit_i : Z)
    (entry_price exit_price : double) (position_size : Z) : double :=
  if 0 <? position_size then
    ((exit_price - entry_price) * Z2d position_size)%float
  else if position_size <? 0 then
    ((entry_price - exit_price) * Z2d (Z.abs position_size))%float
  else 0%float.

Definition update_history (h : History) (t : Z) (b a savg lavg : double)
    (newpos : Z) (hs : bool) (trp : double) : History :=
  mkHistory
    (push_back (timestamp h) t)
    (push_back (bid_vec h) b)
    (push_back (ask_vec h) a)
    (push_back (mid_price h) (0.5 * (b + a))%float)
    (push_back (spread h) (a - b)%float)
    (push_back (short_avg h) savg)
    (push_back (long_avg h) lavg)
    (push_back (position_log h) newpos)
    (push_back (in_high_spread h) hs)
    (push_back (trade_profit h) trp).

(** [for (k = size-1; k >= 0; k--) if (position_log[k] == 0)
      { entry_index = k+1; break; }], with [entry_index = -1] before. *)
Fixpoint entry_index_scan (log : list Z) (k : nat) : Z :=
  match k with
  | O => -1
  | S k' =>
      if at_ 0 log (Z.of_nat k') =? 0 then Z.of_nat k' + 1
      else entry_index_scan log k'
  end.

(** The exit block shared by the turn exits and the high-spread close. *)
Definition close_now (h : History) (m : double) (pos : Z) (w : Work) : Work :=
  let exit_index := size (timestamp h) in
  let entry_index := entry_index_scan (position_log h)
                                      (length (position_log h)) in
  let tp :=
    if (0 <=? entry_index) && (entry_index <? exit_index) then
      record_trade_section entry_index exit_index
        (at_ nan (mid_price h) entry_index) m pos
    else trade_p w in
  let s := wstrat w in
  mkWork (- pos) tp
    (mkStrategy false false 0%float (waiting_for_signal s)
       (high_spread_exit_index s) (last_high_spread_exit_savg s)).

Definition set_extreme (x : double) (w : Work) : Work :=
  let s := wstrat w in
  mkWork (order_quantity w) (trade_p w)
    (mkStrategy (in_position s) (position_is_long s) x
       (waiting_for_signal s) (high_spread_exit_index s)
       (last_high_spread_exit_savg s)).

(** 0) If in position => check if short_avg turned from extreme *)
Definition check_turn (p : Params) (h : History) (m s_avg : double)
    (pos : Z) (w : Work) : Work :=
  let s := wstrat w in
  if negb (isnan s_avg) && in_position s then
    if position_is_long s then
      if dgt s_avg (current_position_extreme s) then set_extreme s_avg w
      else if dge (current_position_extreme s - s_avg)%float
                  (ma_turn_threshold p)
           then close_now h m pos w
           else w
    else
      if dlt s_avg (current_position_extreme s) then set_extreme s_avg w
      else if dge (s_avg - current_position_extreme s)%float
                  (ma_turn_threshold p)
           then close_now h m pos w
           else w
  else w.

(** 1) Just exited HS *)
Definition just_exited_hs (h : History) (m s_avg : double) (w : Work) : Work :=
  let s := wstrat w in
  mkWork (order_quantity w) (trade_p w)
    (mkStrategy (in_position s) (position_is_long s)
       (current_position_extreme s) true
       (size (timestamp h) - 1)
       (if negb (isnan s_avg) then s_avg else m)).

(** 2) waited WAITING_PERIOD => check threshold for new entry *)
Definition try_entry (p : Params) (m s_avg : double) (w : Work) : Work :=
  let s := wstrat w in
  if negb (isnan s_avg) then
    let diff := fabs (s_avg - last_high_spread_exit_savg s)%float in
    if dge diff (hs_exit_change_threshold p) then
      let w1 :=
        if dgt m s_avg then
          mkWork POSITION_SIZE (trade_p w)
            (mkStrategy true true s_avg (waiting_for_signal s)
               (high_spread_exit_index s) (last_high_spread_exit_savg s))
        else if dlt m s_avg then
          mkWork (- POSITION_SIZE) (trade_p w)
            (mkStrategy true false s_avg (waiting_for_signal s)
               (high_spread_exit_index s) (last_high_spread_exit_savg s))
        else w in
      let s1 := wstrat w1 in
      mkWork (order_quantity w1) (trade_p w1)
        (mkStrategy (in_position s1) (position_is_long s1)
           (current_position_extreme s1) false
           (high_spread_exit_index s1) (last_high_spread_exit_savg s1))
    else w
  else w.

(** The [if / else if / else if] chain 1), 2), 3). *)
Definition check_chain (p : Params) (h : History) (m s_avg : double)
    (hs : bool) (pos : Z) (w : Work) : Work :=
  let s := wstrat w in
  if negb (empty (timestamp h)) && back false (in_high_spread h) && negb hs
  then just_exited_hs h m s_avg w
  else if waiting_for_signal s
          && (waiting_period p <=? size (timestamp h) - high_spread_exit_index s)
          && (pos =? 0)
          && negb hs
  then try_entry p m s_avg w
  else if hs && negb (pos =? 0)
  then close_now h m pos w
  else w.

(** [s_avg = NaN; if ((int)mid_price.size() >= window)
      s_avg = mean_of_last_N(mid_price, window);] *)
Definition rolling (mids : list double) (window : Z) : double :=
  if window <=? size mids then mean_of_last_N mids window else nan.

(** The short rolling average computed at the top of an iteration, from
    the mid prices recorded so far. *)
Definition tick_s_avg (p : Params) (st : State) : double :=
  rolling (mid_price (hist st)) (short_window p).

(** The decision part of one loop iteration: checks 0) to 3). *)
Definition decide (p : Params) (st : State) (b a s_avg : double) : Work :=
  let m := (0.5 * (b + a))%float in
  let spr := (a - b)%float in
  let hs := dge spr HIGH_SPREAD_THRESHOLD in
  let w0 := mkWork 0 0%float (strat st) in
  let w1 := check_turn p (hist st) m s_avg (pos st) w0 in
  check_chain p (hist st) m s_avg hs (pos st) w1.

(** Apply position limits. *)
Definition actual_order (pos order_quantity : Z) : Z :=
  let a1 :=
    if (0 <? order_quantity) && (POSITION_LIMIT <? pos + order_quantity)
    then 0 else order_quantity in
  if (a1 <? 0) && (pos + a1 <? - POSITION_LIMIT) then 0 else a1.

(** Update cash. *)
Definition settle (cash b a : double) (actual : Z) : double :=
  if 0 <? actual then
    (cash - a * Z2d actual * (1.0 + FEES))%float
  else if actual <? 0 then
    (cash + b * Z2d (- actual) * (1.0 - FEES))%float
  else cash.

(** One iteration of the main backtest loop. *)
Definition tick (p : Params) (ticks : list Z) (bids asks : list double)
    (st : State) (i : Z) : State :=
  let b := at_ nan bids i in
  let a := at_ nan asks i in
  let m := (0.5 * (b + a))%float in
  let spr := (a - b)%float in
  let hs := dge spr HIGH_SPREAD_THRESHOLD in
  let s_avg := tick_s_avg p st in
  let l_avg := rolling (mid_price (hist st)) LONG_WINDOW in
  let w := decide p st b a s_avg in
  let act := actual_order (pos st) (order_quantity w) in
  let cash' := settle (cash st) b a act in
  let new_pos := pos st + act in
  let use_savg := if isnan s_avg then m else s_avg in
  let use_lavg := if isnan l_avg then m else l_avg in
  mkState
    (update_history (hist st) (at_ 0 ticks i) b a use_savg use_lavg
       new_pos hs (trade_p w))
    (wstrat w) new_pos cash'.

(** The state after the first [k] iterations. *)
Definition run_ticks (p : Params) (ticks : list Z) (bids asks : list double)
    (k : nat) : State :=
  fold_left (tick p ticks bids asks) (indices k) init_state.

(** flatten final position *)
Definition flatten (st : State) (final_bid final_ask : double) : double :=
  if negb (pos st =? 0) then
    if 0 <? pos st then
      (cash st + final_bid * Z2d (pos st) * (1.0 - FEES))%float
    else
      (cash st - final_ask * Z2d (- pos st) * (1.0 + FEES))%float
  else cash st.

Definition runBacktest (short_window waiting_period : Z)
    (hs_exit_change_threshold ma_turn_threshold : double)
    (ticks : list Z) (bids asks : list double) : double :=
  let nrows := size ticks in
  if nrows =? 0 then 0%float
  else
    let p := mkParams short_window waiting_period
                      hs_exit_change_threshold ma_turn_threshold in
    let st := run_ticks p ticks bids asks (length ticks) in
    flatten st (at_ nan bids (nrows - 1)) (at_ nan asks (nrows - 1)).

End Try2.

(** ** The single-file grid search ([computeRollingAverage], [runBacktest]
    returning a [BacktestResult], [workerThread]) *)

Module GridSearch.

Definition LONG_WINDOW : Z := 500.
Definition HIGH_SPREAD_THRESHOLD : double := 1.3%float.
Definition POSITION_SIZE : Z := 100.
Definition fees_rate : double := 0.002%float.
Definition position_limit : Z := 100.

Record PriceData := mkPriceData {
  Bid : double;
  Ask : double
}.

Record BacktestResult := mkBacktestResult {
  pnl        : double;
  total_fees : double
}.

(** [ParameterSet]; its own [pnl] member, written by the worker only, is
    [ps_pnl] here. *)
Record ParameterSet := mkParameterSet {
  short_window             : Z;
  waiting_period           : Z;
  hs_exit_change_threshold : double;
  ma_turn_threshold        : double;
  ps_pnl                   : double
}.

(** Optimized function to compute rolling average: the window is
    [startIndex .. endIndex], both ends included. *)
Definition computeRollingAverage (midPrices : list double)
    (endIndex windowSize : Z) : double :=
  let startIndex := endIndex - windowSize + 1 in
  if startIndex <? 0 then nan
  else
    (sum_loop midPrices startIndex (Z.to_nat (endIndex + 1 - startIndex)) 0
     / Z2d windowSize)%float.

(** The strategy state of [runBacktest], with [prev_in_high_spread]. *)
Record Strategy := mkStrategy {
  in_position                     : bool;
  position_is_long                : bool;
  waiting_for_signal              : bool;
  high_spread_exit_index          : Z;
  last_high_spread_exit_short_avg : double;
  current_position_extreme        : double;
  prev_in_high_spread             : bool
}.

Record State := mkState {
  strat           : Strategy;
  currentPosition : Z;
  cash            : double;
  totalFees       : double;
  midPrices       : list double
}.

Record Work := mkWork {
  order_quantity : Z;
  wstrat         : Strategy
}.

Definition init_strategy : Strategy :=
  mkStrategy false false false (-1) 0%float 0%float false.

(** [std::vector<double> midPrices(priceData.size(), 0.0)] *)
Definition init_state (n : nat) : State :=
  mkState init_strategy 0 0%float 0%float (repeat 0%float n).

(** [in_position = false; position_is_long = false;
     current_position_extreme = 0.0;] with [order_quantity = -currentPosition] *)
Definition close_now (pos : Z) (w : Work) : Work :=
  let s := wstrat w in
  mkWork (- pos)
    (mkStrategy false false (waiting_for_signal s)
       (high_spread_exit_index s) (last_high_spread_exit_short_avg s)
       0%float (prev_in_high_spread s)).

Definition set_extreme (x : double) (w : Work) : Work :=
  let s := wstrat w in
  mkWork (order_quantity w)
    (mkStrategy (in_position s) (position_is_long s) (waiting_for_signal s)
       (high_spread_exit_index s) (last_high_spread_exit_short_avg s)
       x (prev_in_high_spread s)).

(** 0) If in a position => check if short_avg turned from local extreme *)
Definition check_turn (params : ParameterSet) (short_avg : double)
    (pos : Z) (w : Work) : Work :=
  let s := wstrat w in
  if in_position s then
    if position_is_long s then
      if dgt short_avg (current_position_extreme s)
      then set_extreme short_avg w
      else if dge (current_position_extreme s - short_avg)%float
                  (ma_turn_threshold params)
           then close_now pos w
           else w
    else
      if dlt short_avg (current_position_extreme s)
      then set_extreme short_avg w
      else if dge (short_avg - current_position_extreme s)%float
                  (ma_turn_threshold params)
           then close_now pos w
           else w
  else w.

(** 1) Just exited a high spread, then [prev_in_high_spread = in_high_spread] *)
Definition check_hs_exit (i : Z) (mid_price short_avg : double)
    (in_high_spread : bool) (w : Work) : Work :=
  let s := wstrat w in
  let s1 :=
    if prev_in_high_spread s && negb in_high_spread then
      mkStrategy (in_position s) (position_is_long s) true i
        (if negb (isnan short_avg) then short_avg else mid_price)
        (current_position_extreme s) (prev_in_high_spread s)
    else s in
  mkWork (order_quantity w)
    (mkStrategy (in_position s1) (position_is_long s1)
       (waiting_for_signal s1) (high_spread_exit_index s1)
       (last_high_spread_exit_short_avg s1) (current_position_extreme s1)
       in_high_spread).

(** 2) waited WAITING_PERIOD => check threshold *)
Definition check_entry (params : ParameterSet) (i : Z)
    (mid_price short_avg : double) (in_high_spread : bool) (pos : Z)
    (w : Work) : Work :=
  let s := wstrat w in
  if waiting_for_signal s then
    let diff := i - high_spread_exit_index s in
    if (waiting_period params <=? diff) && (pos =? 0) && negb in_high_spread
    then
      if negb (isnan short_avg)
         && negb (isnan (last_high_spread_exit_short_avg s))
      then
        let delta := fabs (short_avg - last_high_spread_exit_short_avg s)%float in
        if dge delta (hs_exit_change_threshold params) then
          let w1 :=
            if dgt mid_price short_avg then
              mkWork POSITION_SIZE
                (mkStrategy true true (waiting_for_signal s)
                   (high_spread_exit_index s)
                   (last_high_spread_exit_short_avg s) short_avg
                   (prev_in_high_spread s))
            else if dlt mid_price short_avg then
              mkWork (- POSITION_SIZE)
                (mkStrategy true false (waiting_for_signal s)
                   (high_spread_exit_index s)
                   (last_high_spread_exit_short_avg s) short_avg
                   (prev_in_high_spread s))
            else w in
          let s1 := wstrat w1 in
          mkWork (order_quantity w1)
            (mkStrategy (in_position s1) (position_is_long s1) false
               (high_spread_exit_index s1)
               (last_high_spread_exit_short_avg s1)
               (current_position_extreme s1) (prev_in_high_spread s1))
        else w
      else w
    else w
  else w.

(** 3) If in high spread + have position => immediate close *)
Definition check_forced_close (in_high_spread : bool) (pos : Z)
    (w : Work) : Work :=
  if in_high_spread && negb (pos =? 0) then close_now pos w else w.

(** The four checks of one tick whose rolling average is defined. *)
Definition decide (params : ParameterSet) (i : Z) (st : State)
    (bid ask short_avg : double) : Work :=
  let mid_price := (0.5 * (bid + ask))%float in
  let spread := (ask - bid)%float in
  let in_high_spread := dge spread HIGH_SPREAD_THRESHOLD in
  let pos := currentPosition st in
  let w0 := mkWork 0 (strat st) in
  let w1 := check_turn params short_avg pos w0 in
  let w2 := check_hs_exit i mid_price short_avg in_high_spread w1 in
  let w3 := check_entry params i mid_price short_avg in_high_spread pos w2 in
  check_forced_close in_high_spread pos w3.

(** The quantity that is filled: the order, or 0 when it would leave the
    position limit. *)
Definition filled_quantity (pos order_quantity : Z) : Z :=
  if negb (order_quantity =? 0) then
    if 0 <? order_quantity then
      if position_limit <? pos + order_quantity then 0 else order_quantity
    else
      if pos + order_quantity <? - position_limit then 0 else order_quantity
  else 0.

(** Process the order: limit check, cash, fees, position. *)
Definition process_order (st : State) (bid ask : double)
    (order_quantity : Z) (s : Strategy) (mids : list double) : State :=
  if negb (order_quantity =? 0) then
    if 0 <? order_quantity then
      let q := if position_limit <? currentPosition st + order_quantity
               then 0 else order_quantity in
      if 0 <? q then
        mkState s (currentPosition st + q)
          (cash st - ask * Z2d q * (1.0 + fees_rate))%float
          (totalFees st + ask * Z2d q * fees_rate)%float
          mids
      else
        mkState s (currentPosition st + q) (cash st) (totalFees st) mids
    else
      let q := if currentPosition st + order_quantity <? - position_limit
               then 0 else order_quantity in
      if q <? 0 then
        mkState s (currentPosition st + q)
          (cash st + bid * Z2d (- q) * (1.0 - fees_rate))%float
          (totalFees st + bid * Z2d (- q) * fees_rate)%float
          mids
      else
        mkState s (currentPosition st + q) (cash st) (totalFees st) mids
  else
    mkState s (currentPosition st) (cash st) (totalFees st) mids.

(** The mid prices after [midPrices[i] = mid_price]. *)
Definition tick_mids (priceData : list PriceData) (st : State) (i : Z)
    : list double :=
  let d := at_ (mkPriceData nan nan) priceData i in
  assign (midPrices st) i (0.5 * (Bid d + Ask d))%float.

(** The rolling average of tick [i], which includes tick [i] itself. *)
Definition tick_short_avg (params : ParameterSet)
    (priceData : list PriceData) (st : State) (i : Z) : double :=
  computeRollingAverage (tick_mids priceData st i) i (short_window params).

(** What tick [i] decides: [None] when the iteration is left through
    [if (std::isnan(short_avg)) continue;], before any check runs. *)
Definition tick_decision (params : ParameterSet)
    (priceData : list PriceData) (st : State) (i : Z) : option Work :=
  let d := at_ (mkPriceData nan nan) priceData i in
  let short_avg := tick_short_avg params priceData st i in
  if isnan short_avg then None
  else Some (decide params i st (Bid d) (Ask d) short_avg).

(** One iteration of [for (size_t i = 0; i < priceData.size(); i++)]. *)
Definition tick (params : ParameterSet) (priceData : list PriceData)
    (st : State) (i : Z) : State :=
  let d := at_ (mkPriceData nan nan) priceData i in
  let mids := tick_mids priceData st i in
  match tick_decision params priceData st i with
  | None =>
      mkState (strat st) (currentPosition st) (cash st) (totalFees st) mids
  | Some w =>
      process_order st (Bid d) (Ask d) (order_quantity w) (wstrat w) mids
  end.

Definition run_ticks (params : ParameterSet) (priceData : list PriceData)
    (k : nat) : State :=
  fold_left (tick params priceData) (indices k)
            (init_state (length priceData)).

(** Final close *)
Definition final_close (st : State) (last_tick : PriceData) : State :=
  if 0 <? currentPosition st then
    let finalBid := Bid last_tick in
    mkState (strat st) 0
      (cash st + finalBid * Z2d (currentPosition st) * (1.0 - fees_rate))%float
      (totalFees st + finalBid * Z2d (currentPosition st) * fees_rate)%float
      (midPrices st)
  else if currentPosition st <? 0 then
    let finalAsk := Ask last_tick in
    mkState (strat st) 0
      (cash st - finalAsk * Z2d (- currentPosition st) * (1.0 + fees_rate))%float
      (totalFees st + finalAsk * Z2d (- currentPosition st) * fees_rate)%float
      (midPrices st)
  else st.

(** The state in which [runBacktest] builds its result. *)
Definition final_state (priceData : list PriceData)
    (params : ParameterSet) : State :=
  final_close (run_ticks params priceData (length priceData))
              (back (mkPriceData nan nan) priceData).

Definition runBacktest (priceData : list PriceData)
    (params : ParameterSet) : BacktestResult :=
  let st := final_state priceData params in
  mkBacktestResult (cash st) (totalFees st).

End GridSearch.

(** ** FuzzerMain.cpp (try2): parameter fuzzing and the grid *)

Module Fuzzer.

Record ParamResult := mkParamResult {
  short_window             : Z;
  waiting_period           : Z;
  hs_exit_change_threshold : double;
  ma_turn_threshold        : double;
  pnl                      : double
}.

(** [(int)std::round(x)]: to the nearest integer, halfway cases away from
    zero.  The cast is undefined for NaN, for the infinities and for values
    that round outside [int]: NaN and the infinities give 0 here, and a
    finite value gives its rounded integer whatever its size, so this is
    the value of the cast only where [cast_defined] below holds. *)
Definition round_to_int (x : double) : Z :=
  match Prim2SF x with
  | S754_finite s m e =>
      let mag :=
        if 0 <=? e then Zpos m * 2 ^ e
        else (Zpos m + 2 ^ (- e - 1)) / 2 ^ (- e) in
      if s then - mag else mag
  | _ => 0
  end.

(** The range of [int] (32 bits), and the doubles on which the cast
    [(int)std::round(x)] is defined: the finite ones whose rounded value is
    in that range.  On these [round_to_int] is the value of the cast. *)
Definition INT_MIN : Z := - 2 ^ 31.
Definition INT_MAX : Z := 2 ^ 31 - 1.

Definition in_int (z : Z) : bool := (INT_MIN <=? z) && (z <=? INT_MAX).

Definition cast_defined (x : double) : bool :=
  PrimFloat.is_finite x && in_int (round_to_int x).

(** [std::sort(vals.begin(), vals.end())]: the ascending arrangement,
    written as an insertion sort over the comparison [lt]. *)
Section Sort.
Context {A : Type} (lt : A -> A -> bool).

Fixpoint insert_sorted (x : A) (l : list A) : list A :=
  match l with
  | [] => [x]
  | y :: t => if lt x y then x :: l else y :: insert_sorted x t
  end.

Definition std_sort (l : list A) : list A :=
  fold_right insert_sorted [] l.
End Sort.

(** The values of [for (int i = -10; i <= 10; i++)]. *)
Definition steps : list Z := map (fun k => Z.of_nat k - 10) (seq 0 21).

(** Generate fuzzy parameter values (±10% range in 1% steps) *)
Definition fuzzIntParam (baseVal : Z) : list Z :=
  std_sort Z.ltb
    (map (fun i =>
            let factor := ((100.0 + Z2d i) / 100.0)%float in
            let dval := (Z2d baseVal * factor)%float in
            let iv := round_to_int dval in
            if iv <? 1 then 1 else iv)
         steps).

Definition fuzzDoubleParam (baseVal : double) : list double :=
  std_sort PrimFloat.ltb
    (map (fun i =>
            let factor := ((100.0 + Z2d i) / 100.0)%float in
            let dv := (baseVal * factor)%float in
            if dle dv 0.0 then 1e-6%float else dv)
         steps).

(** Build all parameter combinations: the four nested [for] loops of
    [main], each pushing one [ParamResult] with [pnl = 0.0]. *)
Definition build_combos (sw_vals wp_vals : list Z)
    (hsx_vals mat_vals : list double) : list ParamResult :=
  flat_map (fun sw =>
    flat_map (fun wp =>
      flat_map (fun hsx =>
        map (fun mat => mkParamResult sw wp hsx mat 0%float) mat_vals)
        hsx_vals)
      wp_vals)
    sw_vals.

Definition baseSW : Z := 80.
Definition baseWP : Z := 80.
Definition baseHSX : double := 0.2%float.
Definition baseMAT : double := 0.9%float.

(** [g_combos] as [main] leaves it before the workers start. *)
Definition g_combos : list ParamResult :=
  build_combos (fuzzIntParam baseSW) (fuzzIntParam baseWP)
               (fuzzDoubleParam baseHSX) (fuzzDoubleParam baseMAT).

End Fuzzer.

(** ** The strategy state machine and the run invariants

    The three states of the specification, read off the two flags of the
    strategy records: a position is open ([in_position], long or short), or
    the machine waits for an entry signal, or it is flat. *)

Inductive MachineState :=
  | FLAT
  | WAITING_FOR_SIGNAL
  | IN_POSITION (long : bool).

Definition machine_state_of (in_pos is_long waiting : bool) : MachineState :=
  if in_pos then IN_POSITION is_long
  else if waiting then WAITING_FOR_SIGNAL
  else FLAT.

(** The mid price of tick [i] of a series given as two vectors. *)
Definition mid_at (bids asks : list double) (i : Z) : double :=
  (0.5 * (at_ nan bids i + at_ nan asks i))%float.

Module Try2Inv.
Import Try2.

Definition machine_state (s : Strategy) : MachineState :=
  machine_state_of (in_position s) (position_is_long s)
                   (waiting_for_signal s).

(** The position is flat exactly when no position is flagged; an open
    position is one full unit, and nothing waits for a signal then. *)
Definition coherent (st : State) : Prop :=
  (pos st = 0 /\ in_position (strat st) = false)
  \/ ((pos st = POSITION_SIZE \/ pos st = - POSITION_SIZE)
      /\ in_position (strat st) = true
      /\ waiting_for_signal (strat st) = false).

(** A tick in high spread leaves the position flat. *)
Definition flat_after_hs (st : State) : Prop :=
  back false (in_high_spread (hist st)) = true -> pos st = 0.

Definition invariant (st : State) : Prop :=
  coherent st /\ flat_after_hs st.

End Try2Inv.

Module GridSearchInv.
Import GridSearch.

Definition machine_state (s : Strategy) : MachineState :=
  machine_state_of (in_position s) (position_is_long s)
                   (waiting_for_signal s).

Definition coherent (st : State) : Prop :=
  (currentPosition st = 0 /\ in_position (strat st) = false)
  \/ ((currentPosition st = POSITION_SIZE
       \/ currentPosition st = - POSITION_SIZE)
      /\ in_position (strat st) = true
      /\ waiting_for_signal (strat st) = false).

Definition flat_after_hs (st : State) : Prop :=
  prev_in_high_spread (strat st) = true -> currentPosition st = 0.

Definition invariant (st : State) : Prop :=
  coherent st /\ flat_after_hs st.

(** [fees + price * q * fees_rate]: the total fees after one fill of
    [q > 0] units at [price]. *)
Definition charge (fees price : double) (q : Z) : double :=
  (fees + price * Z2d q * fees_rate)%float.

End GridSearchInv.

(** ** Sign classes of doubles

    The doubles that compare [>= 0]: zeros, [+infinity] and the positive
    finite numbers; and the finite doubles greater than zero. *)

Definition SF_nonneg (x : spec_float) : bool :=
  match x with
  | S754_zero _ => true
  | S754_infinity s => negb s
  | S754_finite s _ _ => negb s
  | S754_nan => false
  end.

(** A finite double greater than zero. *)
Definition finite_pos (c : float) : bool :=
  match Prim2SF c with
  | S754_finite false _ _ => true
  | _ => false
  end.

(** A tick whose bid and ask are both [>= 0] (which excludes NaN). *)
Definition nonneg_tick (d : GridSearch.PriceData) : bool :=
  dle 0 (GridSearch.Bid d) && dle 0 (GridSearch.Ask d).

Definition nonneg_prices (data : list GridSearch.PriceData) : bool :=
  forallb nonneg_tick data.

(** ** Sample inputs

    Small price series on which the statements below are exercised. *)

Module Samples.
Import GridSearch.

(** Window 2, waiting period 1, entry threshold 0.1, turn threshold 1000. *)
Definition params : ParameterSet :=
  mkParameterSet 2 1 0.1%float 1000%float 0%float.

Definition try2_params : Try2.Params :=
  Try2.mkParams 2 1 0.1%float 1000%float.

(** A high-spread tick, its exit, an entry (long 100 at ask 12), one more
    quiet tick, and a second high-spread tick that closes the position. *)
Definition series : list PriceData :=
  [ mkPriceData 10 10; mkPriceData 10 11.4; mkPriceData 10 10;
    mkPriceData 12 12; mkPriceData 12 12; mkPriceData 12 13.4 ]%float.

(** The same entry, then two ticks of huge finite prices of opposite
    sign: the mid prices overflow to [+infinity] and [-infinity], so the
    rolling average of the last tick, whose spread is high, is NaN. *)
Definition overflow_series : list PriceData :=
  [ mkPriceData 10 10; mkPriceData 10 11.4; mkPriceData 10 10;
    mkPriceData 12 12; mkPriceData 1.7e308 1.7e308;
    mkPriceData (-1.7e308) (-1.6e308) ]%float.

(** Negative prices throughout: a high-spread tick, its exit, and an
    entry that is a buy of 100 at ask -8. *)
Definition negative_series : list PriceData :=
  [ mkPriceData (-10) (-10); mkPriceData (-11.4) (-10);
    mkPriceData (-10) (-10); mkPriceData (-8) (-8);
    mkPriceData (-8) (-8) ]%float.

(** Non-negative prices; the entry is a sell at bid 0. *)
Definition zero_bid_series : list PriceData :=
  [ mkPriceData 10 10; mkPriceData 10 11.4; mkPriceData 10 10;
    mkPriceData 0 1; mkPriceData 0 1 ]%float.

(** Non-negative prices; an entry that buys 100 at ask 1e300, whose fee
    is 2e299, and on the next tick, whose spread is high, the forced sale
    of the 100 at bid 1, whose fee 0.2 is lost in the rounding of the
    sum. *)
Definition absorbed_fee_series : list PriceData :=
  [ mkPriceData 10 10; mkPriceData 10 11.4; mkPriceData 10 10;
    mkPriceData 1e300 1e300; mkPriceData 1 3 ]%float.

Definition ticks_of (l : list PriceData) : list Z := indices (length l).
Definition bids_of (l : list PriceData) : list double := map Bid l.
Definition asks_of (l : list PriceData) : list double := map Ask l.
End Samples.

(** ** The conditions of the checks

    The conditions under which the checks of one tick fire, each read off
    the [if] that guards the corresponding block, and the decision of a
    tick written as one table over them. *)

(** [in_high_spread = (spread >= HIGH_SPREAD_THRESHOLD)] at tick [i] of a
    series given as two vectors. *)
Definition hs_at (bids asks : list double) (i : Z) : bool :=
  dge (at_ nan asks i - at_ nan bids i) Try2.HIGH_SPREAD_THRESHOLD.

Module Try2Table.
Import Try2.

(** Check 0) closes: the average is defined, a position is flagged, the
    average did not make a new extreme, and it has come back from the
    extreme by at least [ma_turn_threshold]. *)
Definition turn_fires (p : Params) (s : Strategy) (s_avg : double) : bool :=
  negb (isnan s_avg) && in_position s
  && (if position_is_long s
      then negb (dgt s_avg (current_position_extreme s))
           && dge (current_position_extreme s - s_avg)%float
                  (ma_turn_threshold p)
      else negb (dlt s_avg (current_position_extreme s))
           && dge (s_avg - current_position_extreme s)%float
                  (ma_turn_threshold p)).

(** Check 0) moves the extreme to the average. *)
Definition extreme_moves (s : Strategy) (s_avg : double) : bool :=
  negb (isnan s_avg) && in_position s
  && (if position_is_long s
      then dgt s_avg (current_position_extreme s)
      else dlt s_avg (current_position_extreme s)).

(** 1) [!timestamp.empty() && in_high_spread.back() && !in_high_spread_now] *)
Definition hs_exit_seen (h : History) (hs : bool) : bool :=
  negb (empty (timestamp h)) && back false (in_high_spread h) && negb hs.

(** 2) is reached and its guard holds. *)
Definition entry_window (p : Params) (h : History) (s : Strategy) (ps : Z)
    (hs : bool) : bool :=
  negb (hs_exit_seen h hs)
  && waiting_for_signal s
  && (waiting_period p <=? size (timestamp h) - high_spread_exit_index s)
  && (ps =? 0) && negb hs.

(** The average is defined and has moved by at least
    [hs_exit_change_threshold] since the exit from high spread. *)
Definition entry_signal (p : Params) (s : Strategy) (s_avg : double) : bool :=
  negb (isnan s_avg)
  && dge (fabs (s_avg - last_high_spread_exit_savg s)%float)
         (hs_exit_change_threshold p).

(** 3) [in_high_spread_now && pos != 0] *)
Definition forced_close (hs : bool) (ps : Z) : bool := hs && negb (ps =? 0).

(** The order and the strategy state that a tick decides. *)
Definition decision (p : Params) (st : State) (b a s_avg : double)
    : Z * Strategy :=
  let s := strat st in
  let ps := pos st in
  let h := hist st in
  let m := (0.5 * (b + a))%float in
  let hs := dge (a - b)%float HIGH_SPREAD_THRESHOLD in
  let forced := forced_close hs ps in
  let entry := entry_window p h s ps hs && entry_signal p s s_avg in
  let long := entry && dgt m s_avg in
  let short := entry && negb (dgt m s_avg) && dlt m s_avg in
  let turn := turn_fires p s s_avg in
  let seen := hs_exit_seen h hs in
  (if forced then - ps
   else if long then POSITION_SIZE
   else if short then - POSITION_SIZE
   else if turn then - ps else 0,
   mkStrategy
     (if forced then false else if long || short then true
      else if turn then false else in_position s)
     (if forced then false else if long then true else if short then false
      else if turn then false else position_is_long s)
     (if forced then 0%float else if long || short then s_avg
      else if turn then 0%float
      else if extreme_moves s s_avg then s_avg
      else current_position_extreme s)
     (if seen then true else if entry then false else waiting_for_signal s)
     (if seen then size (timestamp h) - 1 else high_spread_exit_index s)
     (if seen then (if negb (isnan s_avg) then s_avg else m)
      else last_high_spread_exit_savg s)).

(** The long flag follows the sign of the position. *)
Definition long_flag (st : State) : Prop :=
  position_is_long (strat st) = (0 <? pos st).

End Try2Table.

Module GridSearchTable.
Import GridSearch.

Definition hs_of (d : PriceData) : bool :=
  dge (Ask d - Bid d)%float HIGH_SPREAD_THRESHOLD.

Definition mid_of (d : PriceData) : double := (0.5 * (Bid d + Ask d))%float.

Definition turn_fires (params : ParameterSet) (s : Strategy)
    (short_avg : double) : bool :=
  in_position s
  && (if position_is_long s
      then negb (dgt short_avg (current_position_extreme s))
           && dge (current_position_extreme s - short_avg)%float
                  (ma_turn_threshold params)
      else negb (dlt short_avg (current_position_extreme s))
           && dge (short_avg - current_position_extreme s)%float
                  (ma_turn_threshold params)).

Definition extreme_moves (s : Strategy) (short_avg : double) : bool :=
  in_position s
  && (if position_is_long s
      then dgt short_avg (current_position_extreme s)
      else dlt short_avg (current_position_extreme s)).

(** 1) [prev_in_high_spread && !in_high_spread] *)
Definition hs_exit_seen (s : Strategy) (hs : bool) : bool :=
  prev_in_high_spread s && negb hs.

(** The exit index and the baseline average after check 1). *)
Definition exit_index_now (s : Strategy) (i : Z) (hs : bool) : Z :=
  if hs_exit_seen s hs then i else high_spread_exit_index s.

Definition baseline_now (s : Strategy) (mid_price short_avg : double)
    (hs : bool) : double :=
  if hs_exit_seen s hs
  then (if negb (isnan short_avg) then short_avg else mid_price)
  else last_high_spread_exit_short_avg s.

(** 2) runs after 1) on the same tick, and sees what 1) has just set. *)
Definition entry_window (params : ParameterSet) (i : Z) (s : Strategy)
    (ps : Z) (hs : bool) : bool :=
  (hs_exit_seen s hs || waiting_for_signal s)
  && (waiting_period params <=? i - exit_index_now s i hs)
  && (ps =? 0) && negb hs.

Definition entry_signal (params : ParameterSet) (s : Strategy)
    (mid_price short_avg : double) (hs : bool) : bool :=
  negb (isnan short_avg)
  && negb (isnan (baseline_now s mid_price short_avg hs))
  && dge (fabs (short_avg - baseline_now s mid_price short_avg hs)%float)
         (hs_exit_change_threshold params).

Definition forced_close (hs : bool) (ps : Z) : bool := hs && negb (ps =? 0).

Definition decision (params : ParameterSet) (i : Z) (st : State)
    (bid ask short_avg : double) : Z * Strategy :=
  let s := strat st in
  let ps := currentPosition st in
  let mid_price := (0.5 * (bid + ask))%float in
  let hs := dge (ask - bid)%float HIGH_SPREAD_THRESHOLD in
  let forced := forced_close hs ps in
  let entry := entry_window params i s ps hs
               && entry_signal params s mid_price short_avg hs in
  let long := entry && dgt mid_price short_avg in
  let short := entry && negb (dgt mid_price short_avg)
               && dlt mid_price short_avg in
  let turn := turn_fires params s short_avg in
  (if forced then - ps
   else if long then POSITION_SIZE
   else if short then - POSITION_SIZE
   else if turn then - ps else 0,
   mkStrategy
     (if forced then false else if long || short then true
      else if turn then false else in_position s)
     (if forced then false else if long then true else if short then false
      else if turn then false else position_is_long s)
     (if entry then false
      else hs_exit_seen s hs || waiting_for_signal s)
     (exit_index_now s i hs)
     (baseline_now s mid_price short_avg hs)
     (if forced then 0%float else if long || short then short_avg
      else if turn then 0%float
      else if extreme_moves s short_avg then short_avg
      else current_position_extreme s)
     hs).

Definition long_flag (st : State) : Prop :=
  position_is_long (strat st) = (0 <? currentPosition st).

End GridSearchTable.
(** ** The worker pool of FuzzerMain.cpp

    [workerThreadFunc], run by every worker thread of [main]: the threads
    share the atomic counters [g_nextIdx] and [g_doneCount] and the vector
    [g_results], written under [g_resMutex].  A worker is at one of the
    shared accesses of its loop, and a step of the pool is one worker
    performing the access it is at, together with the thread-local code that
    follows it; a schedule names the worker of each step. *)

Module Pool.
Import Fuzzer.

(** [ParamResult pr = g_combos[idx]; pr.pnl = runBacktest(...)] *)
Definition evaluate (ticks : list Z) (bids asks : list double)
    (pr : ParamResult) : ParamResult :=
  mkParamResult (short_window pr) (waiting_period pr)
    (hs_exit_change_threshold pr) (ma_turn_threshold pr)
    (Try2.runBacktest (short_window pr) (waiting_period pr)
       (hs_exit_change_threshold pr) (ma_turn_threshold pr)
       ticks bids asks).

(** An element of [g_results] after [g_results.resize(g_totalCount)]. *)
Definition unset : ParamResult := mkParamResult 0 0 0%float 0%float 0%float.

Inductive Worker :=
  | AtFetch                                 (* idx = g_nextIdx.fetch_add(1) *)
  | AtRun (idx : nat)                       (* pr = g_combos[idx]; runBacktest *)
  | AtStore (idx : nat) (pr : ParamResult)  (* lock; g_results[idx] = pr *)
  | AtCount                                 (* g_doneCount.fetch_add(1) *)
  | Returned.

Record Shared := mkShared {
  g_nextIdx   : nat;
  g_doneCount : nat;
  g_results   : list ParamResult
}.

Record PoolState := mkPoolState {
  shared  : Shared;
  workers : list Worker
}.

Section Run.
Variables (ticks : list Z) (bids asks : list double).
Variable g_combos : list ParamResult.

Definition g_totalCount : nat := length g_combos.

(** One shared access of one worker. *)
Definition worker_step (sh : Shared) (w : Worker) : option (Shared * Worker) :=
  match w with
  | AtFetch =>
      let idx := g_nextIdx sh in
      Some (mkShared (S idx) (g_doneCount sh) (g_results sh),
            if (g_totalCount <=? idx)%nat then Returned else AtRun idx)
  | AtRun idx =>
      Some (sh, AtStore idx (evaluate ticks bids asks (nth idx g_combos unset)))
  | AtStore idx pr =>
      Some (mkShared (g_nextIdx sh) (g_doneCount sh)
                     (set_nth (g_results sh) idx pr),
            AtCount)
  | AtCount =>
      Some (mkShared (g_nextIdx sh) (S (g_doneCount sh)) (g_results sh),
            AtFetch)
  | Returned => None
  end.

(** Worker [t] takes a step; [None] when there is no such worker or it has
    returned. *)
Definition pool_step (st : PoolState) (t : nat) : option PoolState :=
  match nth_error (workers st) t with
  | None => None
  | Some w =>
      match worker_step (shared st) w with
      | None => None
      | Some (sh, w') => Some (mkPoolState sh (set_nth (workers st) t w'))
      end
  end.

Fixpoint pool_run (st : PoolState) (schedule : list nat)
    : option PoolState :=
  match schedule with
  | [] => Some st
  | t :: rest =>
      match pool_step st t with
      | None => None
      | Some st' => pool_run st' rest
      end
  end.

(** The state in which [main] starts [hw] workers. *)
Definition pool_init (hw : nat) : PoolState :=
  mkPoolState (mkShared 0 0 (repeat unset g_totalCount)) (repeat AtFetch hw).

Definition returned (w : Worker) : bool :=
  match w with Returned => true | _ => false end.

(** The worker holds an index it has fetched and not yet counted. *)
Definition in_flight (w : Worker) : nat :=
  match w with AtRun _ | AtStore _ _ | AtCount => 1 | _ => 0 end.

(** The shared accesses a worker still has to make before it fetches
    again. *)
Definition steps_left (w : Worker) : nat :=
  match w with
  | AtFetch => 1 | AtRun _ => 4 | AtStore _ _ => 3 | AtCount => 2
  | Returned => 0
  end.

Definition sum_over (f : Worker -> nat) (ws : list Worker) : nat :=
  fold_right (fun w n => f w + n)%nat 0%nat ws.

(** An upper bound on the steps the pool can still take. *)
Definition work_left (st : PoolState) : nat :=
  (4 * (g_totalCount - g_nextIdx (shared st))
   + sum_over steps_left (workers st))%nat.

(** What [g_results[j]] is to become. *)
Definition final (j : nat) : ParamResult :=
  evaluate ticks bids asks (nth j g_combos unset).

(** The worker has fetched index [j] and not yet stored its result. *)
Definition holds (w : Worker) (j : nat) : Prop :=
  w = AtRun j \/ w = AtStore j (final j).

Definition worker_ok (next : nat) (w : Worker) : Prop :=
  match w with
  | AtRun j => (j < g_totalCount /\ j < next)%nat
  | AtStore j pr => (j < g_totalCount /\ j < next)%nat /\ pr = final j
  | Returned => (g_totalCount <= next)%nat
  | _ => True
  end.

Definition is_returned (w : Worker) : nat := if returned w then 1 else 0.

(** What every reachable state of the pool satisfies: every index below
    the counter is either stored or held by a worker, a worker that holds an
    index stores the result of that index, and the two counters count the
    indices handed out and the results stored. *)
Definition pool_inv (st : PoolState) : Prop :=
  let sh := shared st in
  length (g_results sh) = g_totalCount
  /\ (forall j, (j < g_totalCount)%nat ->
        nth j (g_results sh) unset = unset
        \/ nth j (g_results sh) unset = final j)
  /\ (forall j, (j < g_totalCount)%nat -> (j < g_nextIdx sh)%nat ->
        nth j (g_results sh) unset = final j
        \/ exists t w, nth_error (workers st) t = Some w /\ holds w j)
  /\ (forall t w, nth_error (workers st) t = Some w ->
        worker_ok (g_nextIdx sh) w)
  /\ (g_doneCount sh + sum_over in_flight (workers st)
      = Nat.min (g_nextIdx sh) g_totalCount)%nat
  /\ (g_nextIdx sh
      = Nat.min (g_nextIdx sh) g_totalCount
        + sum_over is_returned (workers st))%nat.

End Run.
End Pool.

(** ** The work split of the single-file grid search

    [threadWorkloads[i % numThreads].push_back(allParamSets[i])] for
    [i = 0 .. size-1], on [numThreads] empty workloads. *)

Module Split.

Fixpoint push_at {A} (wl : list (list A)) (t : nat) (x : A)
    : list (list A) :=
  match wl, t with
  | [], _ => []
  | l :: rest, O => (l ++ [x]) :: rest
  | l :: rest, S t' => l :: push_at rest t' x
  end.

Definition threadWorkloads {A} (numThreads : nat) (allParamSets : list A)
    : list (list A) :=
  fold_left (fun wl ix => push_at wl (fst ix mod numThreads) (snd ix))
            (combine (seq 0 (length allParamSets)) allParamSets)
            (repeat [] numThreads).

End Split.
(** ** A sample run of the worker pool

    Two combinations over the sample series, two workers, and a schedule
    that interleaves them at every shared access. *)

Module PoolSamples.
Import Pool.

Definition combos : list Fuzzer.ParamResult :=
  [ Fuzzer.mkParamResult 2 1 0.1%float 1000%float 0%float;
    Fuzzer.mkParamResult 3 1 0.1%float 1000%float 0%float ].

Definition schedule : list nat := [0; 1; 1; 0; 0; 1; 1; 0; 0; 1]%nat.

Definition run (s : list nat) : option PoolState :=
  pool_run (Samples.ticks_of Samples.series) (Samples.bids_of Samples.series)
    (Samples.asks_of Samples.series) combos (pool_init combos 2) s.

(** The state the schedule ends in. *)
Definition final_state : PoolState :=
  match run schedule with
  | Some st => st
  | None => pool_init combos 2
  end.

End PoolSamples.
(** ** The first fuzzer of the single file

    [fuzzIntParam] and [fuzzDoubleParam] of the first program of the single
    file: the loop counter is a [double], stepped by 1 and by 0.3 from -3
    for as long as it is [<= 3]. *)

Module NaiveFuzzer.

(** [for (double i = lo; i <= hi; i = i + step)]: the values the counter
    takes, for at most [fuel] iterations. *)
Fixpoint counter_values (fuel : nat) (i hi step : double) : list double :=
  match fuel with
  | O => []
  | S fuel' =>
      if dle i hi then i :: counter_values fuel' (i + step)%float hi step
      else []
  end.

Definition fuzzIntParam (fuel : nat) (baseVal : Z) : list Z :=
  Fuzzer.std_sort Z.ltb
    (map (fun i =>
            let factor := ((100.0 + i) / 100.0)%float in
            let val := (Z2d baseVal * factor)%float in
            let iv := Fuzzer.round_to_int val in
            if iv <? 1 then 1 else iv)
         (counter_values fuel (-3)%float 3%float 1%float)).

Definition fuzzDoubleParam (fuel : nat) (baseVal : double) : list double :=
  Fuzzer.std_sort PrimFloat.ltb
    (map (fun i =>
            let factor := ((100.0 + i) / 100.0)%float in
            let dv := (baseVal * factor)%float in
            if dle dv 0.0 then 0.000001%float else dv)
         (counter_values fuel (-3)%float 3%float 0.3%float)).

End NaiveFuzzer.
(** ** Counting ticks *)

(** The number of ticks [j < k] on which [f] holds. *)
Definition count_ticks (f : nat -> bool) (k : nat) : nat :=
  length (filter f (seq 0 k)).

(** ** The rankings of the sweeps

    [std::sort] and [std::priority_queue] are library code.  The C++
    standard fixes their results only up to the order of the elements that
    compare equivalent, and they are modelled by what the standard fixes:
    a relation between the input and the results that are allowed. *)

Module Ranking.
Section Sort.
Context {A : Type} (comp : A -> A -> bool).

(** Sorted with respect to [comp]: [comp] puts no element before one that
    stands in front of it. *)
Definition sorted_by (out : list A) : Prop :=
  StronglySorted (fun a b => comp b a = false) out.

(** [std::sort(v.begin(), v.end(), comp)]: [out] is a rearrangement of [v]
    that is sorted with respect to [comp]. *)
Definition sort_outcome (v out : list A) : Prop :=
  Permutation v out /\ sorted_by out.

(** A stable sort, in which the element seen first wins a tie: [x] is put
    behind the elements that [comp] puts before it, and in front of the
    first one that [comp] does not. *)
Fixpoint stable_insert (x : A) (l : list A) : list A :=
  match l with
  | [] => [x]
  | y :: t => if comp y x then y :: stable_insert x t else x :: l
  end.

Definition stable_sort (l : list A) : list A :=
  fold_right stable_insert [] l.

(** No two elements tie: of any two, [comp] puts one before the other. *)
Definition no_ties (l : list A) : Prop :=
  ForallOrdPairs (fun a b => comp a b = true \/ comp b a = true) l.

(** The elements are pairwise different and no two of them tie. *)
Definition strict_on (l : list A) : Prop :=
  NoDup l
  /\ forall x y, In x l -> In y l ->
       x = y \/ comp x y = true \/ comp y x = true.

End Sort.
End Ranking.

(** ** FuzzerMain.cpp (try2): the final report *)

Module Report.
Import Fuzzer Pool.

(** [[](auto &a, auto &b){ return a.pnl > b.pnl; }] *)
Definition by_pnl_desc (a b : ParamResult) : bool := dgt (pnl a) (pnl b).

(** [int topCount = std::min<int>((int)localCopy.size(), 3)] *)
Definition topCount (localCopy : list ParamResult) : nat :=
  Nat.min (length localCopy) 3.

(** The lines of the final block when [std::sort] computes [sort]. *)
Definition printed (sort : list ParamResult -> list ParamResult)
    (st : PoolState) : list ParamResult :=
  let localCopy := sort (g_results (shared st)) in
  firstn (topCount localCopy) localCopy.

(** The final block of [progressThreadFunc], which the thread reaches
    after it has read [done >= g_totalCount]: it copies [g_results], sorts
    the copy and prints its first [topCount] elements.  [lines] is what it
    can print in the state [st]. *)
Definition final_report (g_totalCount : nat) (st : PoolState)
    (lines : list ParamResult) : Prop :=
  (g_totalCount <= g_doneCount (shared st))%nat
  /\ exists localCopy,
       Ranking.sort_outcome by_pnl_desc (g_results (shared st)) localCopy
       /\ lines = firstn (topCount localCopy) localCopy.

End Report.

(** ** The single-file grid search: the worker threads and the queue of
    the best results

    A thread touches the queue only inside the block that holds
    [resultMutex] (the backtest reads the price series, which nothing
    writes, and the thread's own copy of its workload), and it increments
    the atomic [completedTasks] right after that block, so one iteration of
    the loop of [workerThread] is one step: [main] reads the queue for its
    final ranking only after it has seen [completedTasks >= totalTasks] and
    has joined the threads, when every push that was counted has been made.
    The counter [runningTasks] is only printed.  The contents of the
    [std::priority_queue] are a list in no particular order. *)

Module GridPool.
Import GridSearch.

(** [bool operator<(const ParameterSet& rhs) const] *)
Definition less (a b : ParameterSet) : bool := dlt (ps_pnl a) (ps_pnl b).

(** [[](const ParameterSet& a, const ParameterSet& b)
     { return a.pnl > b.pnl; }] *)
Definition by_pnl_desc (a b : ParameterSet) : bool :=
  dgt (ps_pnl a) (ps_pnl b).

(** [params.pnl = runBacktest(priceData, params).pnl] *)
Definition evaluate (priceData : list PriceData) (params : ParameterSet)
    : ParameterSet :=
  mkParameterSet (short_window params) (waiting_period params)
    (hs_exit_change_threshold params) (ma_turn_threshold params)
    (pnl (runBacktest priceData params)).

(** [if(params.short_window <= 0 || params.waiting_period <= 0) continue;] *)
Definition skipped (params : ParameterSet) : bool :=
  (short_window params <=? 0) || (waiting_period params <=? 0).

(** [q.top()]: an element of the queue that is below no other. *)
Definition is_top (q : list ParameterSet) (x : ParameterSet) : Prop :=
  In x q /\ Forall (fun y => less x y = false) q.

(** [for (int i = 0; i < n; i++) { if (q.empty()) break;
     out.push(q.top()); q.pop(); }]: the elements moved, in the order of
    the moves, and the elements left. *)
Inductive pops : nat -> list ParameterSet -> list ParameterSet
                 -> list ParameterSet -> Prop :=
  | pops_done q : pops 0 q [] q
  | pops_empty n : pops (S n) [] [] []
  | pops_next n q x q' out rest :
      is_top q x -> Permutation q (x :: q') -> pops n q' out rest ->
      pops (S n) q (x :: out) rest.

(** [bestResults.push(params)], and when the size exceeds 10 the queue is
    replaced by one that holds the ten elements popped first. *)
Definition pushed (q : list ParameterSet) (params : ParameterSet)
    (q' : list ParameterSet) : Prop :=
  if (10 <? length (params :: q))%nat
  then exists out rest, pops 10 (params :: q) out rest /\ Permutation out q'
  else Permutation (params :: q) q'.

(** No element of the queue is below another: all PnLs tie. *)
Definition all_tied (q : list ParameterSet) : bool :=
  forallb (fun a => forallb (fun b => negb (less a b)) q) q.

Record State := mkState {
  bestResults    : list ParameterSet;
  completedTasks : nat;
  workloads      : list (list ParameterSet)  (* what each thread has left *)
}.

Section Run.
Variable priceData : list PriceData.

(** One iteration of [for (auto& params : paramSets)] in thread [t]. *)
Inductive step : State -> State -> Prop :=
  | step_skip st t params rest :
      nth_error (workloads st) t = Some (params :: rest) ->
      skipped params = true ->
      step st (mkState (bestResults st) (completedTasks st)
                       (set_nth (workloads st) t rest))
  | step_push st t params rest q' :
      nth_error (workloads st) t = Some (params :: rest) ->
      skipped params = false ->
      pushed (bestResults st) (evaluate priceData params) q' ->
      step st (mkState q' (S (completedTasks st))
                       (set_nth (workloads st) t rest)).

Inductive steps : State -> State -> Prop :=
  | steps_refl st : steps st st
  | steps_step st st1 st2 : step st st1 -> steps st1 st2 -> steps st st2.

(** The state in which [main] starts the threads. *)
Definition init (numThreads : nat) (allParamSets : list ParameterSet)
    : State :=
  mkState [] 0 (Split.threadWorkloads numThreads allParamSets).

(** [main] after its monitoring loop, which it leaves when
    [completedTasks >= totalTasks], and after the joins: [bestResults] is
    popped into [topResults] until it is empty, and [topResults] is
    sorted. *)
Definition final_ranking (totalTasks : nat) (st : State)
    (topResults : list ParameterSet) : Prop :=
  (totalTasks <= completedTasks st)%nat
  /\ Forall (fun wl => wl = []) (workloads st)
  /\ exists popped,
       pops (length (bestResults st)) (bestResults st) popped []
       /\ Ranking.sort_outcome by_pnl_desc popped topResults.

(** What every reachable state satisfies when no two results tie: the
    results pushed so far and those still to come make up the results of
    the grid, the queue holds the ten best of those pushed, and
    [completedTasks] counts them. *)
Definition queue_inv (allParamSets : list ParameterSet) (st : State)
    : Prop :=
  let keep := fun p => negb (skipped p) in
  exists processed,
    Permutation
      (processed
       ++ map (evaluate priceData) (filter keep (concat (workloads st))))
      (map (evaluate priceData) (filter keep allParamSets))
    /\ Permutation (bestResults st)
         (firstn 10 (Ranking.stable_sort by_pnl_desc processed))
    /\ completedTasks st = length processed.

End Run.
End GridPool.

(** ** Sample sweeps *)

Module SweepSamples.
Import GridSearch.

(** Three ticks without spread: nothing is traded, every PnL is 0. *)
Definition quiet_series : list PriceData :=
  [ mkPriceData 10 10; mkPriceData 10 10; mkPriceData 10 10 ]%float.

(** try2: the combination with short window [sw], and a run of the
    workers over a series. *)
Definition combo (sw : Z) : Fuzzer.ParamResult :=
  Fuzzer.mkParamResult sw 1 0.1%float 1000%float 0%float.

Definition try2_run (series : list PriceData)
    (combos : list Fuzzer.ParamResult) (hw : nat) (schedule : list nat)
    : option Pool.PoolState :=
  Pool.pool_run (Samples.ticks_of series) (Samples.bids_of series)
    (Samples.asks_of series) combos (Pool.pool_init combos hw) schedule.

Definition try2_results (series : list PriceData)
    (combos : list Fuzzer.ParamResult) : list Fuzzer.ParamResult :=
  map (Pool.evaluate (Samples.ticks_of series) (Samples.bids_of series)
         (Samples.asks_of series)) combos.

(** Seventeen combinations, all with PnL 0 on the quiet series. *)
Definition tied_combos : list Fuzzer.ParamResult :=
  map combo [1; 2; 3; 4; 5; 6; 7; 8; 9; 10; 11; 12; 13; 14; 15; 16; 17].

(** One worker that runs the whole sweep of [n] combinations. *)
Definition one_worker (n : nat) : list nat := repeat 0%nat (4 * n + 1).

Definition tied_state : Pool.PoolState :=
  match try2_run quiet_series tied_combos 1 (one_worker 17) with
  | Some st => st
  | None => Pool.pool_init tied_combos 1
  end.

(** Two combinations with different PnLs on the sample series: -4.8 for
    window 4 and 0 for window 5. *)
Definition ranked_combos : list Fuzzer.ParamResult := [combo 4; combo 5].

Definition ranked_state (hw : nat) (schedule : list nat) : Pool.PoolState :=
  match try2_run Samples.series ranked_combos hw schedule with
  | Some st => st
  | None => Pool.pool_init ranked_combos hw
  end.

(** The single-file grid search: the parameter set with short window
    [sw]; eleven sets, all with PnL 0 on the quiet series; two sets with
    different PnLs on the sample series, -4.8 for window 2 and 0 for
    window 1. *)
Definition param (sw : Z) : ParameterSet :=
  mkParameterSet sw 1 0.1%float 1000%float 0%float.

Definition tied_grid : list ParameterSet :=
  map param [1; 2; 3; 4; 5; 6; 7; 8; 9; 10; 11].

Definition ranked_grid : list ParameterSet := [param 2; param 1].

End SweepSamples.

(** * Properties *)

(** ** The loop counter and the prefix runs *)

Lemma indices_S (n : nat) : indices (S n) = indices n ++ [Z.of_nat n].
Proof.
  unfold indices. rewrite seq_S, map_app. reflexivity.
Qed.

Lemma indices_length (n : nat) : length (indices n) = n.
Proof.
  unfold indices. rewrite length_map, length_seq. reflexivity.
Qed.

(** ** Non-negative doubles

    Facts about binary64 addition and multiplication, derived from the
    specification of the primitive operations ([SpecFloat], [FloatAxioms]). *)

Lemma digits2_pos_bounds (p : positive) :
  2 ^ (Zpos (digits2_pos p) - 1) <= Zpos p < 2 ^ Zpos (digits2_pos p).
Proof.
  induction p as [p IH | p IH |]; cbn [digits2_pos].
  - rewrite Pos2Z.inj_succ.
    replace (Z.succ (Zpos (digits2_pos p)) - 1)
      with (Z.succ (Zpos (digits2_pos p) - 1)) by lia.
    rewrite !Z.pow_succ_r by lia. lia.
  - rewrite Pos2Z.inj_succ.
    replace (Z.succ (Zpos (digits2_pos p)) - 1)
      with (Z.succ (Zpos (digits2_pos p) - 1)) by lia.
    rewrite !Z.pow_succ_r by lia. lia.
  - cbn. lia.
Qed.

(** A positive number that reaches [2 ^ k] has more than [k] digits. *)
Lemma digits2_pos_lower (p : positive) (k : Z) :
  2 ^ k <= Zpos p -> k < Zpos (digits2_pos p).
Proof.
  intro H. destruct (Z.lt_ge_cases k (Zpos (digits2_pos p))) as [|Hk]; [assumption|].
  pose proof (digits2_pos_bounds p) as [_ Hu].
  pose proof (Z.pow_le_mono_r 2 _ _ ltac:(lia) Hk). lia.
Qed.

Lemma shl_align_spec (m : positive) (e e' : Z) :
  e' <= e ->
  Zpos (fst (shl_align m e e')) = Zpos m * 2 ^ (e - e').
Proof.
  intro H. unfold shl_align.
  destruct (e' - e) as [|d|d] eqn:E; try lia.
  - replace (e - e') with 0 by lia. cbn [fst]. lia.
  - replace (e - e') with (Zpos d) by lia. cbn [fst].
    clear. revert m. induction d using Pos.peano_ind; intro m.
    + cbn. lia.
    + rewrite Pos.iter_succ, Pos2Z.inj_succ, Z.pow_succ_r by lia.
      rewrite Pos2Z.inj_xO, IHd. lia.
Qed.

Lemma shr_1_div2 (mrs : shr_record) :
  0 <= shr_m mrs -> shr_m (shr_1 mrs) = shr_m mrs / 2.
Proof.
  destruct mrs as [m r s]. cbn [shr_m]. intro H.
  destruct m as [|[p|p|]|p]; cbn [shr_1 shr_m]; try lia;
    Z.div_mod_to_equations; lia.
Qed.

Lemma iter_pos_shr_1 (p : positive) :
  forall mrs, 0 <= shr_m mrs ->
    shr_m (iter_pos shr_1 p mrs) = shr_m mrs / 2 ^ Zpos p.
Proof.
  assert (Hd : forall a b c, 0 < b -> 0 < c -> a / b / c = a / (b * c)).
  { intros. apply Z.div_div; lia. }
  induction p as [p IH | p IH |]; intros mrs H; cbn [iter_pos].
  - assert (H1 : 0 <= shr_m (shr_1 mrs)).
    { rewrite shr_1_div2 by assumption. apply Z.div_pos; lia. }
    assert (H2 : 0 <= shr_m (iter_pos shr_1 p (shr_1 mrs))).
    { rewrite IH by assumption. apply Z.div_pos; [lia|]. apply Z.pow_pos_nonneg; lia. }
    rewrite IH, IH, shr_1_div2 by assumption.
    assert (0 < 2 ^ Zpos p) by (apply Z.pow_pos_nonneg; lia).
    rewrite !Hd by lia. f_equal.
    assert (E : Zpos p~1 = 1 + (Zpos p + Zpos p)) by lia.
    rewrite E, !Z.pow_add_r, Z.pow_1_r by lia. lia.
  - assert (H2 : 0 <= shr_m (iter_pos shr_1 p mrs)).
    { rewrite IH by assumption. apply Z.div_pos; [lia|]. apply Z.pow_pos_nonneg; lia. }
    rewrite IH, IH by assumption.
    assert (0 < 2 ^ Zpos p) by (apply Z.pow_pos_nonneg; lia).
    rewrite Hd by lia. f_equal.
    assert (E : Zpos p~0 = Zpos p + Zpos p) by lia.
    rewrite E, Z.pow_add_r by lia. reflexivity.
  - rewrite shr_1_div2 by assumption. reflexivity.
Qed.

(** [shr] divides a non-negative mantissa by [2 ^ n] and adds [n] to the
    exponent, for [n >= 0]; for [n <= 0] it does nothing. *)
Lemma shr_spec (mrs : shr_record) (e n : Z) :
  0 <= shr_m mrs ->
  shr_m (fst (shr mrs e n)) = shr_m mrs / 2 ^ (Z.max n 0)
  /\ snd (shr mrs e n) = e + Z.max n 0.
Proof.
  intro H. unfold shr. destruct n as [|p|p]; cbn [fst snd].
  - cbn. rewrite Z.div_1_r. lia.
  - rewrite iter_pos_shr_1 by assumption.
    replace (Z.max (Zpos p) 0) with (Zpos p) by lia. split; reflexivity.
  - replace (Z.max (Zneg p) 0) with 0 by lia. cbn. rewrite Z.div_1_r. lia.
Qed.

Lemma shr_record_of_loc_m m l : shr_m (shr_record_of_loc m l) = m.
Proof. destruct l as [|[]]; reflexivity. Qed.

Lemma round_nearest_even_ge m l :
  m <= round_nearest_even m l <= m + 1.
Proof.
  unfold round_nearest_even. destruct l as [|[]]; try lia.
  destruct (Z.even m); lia.
Qed.

Section Rounding.
Variables prec emax : Z.
Hypothesis Hprec : 0 < prec.

Lemma fexp_ge_emin (e : Z) : SpecFloat.emin prec emax <= fexp prec emax e.
Proof. unfold fexp. lia. Qed.

Lemma fexp_mono (a b : Z) : a <= b -> fexp prec emax a <= fexp prec emax b.
Proof. unfold fexp. lia. Qed.

(** Rounding a non-negative mantissa with a positive sign never yields a
    negative number or NaN. *)
Lemma binary_round_aux_nonneg (m e : Z) (l : location) :
  0 <= m -> SF_nonneg (binary_round_aux prec emax false m e l) = true.
Proof.
  intro Hm. unfold binary_round_aux, shr_fexp.
  match goal with
  | |- context [shr ?r ?e0 ?n] =>
      pose proof (shr_spec r e0 n) as [H1 _];
      [rewrite shr_record_of_loc_m; exact Hm|];
      destruct (shr r e0 n) as [mrs' e']
  end.
  cbn [fst] in H1. rewrite shr_record_of_loc_m in H1.
  assert (H1' : 0 <= shr_m mrs').
  { rewrite H1. apply Z.div_pos; [lia|]. apply Z.pow_pos_nonneg; lia. }
  pose proof (round_nearest_even_ge (shr_m mrs') (loc_of_shr_record mrs')) as Hr.
  match goal with
  | |- context [shr ?r ?e0 ?n] =>
      pose proof (shr_spec r e0 n) as [H2 _];
      [rewrite shr_record_of_loc_m; lia|];
      destruct (shr r e0 n) as [mrs'' e'']
  end.
  cbn [fst] in H2. rewrite shr_record_of_loc_m in H2.
  assert (H2' : 0 <= shr_m mrs'').
  { rewrite H2. apply Z.div_pos; [lia|]. apply Z.pow_pos_nonneg; lia. }
  destruct (shr_m mrs''); [reflexivity| |lia].
  destruct (_ <=? _); reflexivity.
Qed.

(** The sum of two non-negative finite floats in canonical form is not
    below the first of them. *)
Lemma SFadd_finite_ge (mt mf : positive) (et ef : Z) :
  bounded prec emax mt et = true ->
  bounded prec emax mf ef = true ->
  SFleb (S754_finite false mt et)
        (SFadd prec emax (S754_finite false mt et) (S754_finite false mf ef))
  = true.
Proof.
  intros Ht Hf. unfold bounded, canonical_mantissa in Ht, Hf.
  apply andb_true_iff in Ht, Hf. destruct Ht as [Ct _], Hf as [Cf _].
  apply Z.eqb_eq in Ct, Cf.
  cbn [SFadd cond_Zopp].
  set (ez := Z.min et ef).
  pose proof (shl_align_spec mt et ez ltac:(lia)) as A.
  pose proof (shl_align_spec mf ef ez ltac:(lia)) as B.
  set (a := fst (shl_align mt et ez)) in *.
  set (b := fst (shl_align mf ef ez)) in *.
  change (Zpos a + Zpos b) with (Zpos (a + b)).
  set (s := (a + b)%positive).
  assert (Hs : Zpos mt * 2 ^ (et - ez) <= Zpos s) by (unfold s; lia).
  cbn [binary_normalize]. unfold binary_round.
  pose proof (digits2_pos_bounds mt) as [Dt _].
  pose proof (digits2_pos_bounds s) as [Ds _].
  set (dt := Zpos (digits2_pos mt)) in *.
  set (ds := Zpos (digits2_pos s)) in *.
  assert (Hp0 : 0 < 2 ^ (et - ez)) by (apply Z.pow_pos_nonneg; lia).
  assert (Hdig : dt + et <= ds + ez).
  { assert (2 ^ (dt - 1 + (et - ez)) <= Zpos s).
    { rewrite Z.pow_add_r by lia. nia. }
    pose proof (digits2_pos_lower s _ H). fold ds in H0. lia. }
  set (E1 := fexp prec emax (ds + ez)).
  assert (HE1 : et <= E1).
  { rewrite <- Ct. apply fexp_mono. exact Hdig. }
  assert (Hemin : SpecFloat.emin prec emax <= et).
  { rewrite <- Ct. apply fexp_ge_emin. }
  assert (Hshl : shl_align s ez E1 = (s, ez)).
  { unfold shl_align. destruct (E1 - ez) eqn:E; try reflexivity. lia. }
  rewrite Hshl.
  unfold binary_round_aux, shr_fexp. cbn [Zdigits2]. fold ds. fold E1.
  (* first shift *)
  pose proof (shr_spec (shr_record_of_loc (Zpos s) loc_Exact) ez (E1 - ez)
                ltac:(cbn; lia)) as [M1 X1].
  destruct (shr (shr_record_of_loc (Zpos s) loc_Exact) ez (E1 - ez))
    as [mrs' e'].
  cbn [fst snd] in M1, X1. cbn [shr_record_of_loc shr_m] in M1.
  replace (Z.max (E1 - ez) 0) with (E1 - ez) in * by lia.
  assert (He' : e' = E1) by lia. clear X1. subst e'.
  assert (Hpow : 2 ^ (E1 - ez) <= Zpos s).
  { unfold E1, fexp.
    destruct (Z.max_spec (ds + ez - prec) (SpecFloat.emin prec emax)) as [[_ ->] | [_ ->]].
    - transitivity (2 ^ (et - ez)); [apply Z.pow_le_mono_r; lia | nia].
    - transitivity (2 ^ (ds - 1)); [apply Z.pow_le_mono_r; lia | exact Ds]. }
  assert (Hq0 : 0 < 2 ^ (E1 - ez)) by (apply Z.pow_pos_nonneg; lia).
  assert (Hm1 : 1 <= shr_m mrs').
  { rewrite M1. apply Z.div_le_lower_bound; lia. }
  assert (Hm1' : et = E1 -> Zpos mt <= shr_m mrs').
  { intros <-. rewrite M1. apply Z.div_le_lower_bound; lia. }
  pose proof (round_nearest_even_ge (shr_m mrs') (loc_of_shr_record mrs'))
    as [Hr _].
  destruct (round_nearest_even (shr_m mrs') (loc_of_shr_record mrs'))
    as [|q|q] eqn:Erq; try lia.
  (* second shift *)
  cbn [Zdigits2].
  set (dq := Zpos (digits2_pos q)).
  set (n2 := fexp prec emax (dq + E1) - E1).
  pose proof (shr_spec (shr_record_of_loc (Zpos q) loc_Exact) E1 n2
                ltac:(cbn; lia)) as [M2 X2].
  destruct (shr (shr_record_of_loc (Zpos q) loc_Exact) E1 n2) as [mrs'' e''].
  cbn [fst snd] in M2, X2. cbn [shr_record_of_loc shr_m] in M2.
  pose proof (digits2_pos_bounds q) as [Dq _]. fold dq in Dq.
  pose proof (fexp_ge_emin (ds + ez)) as Hge. fold E1 in Hge.
  assert (Hq2 : 2 ^ Z.max n2 0 <= Zpos q).
  { destruct (Z.max_spec n2 0) as [[_ ->] | [Hn ->]].
    - cbn. lia.
    - transitivity (2 ^ (dq - 1)); [|exact Dq].
      apply Z.pow_le_mono_r; [lia|].
    assert (1 <= dq) by (unfold dq; lia).
    clear - Hprec Hge Hn H. unfold n2, fexp in *. lia. }
  assert (Hq3 : 0 < 2 ^ Z.max n2 0) by (apply Z.pow_pos_nonneg; lia).
  assert (Hm2 : 1 <= shr_m mrs'').
  { rewrite M2. apply Z.div_le_lower_bound; lia. }
  destruct (shr_m mrs'') as [|q2|q2] eqn:Erq2; try lia.
  destruct (e'' <=? emax - prec); [|reflexivity].
  unfold SFleb, SFcompare.
  destruct (Z.compare_spec et e'') as [Heq|Hlt|Hgt]; [|reflexivity|lia].
  assert (Hn2 : Z.max n2 0 = 0) by lia.
  rewrite Hn2 in M2. cbn in M2. rewrite Z.div_1_r in M2.
  assert (Zpos mt <= Zpos q2) by (rewrite M2; specialize (Hm1' ltac:(lia)); lia).
  change (Pos.compare_cont Eq mt q2) with (Pos.compare mt q2).
  destruct (Pos.compare_spec mt q2); try reflexivity. lia.
Qed.

End Rounding.

(** *** Binary64 *)

Lemma prec_positive : 0 < prec.
Proof. reflexivity. Qed.

Lemma leb_zero_nonneg (x : float) :
  (0 <=? x)%float = SF_nonneg (Prim2SF x).
Proof.
  rewrite FloatAxioms.leb_spec. change (Prim2SF 0%float) with (S754_zero false).
  destruct (Prim2SF x) as [s|s| |s m e]; try destruct s; reflexivity.
Qed.

Lemma SFleb_refl_finite (m : positive) (e : Z) :
  SFleb (S754_finite false m e) (S754_finite false m e) = true.
Proof.
  unfold SFleb, SFcompare. rewrite Z.compare_refl.
  change (Pos.compare_cont Eq m m) with (Pos.compare m m).
  rewrite Pos.compare_refl. reflexivity.
Qed.

Lemma SFadd_nonneg (x y : spec_float) :
  SF_nonneg x = true -> SF_nonneg y = true ->
  SF_nonneg (SF64add x y) = true.
Proof.
  unfold SF64add.
  destruct x as [sx|sx| |sx mx ex], y as [sy|sy| |sy my ey];
    cbn [SF_nonneg]; intros Hx Hy; try discriminate;
    try apply negb_true_iff in Hx; try apply negb_true_iff in Hy; subst;
    try reflexivity.
  - destruct sx, sy; reflexivity.
  - cbn [SFadd cond_Zopp].
    match goal with
    | |- context [Zpos ?a + Zpos ?b] =>
        change (Zpos a + Zpos b) with (Zpos (a + b))
    end.
    cbn [binary_normalize]. unfold binary_round.
    destruct (shl_align _ _ _) as [mz ez].
    apply binary_round_aux_nonneg. lia.
Qed.

Lemma SFadd_ge (x y : spec_float) :
  valid_binary x = true -> valid_binary y = true ->
  SF_nonneg x = true -> SF_nonneg y = true ->
  SFleb x (SF64add x y) = true.
Proof.
  unfold SF64add.
  destruct x as [sx|sx| |sx mx ex], y as [sy|sy| |sy my ey];
    cbn [SF_nonneg valid_binary]; intros Vx Vy Hx Hy; try discriminate;
    try apply negb_true_iff in Hx; try apply negb_true_iff in Hy; subst;
    try reflexivity.
  - destruct sx, sy; reflexivity.
  - apply SFleb_refl_finite.
  - apply SFadd_finite_ge; [apply prec_positive | assumption | assumption].
Qed.

(** Adding a non-negative double to a non-negative double gives a
    non-negative double that is not below the first. *)
Lemma float_add_ge (t f : float) :
  (0 <=? t)%float = true -> (0 <=? f)%float = true ->
  (0 <=? t + f)%float = true /\ (t <=? t + f)%float = true.
Proof.
  rewrite !leb_zero_nonneg, FloatAxioms.leb_spec, FloatAxioms.add_spec. intros Ht Hf. split.
  - now apply SFadd_nonneg.
  - apply SFadd_ge; auto using Prim2SF_valid.
Qed.

Lemma float_mul_nonneg (x c : float) :
  finite_pos c = true -> (0 <=? x)%float = true -> (0 <=? x * c)%float = true.
Proof.
  unfold finite_pos. rewrite !leb_zero_nonneg, FloatAxioms.mul_spec. unfold SF64mul.
  destruct (Prim2SF c) as [s|s| |[] mc ec]; try discriminate. intros _.
  destruct (Prim2SF x) as [sx|sx| |sx mx ex]; cbn [SF_nonneg];
    intro Hx; try discriminate; try apply negb_true_iff in Hx; subst;
    try reflexivity.
  cbn [SFmul xorb]. apply binary_round_aux_nonneg. lia.
Qed.

Lemma float_leb_refl (x : float) :
  (0 <=? x)%float = true -> (x <=? x)%float = true.
Proof.
  rewrite leb_zero_nonneg, FloatAxioms.leb_spec.
  destruct (Prim2SF x) as [s|s| |s m e]; cbn [SF_nonneg]; intro H;
    try discriminate; try apply negb_true_iff in H; subst;
    try reflexivity.
  apply SFleb_refl_finite.
Qed.

(** Case analysis on every integer comparison of the goal. *)
Ltac no_if t :=
  lazymatch t with
  | context [if _ then _ else _] => fail
  | _ => idtac
  end.

Ltac zcases :=
  repeat (match goal with
          | |- context [?a <? ?b] =>
              no_if a; no_if b; destruct (Z.ltb_spec a b)
          | |- context [?a <=? ?b] =>
              no_if a; no_if b; destruct (Z.leb_spec a b)
          | |- context [?a =? ?b] =>
              no_if a; no_if b; destruct (Z.eqb_spec a b)
          end; cbn [andb orb negb] in *).

Lemma back_push_back {A} (d : A) (v : list A) (x : A) :
  back d (push_back v x) = x.
Proof. unfold back, push_back. apply last_last. Qed.

(** Case analysis on every conditional of the goal. *)
Ltac ifcases :=
  repeat (cbn; match goal with
               | |- context [if ?c then _ else _] => destruct c eqn:?
               end).

Module Try2Facts.
Import Try2 Try2Inv.

Lemma try2_run_ticks_S p ticks bids asks k :
  run_ticks p ticks bids asks (S k)
  = tick p ticks bids asks (run_ticks p ticks bids asks k) (Z.of_nat k).
Proof.
  unfold run_ticks. rewrite indices_S, fold_left_app. reflexivity.
Qed.

(** The position limit check keeps the position within the limit,
    whatever order is proposed. *)
Lemma try2_actual_order_within pos q :
  Z.abs pos <= POSITION_LIMIT ->
  Z.abs (pos + actual_order pos q) <= POSITION_LIMIT.
Proof.
  unfold actual_order, POSITION_LIMIT. intro H. zcases; lia.
Qed.

Lemma try2_pos_tick p ticks bids asks st i :
  pos (tick p ticks bids asks st i)
  = pos st + actual_order (pos st)
               (order_quantity
                  (decide p st (at_ nan bids i) (at_ nan asks i)
                          (tick_s_avg p st))).
Proof. reflexivity. Qed.

Lemma try2_position_bound p ticks bids asks k :
  Z.abs (pos (run_ticks p ticks bids asks k)) <= POSITION_LIMIT.
Proof.
  induction k as [|k IH].
  - unfold POSITION_LIMIT. simpl. lia.
  - rewrite try2_run_ticks_S, try2_pos_tick. now apply try2_actual_order_within.
Qed.

(** An order beyond the limit is dropped whole. *)
Lemma try2_actual_order_rejects pos q :
  Z.abs pos <= POSITION_LIMIT ->
  POSITION_LIMIT < Z.abs (pos + q) ->
  actual_order pos q = 0.
Proof.
  unfold actual_order, POSITION_LIMIT. intros H1 H2. zcases; lia.
Qed.

Lemma try2_invariant_init : invariant init_state.
Proof.
  split.
  - left. split; reflexivity.
  - intros _. reflexivity.
Qed.

(** The turn check either leaves the order at 0 and the flags alone, or
    closes an open position. *)
Lemma try2_check_turn_cases p h m s_avg ps s :
  let w := check_turn p h m s_avg ps (mkWork 0 0%float s) in
  waiting_for_signal (wstrat w) = waiting_for_signal s
  /\ ((order_quantity w = 0 /\ in_position (wstrat w) = in_position s)
      \/ (in_position s = true /\ order_quantity w = - ps
          /\ in_position (wstrat w) = false)).
Proof.
  destruct s as [ip il ext wt ex last]. unfold check_turn, close_now, set_extreme.
  ifcases; cbn; auto.
  all: rewrite andb_true_iff in Heqb; cbn in Heqb; intuition.
Qed.

(** The chain 1), 2), 3): exactly one branch runs, or none. *)
Lemma try2_check_chain_cases p h m s_avg hs ps w :
  let w' := check_chain p h m s_avg hs ps w in
  (back false (in_high_spread h) = true /\ hs = false
     /\ order_quantity w' = order_quantity w
     /\ in_position (wstrat w') = in_position (wstrat w)
     /\ waiting_for_signal (wstrat w') = true)
  \/ (waiting_for_signal (wstrat w) = true /\ ps = 0 /\ hs = false
      /\ (((order_quantity w' = POSITION_SIZE
             \/ order_quantity w' = - POSITION_SIZE)
            /\ in_position (wstrat w') = true
            /\ waiting_for_signal (wstrat w') = false)
          \/ (order_quantity w' = order_quantity w
              /\ in_position (wstrat w') = in_position (wstrat w))))
  \/ (hs = true /\ ps <> 0
      /\ order_quantity w' = - ps
      /\ in_position (wstrat w') = false
      /\ waiting_for_signal (wstrat w') = waiting_for_signal (wstrat w))
  \/ (w' = w /\ (hs = true -> ps = 0)).
Proof.
  unfold check_chain.
  destruct (negb (empty (timestamp h)) && back false (in_high_spread h)
            && negb hs) eqn:E1.
  { left. rewrite !andb_true_iff, !negb_true_iff in E1. cbn. intuition. }
  destruct (waiting_for_signal (wstrat w)
            && (waiting_period p <=? size (timestamp h)
                                    - high_spread_exit_index (wstrat w))
            && (ps =? 0) && negb hs) eqn:E2.
  { right; left. rewrite !andb_true_iff, !negb_true_iff, Z.eqb_eq in E2.
    destruct E2 as [[[Hw _] Hp] Hh]. repeat split; auto.
    unfold try_entry. ifcases; cbn; auto. }
  destruct (hs && negb (ps =? 0)) eqn:E3.
  { right; right; left.
    rewrite andb_true_iff, negb_true_iff, Z.eqb_neq in E3. cbn. intuition. }
  right; right; right. split; [reflexivity|].
  intros ->. cbn in E3. rewrite negb_false_iff, Z.eqb_eq in E3. exact E3.
Qed.

Lemma try2_invariant_tick p ticks bids asks st i :
  invariant st -> invariant (tick p ticks bids asks st i).
Proof.
  destruct st as [h s ps c].
  unfold invariant, coherent, flat_after_hs, tick, decide.
  cbv zeta.
  generalize (tick_s_avg p (mkState h s ps c)).
  generalize (at_ nan bids i) (at_ nan asks i). intros b a s_avg.
  cbn [hist strat pos cash in_high_spread update_history].
  rewrite back_push_back.
  set (m := (0.5 * (b + a))%float).
  set (hs := dge (a - b) HIGH_SPREAD_THRESHOLD).
  pose proof (try2_check_turn_cases p h m s_avg ps s) as Ht.
  set (w1 := check_turn p h m s_avg ps (mkWork 0 0%float s)) in *.
  pose proof (try2_check_chain_cases p h m s_avg hs ps w1) as Hc.
  set (w2 := check_chain p h m s_avg hs ps w1) in *.
  cbv zeta in Ht, Hc.
  intros [Hco Hhs].
  assert (Hact : forall q, q = 0 \/ q = - ps \/
                           (ps = 0 /\ (q = POSITION_SIZE \/ q = - POSITION_SIZE)) ->
                           Z.abs ps <= 100 -> actual_order ps q = q).
  { intros q Hq Hb. clear -Hq Hb.
    unfold actual_order, POSITION_LIMIT, POSITION_SIZE in *.
    zcases; lia. }
  unfold POSITION_SIZE in *.
  destruct Ht as [Htw Ht].
  destruct Hc as [(Hb & Hh & Ho & Hi & Hw)
                 | [(Hw & Hp & Hh & He)
                   | [(Hh & Hp & Ho & Hi & Hw) | (He & Hh)]]].
  - specialize (Hhs Hb). subst ps.
    assert (order_quantity w2 = 0) as -> by (rewrite Ho; intuition lia).
    rewrite Hact by lia. rewrite Hi. rewrite Hh.
    split; [left; split; [lia|] | discriminate].
    intuition (congruence || lia).
  - subst ps. rewrite Hh.
    split; [|discriminate].
    destruct He as [(Ho & Hi & Hw') | (Ho & Hi)].
    + rewrite Hact by lia. right. intuition.
    + assert (order_quantity w2 = 0) as -> by (rewrite Ho; intuition lia).
      rewrite Hact by lia. left. split; [lia|]. rewrite Hi.
      intuition (congruence || lia).
  - rewrite Ho, Hact by (intuition lia). split.
    + left. split; [lia | exact Hi].
    + intros _. lia.
  - rewrite He.
    destruct Ht as [(Ho & Hi) | (Hi0 & Ho & Hi)].
    + rewrite Ho, Hact by (intuition lia). rewrite Z.add_0_r.
      split.
      * rewrite Hi, Htw. exact Hco.
      * exact Hh.
    + rewrite Ho, Hact by (intuition lia). split.
      * left. split; [lia | exact Hi].
      * intros _. lia.
Qed.

(** In high spread with an open position, the last branch of the chain
    decides the tick. *)
Lemma try2_forced_close_decides p st b a s_avg :
  invariant st ->
  dge (a - b) HIGH_SPREAD_THRESHOLD = true ->
  pos st <> 0 ->
  let w := decide p st b a s_avg in
  order_quantity w = - pos st
  /\ machine_state (wstrat w) = FLAT
  /\ pos st + actual_order (pos st) (order_quantity w) = 0.
Proof.
  intros [Hco _] Hhs Hp. unfold decide. cbv zeta. rewrite Hhs.
  set (m := (0.5 * (b + a))%float).
  destruct (try2_check_turn_cases p (hist st) m s_avg (pos st) (strat st))
    as [Htw _].
  set (w1 := check_turn _ _ _ _ _ _) in *.
  destruct (try2_check_chain_cases p (hist st) m s_avg true (pos st) w1)
    as [(_ & Hh & _) | [(_ & _ & Hh & _)
                      | [(_ & _ & Ho & Hi & Hw) | (_ & Hh)]]];
    try discriminate; [|specialize (Hh eq_refl); contradiction].
  set (w2 := check_chain _ _ _ _ _ _ _) in *.
  destruct Hco as [[Hz _] | (Hq & _ & Hwt)]; [contradiction|].
  split; [exact Ho|]. split.
  - unfold machine_state, machine_state_of. rewrite Hi, Hw, Htw, Hwt.
    reflexivity.
  - rewrite Ho. unfold actual_order, POSITION_LIMIT, POSITION_SIZE in *.
    zcases; lia.
Qed.

Lemma try2_invariant_run p ticks bids asks k :
  invariant (run_ticks p ticks bids asks k).
Proof.
  induction k as [|k IH].
  - exact try2_invariant_init.
  - rewrite try2_run_ticks_S. now apply try2_invariant_tick.
Qed.

End Try2Facts.

Module GridSearchFacts.
Import GridSearch GridSearchInv.

Lemma gs_run_ticks_S params priceData k :
  run_ticks params priceData (S k)
  = tick params priceData (run_ticks params priceData k) (Z.of_nat k).
Proof.
  unfold run_ticks. rewrite indices_S, fold_left_app. reflexivity.
Qed.

(** What [process_order] does, in terms of the filled quantity. *)
Lemma gs_process_order_position st bid ask q s mids :
  currentPosition (process_order st bid ask q s mids)
  = currentPosition st + filled_quantity (currentPosition st) q.
Proof.
  unfold process_order, filled_quantity.
  destruct (q =? 0); cbn [negb]; [cbn; lia|].
  destruct (0 <? q) eqn:Hq.
  - destruct (position_limit <? currentPosition st + q).
    + reflexivity.
    + rewrite Hq. reflexivity.
  - destruct (currentPosition st + q <? - position_limit).
    + reflexivity.
    + destruct (q <? 0); reflexivity.
Qed.

Lemma gs_filled_quantity_within pos q :
  Z.abs pos <= position_limit ->
  Z.abs (pos + filled_quantity pos q) <= position_limit.
Proof.
  unfold filled_quantity, position_limit. intro H. zcases; lia.
Qed.

Lemma gs_filled_quantity_rejects pos q :
  Z.abs pos <= position_limit ->
  position_limit < Z.abs (pos + q) ->
  filled_quantity pos q = 0.
Proof.
  unfold filled_quantity, position_limit. intros H1 H2. zcases; lia.
Qed.

Lemma gs_tick_position_within params priceData st i :
  Z.abs (currentPosition st) <= position_limit ->
  Z.abs (currentPosition (tick params priceData st i)) <= position_limit.
Proof.
  intro H. unfold tick.
  destruct (tick_decision params priceData st i) as [w|]; [|exact H].
  rewrite gs_process_order_position. now apply gs_filled_quantity_within.
Qed.

Lemma gs_position_bound params priceData k :
  Z.abs (currentPosition (run_ticks params priceData k)) <= position_limit.
Proof.
  induction k as [|k IH].
  - unfold position_limit. simpl. lia.
  - rewrite gs_run_ticks_S. now apply gs_tick_position_within.
Qed.

Lemma gs_invariant_init n : invariant (init_state n).
Proof.
  split.
  - left. split; reflexivity.
  - intros _. reflexivity.
Qed.

Lemma gs_check_turn_cases params short_avg ps s :
  let w := check_turn params short_avg ps (mkWork 0 s) in
  waiting_for_signal (wstrat w) = waiting_for_signal s
  /\ prev_in_high_spread (wstrat w) = prev_in_high_spread s
  /\ ((order_quantity w = 0 /\ in_position (wstrat w) = in_position s)
      \/ (in_position s = true /\ order_quantity w = - ps
          /\ in_position (wstrat w) = false)).
Proof.
  destruct s as [ip il wt ex last ext prev].
  unfold check_turn, close_now, set_extreme.
  cbn [wstrat in_position position_is_long].
  destruct ip; [|cbn; intuition].
  destruct il.
  - destruct (dgt _ _); [cbn; intuition|]. destruct (dge _ _); cbn; intuition.
  - destruct (dlt _ _); [cbn; intuition|]. destruct (dge _ _); cbn; intuition.
Qed.

Lemma gs_check_hs_exit_cases i mid_price short_avg hs w :
  let w' := check_hs_exit i mid_price short_avg hs w in
  order_quantity w' = order_quantity w
  /\ in_position (wstrat w') = in_position (wstrat w)
  /\ prev_in_high_spread (wstrat w') = hs
  /\ ((prev_in_high_spread (wstrat w) = true /\ hs = false
       /\ waiting_for_signal (wstrat w') = true)
      \/ waiting_for_signal (wstrat w')
         = waiting_for_signal (wstrat w)).
Proof.
  unfold check_hs_exit.
  destruct (prev_in_high_spread (wstrat w)); destruct hs; cbn; intuition.
Qed.

Lemma gs_check_entry_cases params i mid_price short_avg hs ps w :
  let w' := check_entry params i mid_price short_avg hs ps w in
  prev_in_high_spread (wstrat w') = prev_in_high_spread (wstrat w)
  /\ ((ps = 0 /\ hs = false
       /\ (((order_quantity w' = POSITION_SIZE
             \/ order_quantity w' = - POSITION_SIZE)
            /\ in_position (wstrat w') = true
            /\ waiting_for_signal (wstrat w') = false)
           \/ (order_quantity w' = order_quantity w
               /\ in_position (wstrat w') = in_position (wstrat w))))
      \/ w' = w).
Proof.
  unfold check_entry.
  destruct (waiting_for_signal (wstrat w)); [|intuition].
  destruct ((waiting_period params <=? i - high_spread_exit_index (wstrat w))
            && (ps =? 0) && negb hs) eqn:E; [|intuition].
  rewrite !andb_true_iff, negb_true_iff, Z.eqb_eq in E.
  destruct E as [[_ Hp] Hh].
  destruct (negb (isnan short_avg) && _); [|intuition].
  destruct (dge _ _); [|intuition].
  destruct (dgt _ _); [cbn; intuition|].
  destruct (dlt _ _); cbn; intuition.
Qed.

Lemma gs_check_forced_close_cases hs ps w :
  let w' := check_forced_close hs ps w in
  prev_in_high_spread (wstrat w') = prev_in_high_spread (wstrat w)
  /\ ((hs = true /\ ps <> 0 /\ order_quantity w' = - ps
       /\ in_position (wstrat w') = false
       /\ waiting_for_signal (wstrat w') = waiting_for_signal (wstrat w))
      \/ (w' = w /\ (hs = true -> ps = 0))).
Proof.
  unfold check_forced_close.
  destruct (hs && negb (ps =? 0)) eqn:E.
  - rewrite andb_true_iff, negb_true_iff, Z.eqb_neq in E.
    cbn. intuition.
  - split; [reflexivity|]. right. split; [reflexivity|].
    intros ->. cbn in E. rewrite negb_false_iff, Z.eqb_eq in E. exact E.
Qed.

Lemma gs_filled_quantity_full ps q :
  q = 0 \/ q = - ps \/ (ps = 0 /\ (q = 100 \/ q = - 100)) ->
  Z.abs ps <= 100 ->
  filled_quantity ps q = q.
Proof.
  intros Hq Hb. unfold filled_quantity, position_limit. zcases; lia.
Qed.

(** The checks of a tick that is not skipped, followed by the fill, keep
    the invariant. *)
Lemma gs_invariant_process params i st bid ask short_avg mids :
  invariant st ->
  let w := decide params i st bid ask short_avg in
  invariant (process_order st bid ask (order_quantity w) (wstrat w) mids).
Proof.
  intros [Hco Hhs]. cbv zeta.
  assert (Hs : strat (process_order st bid ask
                        (order_quantity (decide params i st bid ask short_avg))
                        (wstrat (decide params i st bid ask short_avg)) mids)
               = wstrat (decide params i st bid ask short_avg)).
  { unfold process_order. ifcases; reflexivity. }
  unfold invariant, coherent, flat_after_hs.
  rewrite Hs, gs_process_order_position. clear Hs.
  unfold coherent, flat_after_hs in *. unfold decide.
  set (mid := (0.5 * (bid + ask))%float).
  set (hs := dge (ask - bid) HIGH_SPREAD_THRESHOLD).
  set (ps := currentPosition st) in *.
  set (s := strat st) in *.
  destruct (gs_check_turn_cases params short_avg ps s) as (Tw & Tp & Tc).
  set (w1 := check_turn params short_avg ps (mkWork 0 s)) in *.
  destruct (gs_check_hs_exit_cases i mid short_avg hs w1) as (Xo & Xi & Xp & Xw).
  set (w2 := check_hs_exit i mid short_avg hs w1) in *.
  destruct (gs_check_entry_cases params i mid short_avg hs ps w2) as (Ep & Ec).
  set (w3 := check_entry params i mid short_avg hs ps w2) in *.
  destruct (gs_check_forced_close_cases hs ps w3) as (Fp & Fc).
  set (w4 := check_forced_close hs ps w3) in *.
  unfold POSITION_SIZE in *.
  rewrite Fp, Ep, Xp.
  assert (Hb : Z.abs ps <= 100) by (intuition lia).
  destruct Fc as [(Fh & Fn & Fo & Fi & Fw) | (-> & Fh)].
  { rewrite Fo, gs_filled_quantity_full by auto. split.
    - left. split; [lia | exact Fi].
    - intros _. lia. }
  destruct Ec as [(-> & Eh & [(Eo & Ei & Ew) | (Eo & Ei)]) | ->].
  - rewrite gs_filled_quantity_full by (intuition lia). rewrite Eh.
    split; [right; intuition | discriminate].
  - assert (order_quantity w3 = 0) as ->
        by (rewrite Eo, Xo; intuition lia).
    rewrite gs_filled_quantity_full by (intuition lia). rewrite Eh.
    split; [left; split; [lia|] | discriminate].
    rewrite Ei, Xi. intuition (congruence || lia).
  - rewrite Xo, Xi.
    destruct Tc as [(To & Ti) | (Ti0 & To & Ti)].
    + rewrite To, gs_filled_quantity_full by (intuition lia).
      rewrite Z.add_0_r. split; [|exact Fh].
      rewrite Ti.
      destruct Hco as [Hco | (Hp & Hi & Hw)]; [left; exact Hco|].
      right. repeat split; auto.
      destruct Xw as [(Xpr & _ & _) | ->].
      * rewrite Tp in Xpr. specialize (Hhs Xpr). lia.
      * congruence.
    + rewrite To, gs_filled_quantity_full by (intuition lia). split.
      * left. split; [lia | exact Ti].
      * intros _. lia.
Qed.

Lemma gs_forced_close_decides params i st bid ask short_avg :
  invariant st ->
  dge (ask - bid) HIGH_SPREAD_THRESHOLD = true ->
  currentPosition st <> 0 ->
  let w := decide params i st bid ask short_avg in
  order_quantity w = - currentPosition st
  /\ machine_state (wstrat w) = FLAT
  /\ currentPosition st
     + filled_quantity (currentPosition st) (order_quantity w) = 0.
Proof.
  intros [Hco Hprev] Hhs Hp. unfold decide. cbv zeta. rewrite Hhs.
  set (mid := (0.5 * (bid + ask))%float).
  set (ps := currentPosition st) in *.
  destruct (gs_check_turn_cases params short_avg ps (strat st))
    as (Tw & Tp & _).
  set (w1 := check_turn _ _ _ _) in *.
  destruct (gs_check_hs_exit_cases i mid short_avg true w1)
    as (_ & _ & _ & Xw).
  set (w2 := check_hs_exit _ _ _ _ _) in *.
  destruct (gs_check_entry_cases params i mid short_avg true ps w2)
    as (_ & [(_ & Eh & _) | Ee]); [discriminate|].
  destruct (gs_check_forced_close_cases true ps (check_entry params i mid short_avg true ps w2))
    as (_ & [(_ & _ & Fo & Fi & Fw) | (_ & Fh)]);
    [|specialize (Fh eq_refl); contradiction].
  destruct Hco as [[Hz _] | (Hq & _ & Hwt)]; [contradiction|].
  split; [exact Fo|]. split.
  - unfold machine_state, machine_state_of. rewrite Fi, Fw, Ee.
    destruct Xw as [(_ & Xh & _) | ->]; [discriminate|].
    rewrite Tw, Hwt. reflexivity.
  - rewrite Fo. unfold filled_quantity, position_limit, POSITION_SIZE in *.
    zcases; lia.
Qed.

Lemma gs_invariant_tick params priceData st i :
  invariant st -> invariant (tick params priceData st i).
Proof.
  intro H. unfold tick.
  destruct (tick_decision params priceData st i) as [w|] eqn:E.
  - unfold tick_decision in E.
    destruct (isnan _); [discriminate|]. injection E as <-.
    now apply gs_invariant_process.
  - exact H.
Qed.

Lemma gs_invariant_run params priceData k :
  invariant (run_ticks params priceData k).
Proof.
  induction k as [|k IH].
  - apply gs_invariant_init.
  - rewrite gs_run_ticks_S. now apply gs_invariant_tick.
Qed.

Lemma gs_final_close_flat st last_tick :
  currentPosition (final_close st last_tick) = 0.
Proof.
  unfold final_close.
  destruct (Z.ltb_spec 0 (currentPosition st)); simpl; [reflexivity|].
  destruct (Z.ltb_spec (currentPosition st) 0); simpl; [reflexivity|lia].
Qed.

End GridSearchFacts.

(** ** Window sums *)

Lemma skipn_cons_nth {A} (d : A) (l : list A) (n : nat) :
  (n < length l)%nat -> skipn n l = nth n l d :: skipn (S n) l.
Proof.
  revert n. induction l as [|x l IH]; intros n Hn.
  - simpl in Hn. lia.
  - destruct n as [|n]; [reflexivity|].
    simpl in Hn. cbn [skipn nth]. apply IH. lia.
Qed.

(** The summation loop adds up the [n] elements from index [i] on, in
    index order. *)
Lemma sum_loop_fold (arr : list double) (n : nat) :
  forall (i : Z) (acc : double),
    0 <= i -> i + Z.of_nat n <= size arr ->
    sum_loop arr i n acc
    = fold_left PrimFloat.add (firstn n (skipn (Z.to_nat i) arr)) acc.
Proof.
  unfold size. induction n as [|n IH]; intros i acc Hi Hn.
  - reflexivity.
  - cbn [sum_loop]. rewrite IH by lia.
    rewrite (skipn_cons_nth nan arr (Z.to_nat i)) by lia.
    cbn [firstn fold_left]. unfold at_.
    destruct (Z.ltb_spec i 0); [lia|].
    replace (Z.to_nat (i + 1)) with (S (Z.to_nat i)) by lia.
    reflexivity.
Qed.

Lemma lastn_map {A B} (f : A -> B) (n : nat) (l : list A) :
  lastn n (map f l) = map f (lastn n l).
Proof.
  unfold lastn. rewrite length_map. apply skipn_map.
Qed.

Lemma lastn_indices (n k : nat) :
  (n <= k)%nat -> lastn n (indices k) = map Z.of_nat (seq (k - n) n).
Proof.
  intro H. unfold lastn, indices.
  rewrite length_map, length_seq, skipn_map, skipn_seq.
  do 2 f_equal. lia.
Qed.

(** ** The rolling averages *)

Lemma try2_rolling_spec (mids : list double) (w : Z) :
  Try2.rolling mids w
  = if w <=? size mids
    then (fsum (lastn (Z.to_nat w) mids) / Z2d w)%float
    else nan.
Proof.
  unfold Try2.rolling. destruct (Z.leb_spec w (size mids)) as [H|H];
    [|reflexivity].
  unfold Try2.mean_of_last_N, fsum, lastn. f_equal.
  unfold size in *.
  destruct (Z.le_gt_cases w 0) as [Hw|Hw].
  - replace (Z.to_nat (Z.of_nat (length mids) - (Z.of_nat (length mids) - w)))
      with 0%nat by lia.
    replace (Z.to_nat w) with 0%nat by lia.
    rewrite Nat.sub_0_r, skipn_all. reflexivity.
  - rewrite sum_loop_fold by (unfold size; lia).
    replace (Z.to_nat (Z.of_nat (length mids) - w))
      with (length mids - Z.to_nat w)%nat by lia.
    rewrite firstn_all2; [reflexivity|].
    rewrite length_skipn. lia.
Qed.

Lemma gs_rolling_spec (history rest : list double) (w : Z) :
  0 < w ->
  GridSearch.computeRollingAverage (history ++ rest) (size history - 1) w
  = if size history <? w then nan
    else (fsum (lastn (Z.to_nat w) history) / Z2d w)%float.
Proof.
  intro Hw. unfold GridSearch.computeRollingAverage.
  replace (size history - 1 - w + 1) with (size history - w) by lia.
  destruct (Z.ltb_spec (size history - w) 0) as [H|H];
    destruct (Z.ltb_spec (size history) w) as [H'|H']; try lia;
    [reflexivity|].
  unfold fsum, lastn. f_equal. unfold size in *.
  rewrite sum_loop_fold by (unfold size; rewrite ?length_app; lia).
  replace (Z.to_nat (Z.of_nat (length history) - 1 + 1
                     - (Z.of_nat (length history) - w)))
    with (Z.to_nat w) by lia.
  replace (Z.to_nat (Z.of_nat (length history) - w))
    with (length history - Z.to_nat w)%nat by lia.
  rewrite skipn_app, firstn_app, length_skipn.
  replace (length history - Z.to_nat w - length history)%nat with 0%nat by lia.
  replace (Z.to_nat w - (length history - (length history - Z.to_nat w)))%nat
    with 0%nat by lia.
  cbn [skipn firstn]. rewrite app_nil_r.
  rewrite firstn_all2; [reflexivity|]. rewrite length_skipn. lia.
Qed.

(** The mid prices recorded by try2 after [k] ticks are those of ticks
    [0 .. k-1]: tick [k]'s own mid price is pushed at the end of its
    iteration. *)
Lemma try2_mid_price_run p ticks bids asks k :
  Try2.mid_price (Try2.hist (Try2.run_ticks p ticks bids asks k))
  = map (mid_at bids asks) (indices k).
Proof.
  induction k as [|k IH].
  - reflexivity.
  - rewrite Try2Facts.try2_run_ticks_S, indices_S, map_app.
    unfold Try2.tick. cbv zeta.
    cbn [Try2.hist Try2.update_history Try2.mid_price].
    unfold push_back. rewrite IH. reflexivity.
Qed.

(** ** The parameter grid *)

Lemma insert_sorted_length {A} (lt : A -> A -> bool) (x : A) (l : list A) :
  length (Fuzzer.insert_sorted lt x l) = S (length l).
Proof.
  induction l as [|y t IH]; [reflexivity|].
  cbn [Fuzzer.insert_sorted]. destruct (lt x y); cbn [length]; [reflexivity|].
  now rewrite IH.
Qed.

(** Sorting keeps every candidate, duplicates included. *)
Lemma std_sort_length {A} (lt : A -> A -> bool) (l : list A) :
  length (Fuzzer.std_sort lt l) = length l.
Proof.
  unfold Fuzzer.std_sort. induction l as [|x l IH]; [reflexivity|].
  cbn [fold_right length]. now rewrite insert_sorted_length, IH.
Qed.

Lemma build_combos_length sw_vals wp_vals hsx_vals mat_vals :
  length (Fuzzer.build_combos sw_vals wp_vals hsx_vals mat_vals)
  = (length sw_vals * length wp_vals * length hsx_vals * length mat_vals)%nat.
Proof.
  unfold Fuzzer.build_combos.
  rewrite (flat_map_constant_length
             (c := (length wp_vals * (length hsx_vals * length mat_vals))%nat)).
  - lia.
  - intros sw _.
    rewrite (flat_map_constant_length
               (c := (length hsx_vals * length mat_vals)%nat)).
    + reflexivity.
    + intros wp _.
      rewrite (flat_map_constant_length (c := length mat_vals)).
      * reflexivity.
      * intros hsx _. apply length_map.
Qed.

(** ** Fees of the single-file grid search *)

Module GridSearchFees.
Import GridSearch GridSearchInv GridSearchFacts.

Lemma gs_process_order_fees st bid ask q s mids :
  totalFees (process_order st bid ask q s mids)
  = let f := filled_quantity (currentPosition st) q in
    if 0 <? f then charge (totalFees st) ask f
    else if f <? 0 then charge (totalFees st) bid (- f)
    else totalFees st.
Proof.
  unfold process_order, filled_quantity, charge. cbv zeta.
  destruct (Z.eqb_spec q 0) as [->|Hq]; cbn [negb]; [reflexivity|].
  destruct (Z.ltb_spec 0 q) as [Hp|Hp].
  - destruct (position_limit <? currentPosition st + q); [reflexivity|].
    destruct (Z.ltb_spec 0 q); [reflexivity|lia].
  - destruct (currentPosition st + q <? - position_limit); [reflexivity|].
    destruct (Z.ltb_spec q 0); [|lia].
    destruct (Z.ltb_spec 0 q); [lia|reflexivity].
Qed.

(** The orders a tick can decide: nothing, the close of the open position,
    or one full unit from a flat position. *)
Lemma gs_decide_order params i st bid ask short_avg :
  invariant st ->
  let q := order_quantity (decide params i st bid ask short_avg) in
  filled_quantity (currentPosition st) q = q
  /\ (q = 0 \/ q = POSITION_SIZE \/ q = - POSITION_SIZE).
Proof.
  intros [Hco Hhs]. cbv zeta. unfold decide.
  set (mid := (0.5 * (bid + ask))%float).
  set (hs := dge (ask - bid) HIGH_SPREAD_THRESHOLD).
  set (ps := currentPosition st) in *.
  destruct (gs_check_turn_cases params short_avg ps (strat st))
    as (_ & _ & Tc).
  set (w1 := check_turn params short_avg ps (mkWork 0 (strat st))) in *.
  destruct (gs_check_hs_exit_cases i mid short_avg hs w1) as (Xo & _).
  set (w2 := check_hs_exit i mid short_avg hs w1) in *.
  destruct (gs_check_entry_cases params i mid short_avg hs ps w2) as (_ & Ec).
  set (w3 := check_entry params i mid short_avg hs ps w2) in *.
  destruct (gs_check_forced_close_cases hs ps w3) as (_ & Fc).
  set (w4 := check_forced_close hs ps w3) in *.
  unfold coherent, POSITION_SIZE in *.
  assert (Hq : order_quantity w4 = 0 \/ order_quantity w4 = - ps
               \/ (ps = 0 /\ (order_quantity w4 = 100
                              \/ order_quantity w4 = - 100))).
  { destruct Fc as [(_ & _ & Fo & _) | (-> & _)]; [auto|].
    destruct Ec as [(Hp & _ & [(Eo & _) | (Eo & _)]) | ->].
    - auto.
    - rewrite Eo, Xo. intuition.
    - rewrite Xo. intuition. }
  split.
  - apply gs_filled_quantity_full; [exact Hq | intuition lia].
  - intuition lia.
Qed.

(** One fill of a full unit at a non-negative price: the fees stay
    non-negative and do not decrease. *)
Lemma charge_unit_ge fees price :
  dle 0 fees = true -> dle 0 price = true ->
  dle 0 (charge fees price POSITION_SIZE) = true
  /\ dle fees (charge fees price POSITION_SIZE) = true.
Proof.
  unfold dle, charge. intros Hf Hp.
  apply float_add_ge; [exact Hf|].
  apply float_mul_nonneg; [reflexivity|].
  apply float_mul_nonneg; [reflexivity | exact Hp].
Qed.

Lemma gs_tick_fees params priceData st i :
  invariant st ->
  nonneg_tick (at_ (mkPriceData nan nan) priceData i) = true ->
  dle 0 (totalFees st) = true ->
  let st' := tick params priceData st i in
  dle 0 (totalFees st') = true
  /\ dle (totalFees st) (totalFees st') = true
  /\ (currentPosition st' = currentPosition st ->
      totalFees st' = totalFees st).
Proof.
  intros Hinv Hd Hf. cbv zeta. unfold tick.
  unfold nonneg_tick in Hd. apply andb_true_iff in Hd. destruct Hd as [Hb Ha].
  destruct (tick_decision params priceData st i) as [w|] eqn:E.
  - unfold tick_decision in E.
    destruct (isnan _); [discriminate|]. injection E as <-.
    set (d := at_ (mkPriceData nan nan) priceData i) in *.
    destruct (gs_decide_order params i st (Bid d) (Ask d)
                (tick_short_avg params priceData st i) Hinv) as [Hfq Hq].
    cbv zeta in Hfq, Hq.
    rewrite gs_process_order_position, gs_process_order_fees. cbv zeta.
    rewrite Hfq.
    set (q := order_quantity (decide params i st (Bid d) (Ask d)
                                (tick_short_avg params priceData st i))) in *.
    unfold POSITION_SIZE in Hq.
    destruct Hq as [-> | [-> | ->]]; cbn -[charge].
    + split; [exact Hf|]. split; [|reflexivity].
      apply float_leb_refl. exact Hf.
    + destruct (charge_unit_ge (totalFees st) (Ask d) Hf Ha) as [H1 H2].
      split; [exact H1|]. split; [exact H2|]. lia.
    + destruct (charge_unit_ge (totalFees st) (Bid d) Hf Hb) as [H1 H2].
      split; [exact H1|]. split; [exact H2|]. lia.
  - cbn [totalFees currentPosition]. split; [exact Hf|].
    split; [|reflexivity]. apply float_leb_refl. exact Hf.
Qed.

Lemma nonneg_prices_at data (k : nat) :
  nonneg_prices data = true -> (k < length data)%nat ->
  nonneg_tick (at_ (mkPriceData nan nan) data (Z.of_nat k)) = true.
Proof.
  unfold nonneg_prices. rewrite forallb_forall. intros H Hk.
  apply H. unfold at_. destruct (Z.ltb_spec (Z.of_nat k) 0); [lia|].
  rewrite Nat2Z.id. now apply nth_In.
Qed.

Lemma nonneg_prices_back data :
  nonneg_prices data = true -> data <> [] ->
  nonneg_tick (back (mkPriceData nan nan) data) = true.
Proof.
  unfold nonneg_prices, back. rewrite forallb_forall. intros H Hd.
  apply H. destruct (exists_last Hd) as (l & x & ->).
  rewrite last_last. apply in_or_app. right. now left.
Qed.

Lemma gs_fees_nonneg_run params data (k : nat) :
  nonneg_prices data = true -> (k <= length data)%nat ->
  dle 0 (totalFees (run_ticks params data k)) = true.
Proof.
  intro Hd. induction k as [|k IH]; intro Hk.
  - reflexivity.
  - rewrite gs_run_ticks_S.
    apply gs_tick_fees;
      [apply gs_invariant_run | apply nonneg_prices_at; [exact Hd | lia]
       | apply IH; lia].
Qed.

Lemma gs_final_close_fees st last_tick :
  invariant st ->
  (currentPosition st <> 0 -> nonneg_tick last_tick = true) ->
  dle 0 (totalFees st) = true ->
  let fin := final_close st last_tick in
  dle 0 (totalFees fin) = true
  /\ dle (totalFees st) (totalFees fin) = true
  /\ (currentPosition st = 0 -> totalFees fin = totalFees st).
Proof.
  intros [Hco _] Hl Hf. cbv zeta. unfold final_close.
  unfold coherent, POSITION_SIZE in Hco.
  destruct Hco as [[Hp _] | [[Hp | Hp] _]]; rewrite Hp in *;
    cbn -[PrimFloat.add PrimFloat.mul].
  - split; [exact Hf|]. split; [|reflexivity].
    apply float_leb_refl. exact Hf.
  - specialize (Hl ltac:(lia)). unfold nonneg_tick in Hl.
    apply andb_true_iff in Hl. destruct Hl as [Hb _].
    destruct (charge_unit_ge (totalFees st) (Bid last_tick) Hf Hb) as [H1 H2].
    split; [exact H1|]. split; [exact H2|]. lia.
  - specialize (Hl ltac:(lia)). unfold nonneg_tick in Hl.
    apply andb_true_iff in Hl. destruct Hl as [_ Ha].
    destruct (charge_unit_ge (totalFees st) (Ask last_tick) Hf Ha) as [H1 H2].
    split; [exact H1|]. split; [exact H2|]. lia.
Qed.

(** The fees after a tick, from the change of the position. *)
Lemma gs_tick_fees_exact params priceData st i :
  invariant st ->
  let st' := tick params priceData st i in
  let d := at_ (mkPriceData nan nan) priceData i in
  let q := currentPosition st' - currentPosition st in
  totalFees st'
  = if 0 <? q then charge (totalFees st) (Ask d) q
    else if q <? 0 then charge (totalFees st) (Bid d) (- q)
    else totalFees st.
Proof.
  intros Hinv. cbv zeta. unfold tick.
  destruct (tick_decision params priceData st i) as [w|] eqn:E.
  - unfold tick_decision in E.
    destruct (isnan _); [discriminate|]. injection E as <-.
    set (d := at_ (mkPriceData nan nan) priceData i) in *.
    destruct (gs_decide_order params i st (Bid d) (Ask d)
                (tick_short_avg params priceData st i) Hinv) as [Hfq _].
    cbv zeta in Hfq.
    rewrite gs_process_order_position, gs_process_order_fees. cbv zeta.
    rewrite Hfq.
    replace (currentPosition st + _ - currentPosition st)
      with (order_quantity (decide params i st (Bid d) (Ask d)
                              (tick_short_avg params priceData st i)))
      by lia.
    reflexivity.
  - cbn [totalFees currentPosition]. rewrite Z.sub_diag. reflexivity.
Qed.

(** The fees after the final close, from the position that it closes. *)
Lemma gs_final_close_fees_exact st last_tick :
  let p := currentPosition st in
  totalFees (final_close st last_tick)
  = if 0 <? p then charge (totalFees st) (Bid last_tick) p
    else if p <? 0 then charge (totalFees st) (Ask last_tick) (- p)
    else totalFees st.
Proof.
  cbv zeta. unfold final_close, charge.
  destruct (0 <? currentPosition st); [reflexivity|].
  destruct (currentPosition st <? 0); reflexivity.
Qed.

Lemma SFcompare_not_lt_refl (x : spec_float) :
  SFcompare x x <> Some Lt.
Proof.
  destruct x as [s| s | | s m e]; try (destruct s); cbn;
    try discriminate;
    rewrite Z.compare_refl;
    change (Pos.compare_cont Eq m m) with (Pos.compare m m);
    rewrite Pos.compare_refl; discriminate.
Qed.

Lemma float_ltb_irrefl (x : float) : PrimFloat.ltb x x = false.
Proof.
  rewrite FloatAxioms.ltb_spec. unfold SFltb.
  pose proof (SFcompare_not_lt_refl (Prim2SF x)) as H.
  destruct (SFcompare (Prim2SF x) (Prim2SF x)) as [[]|]; congruence.
Qed.

(** Below or equal is strictly below unless equal, on doubles. *)
Lemma float_leb_ltb_eqb (x y : float) :
  PrimFloat.leb x y = true ->
  PrimFloat.ltb x y = negb (PrimFloat.eqb x y).
Proof.
  rewrite FloatAxioms.leb_spec, FloatAxioms.ltb_spec, FloatAxioms.eqb_spec.
  unfold SFleb, SFltb, SFeqb.
  destruct (SFcompare (Prim2SF x) (Prim2SF y)) as [[]|];
    cbn; congruence.
Qed.

(** The fees rise strictly exactly when the position changed and the new
    total differs from the old one. *)
Lemma fees_strict_iff (f f' : double) (q : Z) :
  dle f f' = true -> (q = 0 -> f' = f) ->
  dlt f f' = true <-> (q <> 0 /\ PrimFloat.eqb f f' = false).
Proof.
  unfold dle, dlt. intros Hle Hq. rewrite (float_leb_ltb_eqb _ _ Hle).
  split.
  - intro H. split.
    + intro E. rewrite (Hq E) in Hle, H.
      rewrite <- (float_leb_ltb_eqb _ _ Hle), float_ltb_irrefl in H.
      discriminate.
    + destruct (PrimFloat.eqb f f'); [discriminate | reflexivity].
  - intros [_ ->]. reflexivity.
Qed.

End GridSearchFees.

(** * The claims *)

(** C1 (forced close on high spread).  On every tick on which the checks
    run, the forced close is decided last and wins: whenever the tick's
    spread is at least 1.3 and the position is non-zero, the order emitted is
    the negation of the position, it is filled in full, and the machine is
    [FLAT].  try2 runs the checks on every tick (its three-way
    [else if] chain reaches the close because the two branches before it
    require a tick that is not in high spread); the single-file grid search
    runs them on every tick that it does not leave through [continue] for a
    NaN rolling average. *)
Theorem C1_forced_close_last :
  forall p ticks bids asks params data k,
    let i := Z.of_nat k in
    (let st := Try2.run_ticks p ticks bids asks k in
     let b := at_ nan bids i in
     let a := at_ nan asks i in
     let w := Try2.decide p st b a (Try2.tick_s_avg p st) in
     dge (a - b) Try2.HIGH_SPREAD_THRESHOLD = true ->
     Try2.pos st <> 0 ->
     Try2.order_quantity w = - Try2.pos st
     /\ Try2Inv.machine_state (Try2.wstrat w) = FLAT
     /\ Try2.strat (Try2.tick p ticks bids asks st i) = Try2.wstrat w
     /\ Try2.pos (Try2.tick p ticks bids asks st i) = 0)
    /\
    (let st := GridSearch.run_ticks params data k in
     let d := at_ (GridSearch.mkPriceData nan nan) data i in
     forall w,
       GridSearch.tick_decision params data st i = Some w ->
       dge (GridSearch.Ask d - GridSearch.Bid d)
           GridSearch.HIGH_SPREAD_THRESHOLD = true ->
       GridSearch.currentPosition st <> 0 ->
       GridSearch.order_quantity w = - GridSearch.currentPosition st
       /\ GridSearchInv.machine_state (GridSearch.wstrat w) = FLAT
       /\ GridSearch.strat (GridSearch.tick params data st i)
          = GridSearch.wstrat w
       /\ GridSearch.currentPosition (GridSearch.tick params data st i) = 0).
Proof.
  intros p ticks bids asks params data k i. split.
  - intros st b a w Hhs Hp.
    destruct (Try2Facts.try2_forced_close_decides p st b a
                (Try2.tick_s_avg p st)
                (Try2Facts.try2_invariant_run p ticks bids asks k) Hhs Hp)
      as (Ho & Hm & Hz).
    split; [exact Ho|]. split; [exact Hm|]. split; [reflexivity|].
    rewrite Try2Facts.try2_pos_tick. exact Hz.
  - intros st d w Hw Hhs Hp.
    assert (Ew : w = GridSearch.decide params i st (GridSearch.Bid d)
                       (GridSearch.Ask d)
                       (GridSearch.tick_short_avg params data st i)).
    { unfold GridSearch.tick_decision in Hw. fold d in Hw.
      destruct (isnan _); [discriminate|]. now injection Hw as <-. }
    destruct (GridSearchFacts.gs_forced_close_decides params i st
                (GridSearch.Bid d) (GridSearch.Ask d)
                (GridSearch.tick_short_avg params data st i)
                (GridSearchFacts.gs_invariant_run params data k) Hhs Hp)
      as (Ho & Hm & Hz).
    rewrite <- Ew in Ho, Hm, Hz.
    assert (Et : GridSearch.tick params data st i
                 = GridSearch.process_order st (GridSearch.Bid d)
                     (GridSearch.Ask d) (GridSearch.order_quantity w)
                     (GridSearch.wstrat w)
                     (GridSearch.tick_mids data st i)).
    { unfold GridSearch.tick. rewrite Hw. reflexivity. }
    rewrite Et. split; [exact Ho|]. split; [exact Hm|]. split.
    + unfold GridSearch.process_order. ifcases; reflexivity.
    + rewrite GridSearchFacts.gs_process_order_position. exact Hz.
Qed.

(** C1 on the sample series: its last tick is in high spread with a long
    position of 100, and both programs close it. *)
Lemma C1_forced_close_last_witness :
  Try2.pos
    (Try2.tick Samples.try2_params (Samples.ticks_of Samples.series)
       (Samples.bids_of Samples.series) (Samples.asks_of Samples.series)
       (Try2.run_ticks Samples.try2_params (Samples.ticks_of Samples.series)
          (Samples.bids_of Samples.series) (Samples.asks_of Samples.series)
          5) 5) = 0
  /\ GridSearch.currentPosition
       (GridSearch.tick Samples.params Samples.series
          (GridSearch.run_ticks Samples.params Samples.series 5) 5) = 0.
Proof.
  pose proof (C1_forced_close_last Samples.try2_params
                (Samples.ticks_of Samples.series)
                (Samples.bids_of Samples.series)
                (Samples.asks_of Samples.series)
                Samples.params Samples.series 5) as [H2 H].
  split.
  - refine (proj2 (proj2 (proj2 (H2 _ _)))).
    + vm_compute. reflexivity.
    + vm_compute. discriminate.
  - cbv zeta in H.
    destruct (GridSearch.tick_decision Samples.params Samples.series
                (GridSearch.run_ticks Samples.params Samples.series 5) 5)
      as [w|] eqn:E.
    + refine (proj2 (proj2 (proj2 (H w E _ _)))).
      * vm_compute. reflexivity.
      * vm_compute. discriminate.
    + exfalso. vm_compute in E. discriminate E.
Defined.

(** C1 does not hold on every tick of the single-file grid search.  On the
    last tick of the overflow series the spread is at least 1.3 and the
    position is 100, yet the iteration is left before any check: no order is
    emitted, the position stays 100 and the machine stays in position. *)
Lemma C1_counterexample :
  let st := GridSearch.run_ticks Samples.params Samples.overflow_series 5 in
  let d := at_ (GridSearch.mkPriceData nan nan) Samples.overflow_series 5 in
  dge (GridSearch.Ask d - GridSearch.Bid d)
      GridSearch.HIGH_SPREAD_THRESHOLD = true
  /\ GridSearch.currentPosition st = 100
  /\ GridSearch.tick_decision Samples.params Samples.overflow_series st 5
     = None
  /\ GridSearch.currentPosition
       (GridSearch.tick Samples.params Samples.overflow_series st 5) = 100
  /\ GridSearchInv.machine_state
       (GridSearch.strat
          (GridSearch.tick Samples.params Samples.overflow_series st 5))
     = IN_POSITION true.
Proof.
  vm_compute. repeat split.
Qed.

(** C2 (terminal flatness).  For a non-empty series, when [runBacktest]
    returns the position is 0: whatever the strategy state, a residual long
    position is sold at the last tick's bid and a residual short position is
    bought back at the last tick's ask.  The single-file grid search sets
    its position to 0 in the close.  try2 keeps no position variable past
    the close: the cash it returns is the cash after an order of minus the
    whole residual position at the last tick's prices, an order that the
    limit check of a tick lets through whole and that leaves the position
    0. *)
Theorem C2_terminal_flatness :
  forall data params sw wp hsx mat ticks bids asks,
    (data <> [] ->
     let st := GridSearch.run_ticks params data (length data) in
     let fin := GridSearch.final_state data params in
     let last_tick := back (GridSearch.mkPriceData nan nan) data in
     GridSearch.currentPosition fin = 0
     /\ GridSearch.pnl (GridSearch.runBacktest data params)
        = GridSearch.cash fin
     /\ (0 < GridSearch.currentPosition st ->
         GridSearch.cash fin
         = (GridSearch.cash st
            + GridSearch.Bid last_tick * Z2d (GridSearch.currentPosition st)
              * (1.0 - GridSearch.fees_rate))%float)
     /\ (GridSearch.currentPosition st < 0 ->
         GridSearch.cash fin
         = (GridSearch.cash st
            - GridSearch.Ask last_tick
              * Z2d (- GridSearch.currentPosition st)
              * (1.0 + GridSearch.fees_rate))%float)
     /\ (GridSearch.currentPosition st = 0 -> fin = st))
    /\
    (ticks <> [] ->
     let st2 := Try2.run_ticks (Try2.mkParams sw wp hsx mat) ticks bids asks
                               (length ticks) in
     let r2 := Try2.runBacktest sw wp hsx mat ticks bids asks in
     let n := size ticks in
     let closing := Try2.actual_order (Try2.pos st2) (- Try2.pos st2) in
     (0 < Try2.pos st2 ->
      r2 = (Try2.cash st2
            + at_ nan bids (n - 1) * Z2d (Try2.pos st2)
              * (1.0 - Try2.FEES))%float)
     /\ (Try2.pos st2 < 0 ->
         r2 = (Try2.cash st2
               - at_ nan asks (n - 1) * Z2d (- Try2.pos st2)
                 * (1.0 + Try2.FEES))%float)
     /\ (Try2.pos st2 = 0 -> r2 = Try2.cash st2)
     /\ closing = - Try2.pos st2
     /\ Try2.pos st2 + closing = 0
     /\ r2 = Try2.settle (Try2.cash st2) (at_ nan bids (n - 1))
               (at_ nan asks (n - 1)) closing).
Proof.
  intros data params sw wp hsx mat ticks bids asks. split.
  - intros _ st fin last_tick.
    split; [apply GridSearchFacts.gs_final_close_flat|].
    split; [reflexivity|].
    unfold fin, GridSearch.final_state, GridSearch.final_close. fold st.
    fold last_tick.
    split; [|split]; intro Hp.
    + apply Z.ltb_lt in Hp. rewrite Hp. reflexivity.
    + destruct (Z.ltb_spec 0 (GridSearch.currentPosition st)); [lia|].
      apply Z.ltb_lt in Hp. rewrite Hp. reflexivity.
    + rewrite Hp. reflexivity.
  - intros Ht st2 r2 n closing.
    assert (Hn : (n =? 0) = false).
    { apply Z.eqb_neq. unfold n, size. destruct ticks; [congruence|].
      simpl length. lia. }
    assert (Hc : closing = - Try2.pos st2).
    { pose proof (Try2Facts.try2_position_bound
                    (Try2.mkParams sw wp hsx mat) ticks bids asks
                    (length ticks)) as Hb.
      fold st2 in Hb. unfold closing, Try2.actual_order.
      unfold Try2.POSITION_LIMIT in *. zcases; lia. }
    unfold r2, Try2.runBacktest. fold n. rewrite Hn. fold st2.
    rewrite Hc. unfold Try2.flatten, Try2.settle.
    split; [|split; [|split; [|split; [|split]]]].
    + intro Hp. destruct (Z.eqb_spec (Try2.pos st2) 0); [lia|]. cbn [negb].
      apply Z.ltb_lt in Hp. rewrite Hp. reflexivity.
    + intro Hp. destruct (Z.eqb_spec (Try2.pos st2) 0); [lia|]. cbn [negb].
      destruct (Z.ltb_spec 0 (Try2.pos st2)); [lia|]. reflexivity.
    + intro Hp. rewrite Hp. reflexivity.
    + reflexivity.
    + lia.
    + rewrite Z.opp_involutive.
      destruct (Z.eqb_spec (Try2.pos st2) 0) as [E|E]; cbn [negb].
      * rewrite E. reflexivity.
      * destruct (Z.ltb_spec 0 (Try2.pos st2)).
        -- destruct (Z.ltb_spec 0 (- Try2.pos st2)); [lia|].
           destruct (Z.ltb_spec (- Try2.pos st2) 0); [reflexivity | lia].
        -- destruct (Z.ltb_spec 0 (- Try2.pos st2)); [reflexivity | lia].
Qed.

(** C2 on four runs that end with an open position.  The single-file grid
    search ends the first four ticks of the sample series long 100 and the
    zero-bid series short 100; try2 ends the first five ticks of the sample
    series long 100 and the zero-bid series short 100.  In each the close
    leaves position 0, and the cash returned is the cash of the run plus the
    proceeds of selling at the last bid, or minus the cost of buying back at
    the last ask. *)
Lemma C2_terminal_flatness_witness :
  (let data := firstn 4 Samples.series in
   let st := GridSearch.run_ticks Samples.params data (length data) in
   let fin := GridSearch.final_state data Samples.params in
   GridSearch.currentPosition st = 100
   /\ GridSearch.currentPosition fin = 0
   /\ GridSearch.cash fin
      = (GridSearch.cash st
         + GridSearch.Bid (back (GridSearch.mkPriceData nan nan) data)
           * Z2d (GridSearch.currentPosition st)
           * (1.0 - GridSearch.fees_rate))%float
   /\ GridSearch.pnl (GridSearch.runBacktest data Samples.params)
      = (-4.8000000000001819)%float)
  /\ (let data := Samples.zero_bid_series in
      let st := GridSearch.run_ticks Samples.params data (length data) in
      let fin := GridSearch.final_state data Samples.params in
      GridSearch.currentPosition st = - 100
      /\ GridSearch.currentPosition fin = 0
      /\ GridSearch.cash fin
         = (GridSearch.cash st
            - GridSearch.Ask (back (GridSearch.mkPriceData nan nan) data)
              * Z2d (- GridSearch.currentPosition st)
              * (1.0 + GridSearch.fees_rate))%float
      /\ GridSearch.pnl (GridSearch.runBacktest data Samples.params)
         = (-100.2)%float)
  /\ (let data := firstn 5 Samples.series in
      let ticks := Samples.ticks_of data in
      let bids := Samples.bids_of data in
      let asks := Samples.asks_of data in
      let st2 := Try2.run_ticks (Try2.mkParams 2 1 0.1 1000)%float
                   ticks bids asks (length ticks) in
      let r2 := Try2.runBacktest 2 1 0.1%float 1000%float ticks bids asks in
      Try2.pos st2 = 100
      /\ Try2.pos st2 + Try2.actual_order (Try2.pos st2) (- Try2.pos st2) = 0
      /\ r2 = (Try2.cash st2
               + at_ nan bids (size ticks - 1) * Z2d (Try2.pos st2)
                 * (1.0 - Try2.FEES))%float
      /\ r2 = (-4.8000000000001819)%float)
  /\ (let data := Samples.zero_bid_series in
      let ticks := Samples.ticks_of data in
      let bids := Samples.bids_of data in
      let asks := Samples.asks_of data in
      let st2 := Try2.run_ticks (Try2.mkParams 2 1 0.1 1000)%float
                   ticks bids asks (length ticks) in
      let r2 := Try2.runBacktest 2 1 0.1%float 1000%float ticks bids asks in
      Try2.pos st2 = - 100
      /\ Try2.pos st2 + Try2.actual_order (Try2.pos st2) (- Try2.pos st2) = 0
      /\ r2 = (Try2.cash st2
               - at_ nan asks (size ticks - 1) * Z2d (- Try2.pos st2)
                 * (1.0 + Try2.FEES))%float
      /\ r2 = (-100.2)%float).
Proof.
  split; [|split; [|split]]; cbv zeta.
  - destruct (C2_terminal_flatness (firstn 4 Samples.series) Samples.params
                2 1 0.1%float 1000%float [] [] [])
      as [Hg _].
    destruct (Hg ltac:(discriminate)) as (H1 & H2 & H3 & _).
    assert (Hp : GridSearch.currentPosition
                   (GridSearch.run_ticks Samples.params
                      (firstn 4 Samples.series)
                      (length (firstn 4 Samples.series))) = 100)
      by (vm_compute; reflexivity).
    split; [exact Hp|]. split; [exact H1|].
    split; [apply H3; rewrite Hp; reflexivity|].
    vm_compute. reflexivity.
  - destruct (C2_terminal_flatness Samples.zero_bid_series Samples.params
                2 1 0.1%float 1000%float [] [] [])
      as [Hg _].
    destruct (Hg ltac:(discriminate)) as (H1 & H2 & _ & H4 & _).
    assert (Hp : GridSearch.currentPosition
                   (GridSearch.run_ticks Samples.params
                      Samples.zero_bid_series
                      (length Samples.zero_bid_series)) = - 100)
      by (vm_compute; reflexivity).
    split; [exact Hp|]. split; [exact H1|].
    split; [apply H4; rewrite Hp; reflexivity|].
    vm_compute. reflexivity.
  - destruct (C2_terminal_flatness [] Samples.params
                2 1 0.1%float 1000%float
                (Samples.ticks_of (firstn 5 Samples.series))
                (Samples.bids_of (firstn 5 Samples.series))
                (Samples.asks_of (firstn 5 Samples.series)))
      as [_ Ht].
    destruct (Ht ltac:(discriminate)) as (H1 & _ & _ & _ & H5 & _).
    assert (Hp : Try2.pos
                   (Try2.run_ticks (Try2.mkParams 2 1 0.1 1000)%float
                      (Samples.ticks_of (firstn 5 Samples.series))
                      (Samples.bids_of (firstn 5 Samples.series))
                      (Samples.asks_of (firstn 5 Samples.series))
                      (length (Samples.ticks_of (firstn 5 Samples.series))))
                 = 100)
      by (vm_compute; reflexivity).
    split; [exact Hp|]. split; [exact H5|].
    split; [apply H1; rewrite Hp; reflexivity|].
    vm_compute. reflexivity.
  - destruct (C2_terminal_flatness [] Samples.params
                2 1 0.1%float 1000%float
                (Samples.ticks_of Samples.zero_bid_series)
                (Samples.bids_of Samples.zero_bid_series)
                (Samples.asks_of Samples.zero_bid_series))
      as [_ Ht].
    destruct (Ht ltac:(discriminate)) as (_ & H2 & _ & _ & H5 & _).
    assert (Hp : Try2.pos
                   (Try2.run_ticks (Try2.mkParams 2 1 0.1 1000)%float
                      (Samples.ticks_of Samples.zero_bid_series)
                      (Samples.bids_of Samples.zero_bid_series)
                      (Samples.asks_of Samples.zero_bid_series)
                      (length (Samples.ticks_of Samples.zero_bid_series)))
                 = - 100)
      by (vm_compute; reflexivity).
    split; [exact Hp|]. split; [exact H5|].
    split; [apply H2; rewrite Hp; reflexivity|].
    vm_compute. reflexivity.
Defined.

(** C3 (position bound).  In every run, after every tick and after the
    final forced close, the position satisfies [|position| <= 100], the fixed
    position limit. *)
Theorem C3_position_bound :
  forall p ticks bids asks params data k,
    Z.abs (Try2.pos (Try2.run_ticks p ticks bids asks k)) <= 100
    /\ Z.abs (GridSearch.currentPosition (GridSearch.run_ticks params data k))
       <= 100
    /\ Z.abs (GridSearch.currentPosition (GridSearch.final_state data params))
       <= 100.
Proof.
  intros. split; [|split].
  - apply Try2Facts.try2_position_bound.
  - apply GridSearchFacts.gs_position_bound.
  - unfold GridSearch.final_state.
    rewrite GridSearchFacts.gs_final_close_flat. simpl. lia.
Qed.

(** C4 (order rejection is total).  On a tick of a run, an order that
    would push [|position + order|] beyond 100 is discarded whole, never
    filled in part: the filled quantity is 0, and cash, total fees and
    position are left as they were. *)
Theorem C4_order_rejection_total :
  forall p ticks bids asks params data k q b a s mids,
    (let st2 := Try2.run_ticks p ticks bids asks k in
     100 < Z.abs (Try2.pos st2 + q) ->
     Try2.actual_order (Try2.pos st2) q = 0
     /\ Try2.settle (Try2.cash st2) b a (Try2.actual_order (Try2.pos st2) q)
        = Try2.cash st2
     /\ Try2.pos st2 + Try2.actual_order (Try2.pos st2) q = Try2.pos st2)
    /\
    (let st := GridSearch.run_ticks params data k in
     let st' := GridSearch.process_order st b a q s mids in
     100 < Z.abs (GridSearch.currentPosition st + q) ->
     GridSearch.filled_quantity (GridSearch.currentPosition st) q = 0
     /\ GridSearch.cash st' = GridSearch.cash st
     /\ GridSearch.totalFees st' = GridSearch.totalFees st
     /\ GridSearch.currentPosition st' = GridSearch.currentPosition st).
Proof.
  intros p ticks bids asks params data k q b a s mids. split.
  - intros st2 H2.
    assert (E : Try2.actual_order (Try2.pos st2) q = 0).
    { apply Try2Facts.try2_actual_order_rejects; [|exact H2].
      apply Try2Facts.try2_position_bound. }
    rewrite E. split; [reflexivity|]. split; [reflexivity|]. lia.
  - intros st st' H.
    pose proof (GridSearchFacts.gs_position_bound params data k) as Hb.
    fold st in Hb. unfold GridSearch.position_limit in Hb.
    assert (E : GridSearch.filled_quantity (GridSearch.currentPosition st) q
                = 0).
    { apply GridSearchFacts.gs_filled_quantity_rejects; assumption. }
    split; [exact E|]. unfold st'.
    rewrite GridSearchFacts.gs_process_order_position, E.
    split; [|split; [|lia]].
    + unfold GridSearch.process_order, GridSearch.position_limit.
      zcases; cbn [GridSearch.cash]; first [reflexivity | lia].
    + unfold GridSearch.process_order, GridSearch.position_limit.
      zcases; cbn [GridSearch.totalFees]; first [reflexivity | lia].
Qed.

(** C4 at the start of a run: an order of 101 units is rejected by both
    programs. *)
Lemma C4_order_rejection_total_witness :
  Try2.actual_order 0 101 = 0
  /\ GridSearch.filled_quantity 0 101 = 0.
Proof.
  pose proof (C4_order_rejection_total Samples.try2_params [] [] []
                Samples.params [] 0 101 0%float 0%float
                GridSearch.init_strategy []) as [H2 H].
  cbv zeta in H2, H. split.
  - refine (proj1 (H2 _)). cbn. lia.
  - refine (proj1 (H _)). cbn. lia.
Defined.

(** C6 (rolling mean).  For every mid-price history and window [w > 0],
    the rolling mean is NaN when the history has fewer than [w] elements, and
    otherwise the sum of exactly the last [w] elements divided by [w].  In
    try2 the query is the guarded call of [mean_of_last_N]; in the
    single-file grid search it is [computeRollingAverage] at the last index
    of the history, whatever the rest of the preallocated vector holds. *)
Theorem C6_rolling_mean :
  forall (history rest : list double) (w : Z),
    0 < w ->
    (size history < w ->
     Try2.rolling history w = nan
     /\ GridSearch.computeRollingAverage (history ++ rest)
          (size history - 1) w = nan)
    /\ (w <= size history ->
        Try2.rolling history w
        = (fsum (lastn (Z.to_nat w) history) / Z2d w)%float
        /\ GridSearch.computeRollingAverage (history ++ rest)
             (size history - 1) w
           = (fsum (lastn (Z.to_nat w) history) / Z2d w)%float).
Proof.
  intros history rest w Hw.
  rewrite try2_rolling_spec, gs_rolling_spec by exact Hw.
  split; intro H.
  - destruct (Z.leb_spec w (size history)); [lia|].
    destruct (Z.ltb_spec (size history) w); [|lia]. split; reflexivity.
  - destruct (Z.leb_spec w (size history)); [|lia].
    destruct (Z.ltb_spec (size history) w); [lia|]. split; reflexivity.
Qed.

(** C6 on small histories: the mean of the last 2 of [1; 2; 4] is 3, and a
    window of 2 over [1] alone is undefined. *)
Lemma C6_rolling_mean_witness :
  Try2.rolling [1; 2; 4]%float 2 = 3%float
  /\ GridSearch.computeRollingAverage [1; 2; 4; 0; 0]%float 2 2 = 3%float
  /\ Try2.rolling [1]%float 2 = nan.
Proof.
  assert (H2 : 0 < 2) by lia.
  pose proof (C6_rolling_mean [1; 2; 4]%float [0; 0]%float 2 H2) as [_ H].
  pose proof (C6_rolling_mean [1]%float [] 2 H2) as [H' _].
  destruct H as [Ha Hb]; [cbn; lia|].
  destruct H' as [Hc _]; [cbn; lia|].
  split; [|split].
  - rewrite Ha. reflexivity.
  - change (GridSearch.computeRollingAverage ([1; 2; 4] ++ [0; 0])%float
              (size [1; 2; 4]%float - 1) 2 = 3%float).
    rewrite Hb. reflexivity.
  - exact Hc.
Defined.

(** C7 (fee monotonicity).  On a series whose bids and asks are all
    [>= 0], in every run of the single-file grid search [total_fees] starts
    at 0, is never negative and does not decrease from one tick to the next
    nor across the final forced close.  A tick that fills a buy of [q]
    units turns it into [total_fees + ask * q * 0.002], a tick that fills a
    sale of [q] units into [total_fees + bid * q * 0.002], both in binary64,
    a tick that fills nothing leaves it as it is; the final close does the
    same with the last bid for a long position and the last ask for a short
    one.  It rises strictly exactly on the ticks, and at the final close,
    where a non-zero order is filled and that sum is not equal to the
    total before. *)
Theorem C7_fee_monotonicity :
  forall params data,
    nonneg_prices data = true ->
    GridSearch.totalFees (GridSearch.run_ticks params data 0) = 0%float
    /\ (forall k : nat,
          (k < length data)%nat ->
          let st := GridSearch.run_ticks params data k in
          let st' := GridSearch.run_ticks params data (S k) in
          let d := at_ (GridSearch.mkPriceData nan nan) data (Z.of_nat k) in
          let q := GridSearch.currentPosition st'
                   - GridSearch.currentPosition st in
          dle 0 (GridSearch.totalFees st') = true
          /\ dle (GridSearch.totalFees st) (GridSearch.totalFees st') = true
          /\ (GridSearch.currentPosition st' = GridSearch.currentPosition st ->
              GridSearch.totalFees st' = GridSearch.totalFees st)
          /\ GridSearch.totalFees st'
             = (if 0 <? q
                then GridSearchInv.charge (GridSearch.totalFees st)
                                          (GridSearch.Ask d) q
                else if q <? 0
                then GridSearchInv.charge (GridSearch.totalFees st)
                                          (GridSearch.Bid d) (- q)
                else GridSearch.totalFees st)
          /\ (dlt (GridSearch.totalFees st) (GridSearch.totalFees st') = true
              <-> q <> 0
                  /\ PrimFloat.eqb (GridSearch.totalFees st)
                                   (GridSearch.totalFees st') = false))
    /\ (let st := GridSearch.run_ticks params data (length data) in
        let r := GridSearch.runBacktest data params in
        let d := back (GridSearch.mkPriceData nan nan) data in
        let p := GridSearch.currentPosition st in
        dle 0 (GridSearch.total_fees r) = true
        /\ dle (GridSearch.totalFees st) (GridSearch.total_fees r) = true
        /\ (p = 0 -> GridSearch.total_fees r = GridSearch.totalFees st)
        /\ GridSearch.total_fees r
           = (if 0 <? p
              then GridSearchInv.charge (GridSearch.totalFees st)
                                        (GridSearch.Bid d) p
              else if p <? 0
              then GridSearchInv.charge (GridSearch.totalFees st)
                                        (GridSearch.Ask d) (- p)
              else GridSearch.totalFees st)
        /\ (dlt (GridSearch.totalFees st) (GridSearch.total_fees r) = true
            <-> p <> 0
                /\ PrimFloat.eqb (GridSearch.totalFees st)
                                 (GridSearch.total_fees r) = false)).
Proof.
  intros params data Hd. split; [reflexivity|]. split.
  - intros k Hk st st' d q.
    assert (H : dle 0 (GridSearch.totalFees st') = true
                /\ dle (GridSearch.totalFees st) (GridSearch.totalFees st')
                   = true
                /\ (GridSearch.currentPosition st'
                    = GridSearch.currentPosition st ->
                    GridSearch.totalFees st' = GridSearch.totalFees st)).
    { unfold st'. rewrite GridSearchFacts.gs_run_ticks_S.
      apply GridSearchFees.gs_tick_fees.
      - apply GridSearchFacts.gs_invariant_run.
      - apply GridSearchFees.nonneg_prices_at; assumption.
      - apply GridSearchFees.gs_fees_nonneg_run; [assumption | lia]. }
    destruct H as (H1 & H2 & H3).
    split; [exact H1|]. split; [exact H2|]. split; [exact H3|]. split.
    + unfold q, st'. rewrite GridSearchFacts.gs_run_ticks_S.
      apply GridSearchFees.gs_tick_fees_exact.
      apply GridSearchFacts.gs_invariant_run.
    + apply GridSearchFees.fees_strict_iff; [exact H2|].
      intro E. apply H3. unfold q in E. lia.
  - intros st r d p.
    assert (H : dle 0 (GridSearch.total_fees r) = true
                /\ dle (GridSearch.totalFees st) (GridSearch.total_fees r)
                   = true
                /\ (p = 0 ->
                    GridSearch.total_fees r = GridSearch.totalFees st)).
    { unfold r, p, GridSearch.runBacktest, GridSearch.final_state.
      cbn [GridSearch.total_fees].
      apply GridSearchFees.gs_final_close_fees.
      - apply GridSearchFacts.gs_invariant_run.
      - intro Hp. apply GridSearchFees.nonneg_prices_back; [assumption|].
        intros ->. apply Hp. reflexivity.
      - apply GridSearchFees.gs_fees_nonneg_run; [assumption | lia]. }
    destruct H as (H1 & H2 & H3).
    split; [exact H1|]. split; [exact H2|]. split; [exact H3|]. split.
    + unfold r, p, GridSearch.runBacktest, GridSearch.final_state.
      cbn [GridSearch.total_fees].
      apply GridSearchFees.gs_final_close_fees_exact.
    + apply GridSearchFees.fees_strict_iff; [exact H2 | exact H3].
Qed.

(** C7 on the sample series: the fees are 0 before the entry of tick 3,
    which buys 100 at ask 12 and raises them strictly, to
    [0 + 12 * 100 * 0.002 = 2.4]; the run cut after that tick ends long,
    and its final close at bid 12 raises them strictly again, to 4.8. *)
Lemma C7_fee_monotonicity_witness :
  let st3 := GridSearch.run_ticks Samples.params Samples.series 3 in
  let st4 := GridSearch.run_ticks Samples.params Samples.series 4 in
  let data := firstn 4 Samples.series in
  let stn := GridSearch.run_ticks Samples.params data (length data) in
  let r := GridSearch.runBacktest data Samples.params in
  (GridSearch.totalFees st3 = 0%float
   /\ GridSearch.currentPosition st4 - GridSearch.currentPosition st3 = 100
   /\ GridSearch.totalFees st4
      = GridSearchInv.charge 0%float 12%float 100
   /\ GridSearch.totalFees st4 = 2.4%float
   /\ dlt (GridSearch.totalFees st3) (GridSearch.totalFees st4) = true)
  /\ (GridSearch.currentPosition stn = 100
      /\ GridSearch.totalFees stn = 2.4%float
      /\ GridSearch.total_fees r
         = GridSearchInv.charge 2.4%float 12%float 100
      /\ GridSearch.total_fees r = 4.8%float
      /\ dlt (GridSearch.totalFees stn) (GridSearch.total_fees r) = true).
Proof.
  cbv zeta. split.
  - assert (Hd : nonneg_prices Samples.series = true)
      by (vm_compute; reflexivity).
    destruct (C7_fee_monotonicity Samples.params Samples.series Hd)
      as (_ & Hk & _).
    assert (H3 : (3 < length Samples.series)%nat) by (cbn; lia).
    destruct (Hk 3%nat H3) as (_ & _ & _ & Hx & Hs).
    assert (Hq : GridSearch.currentPosition
                   (GridSearch.run_ticks Samples.params Samples.series 4)
                 - GridSearch.currentPosition
                     (GridSearch.run_ticks Samples.params Samples.series 3)
                 = 100)
      by (vm_compute; reflexivity).
    assert (Hf : GridSearch.totalFees
                   (GridSearch.run_ticks Samples.params Samples.series 3)
                 = 0%float)
      by (vm_compute; reflexivity).
    split; [exact Hf|]. split; [exact Hq|]. split; [|split].
    + rewrite Hx, Hq, Hf. reflexivity.
    + vm_compute. reflexivity.
    + apply (proj2 Hs). split; [rewrite Hq; discriminate|].
      vm_compute. reflexivity.
  - assert (Hd : nonneg_prices (firstn 4 Samples.series) = true)
      by (vm_compute; reflexivity).
    destruct (C7_fee_monotonicity Samples.params (firstn 4 Samples.series)
                Hd)
      as (_ & _ & Hr).
    destruct Hr as (_ & _ & _ & Hx & Hs).
    assert (Hp : GridSearch.currentPosition
                   (GridSearch.run_ticks Samples.params
                      (firstn 4 Samples.series)
                      (length (firstn 4 Samples.series))) = 100)
      by (vm_compute; reflexivity).
    assert (Hf : GridSearch.totalFees
                   (GridSearch.run_ticks Samples.params
                      (firstn 4 Samples.series)
                      (length (firstn 4 Samples.series))) = 2.4%float)
      by (vm_compute; reflexivity).
    split; [exact Hp|]. split; [exact Hf|]. split; [|split].
    + rewrite Hx, Hp, Hf. vm_compute. reflexivity.
    + vm_compute. reflexivity.
    + apply (proj2 Hs). split; [rewrite Hp; discriminate|].
      vm_compute. reflexivity.
Defined.

(** C7 fails without a condition on the prices, and a fill need not raise
    the fees.  On the series of negative prices the entry is a buy at ask
    -8: the fill lowers [total_fees] from 0 to a negative value, and the run
    returns negative total fees.  On the series with a zero bid the entry is
    a sell of 100 at bid 0: a non-zero order is filled and [total_fees]
    stays 0.  On the series with the absorbed fee all prices are positive:
    the forced sale of tick 4 fills 100 units at bid 1, its fee
    [1 * 100 * 0.002] is positive, and [total_fees], 2e299 since the
    entry, is the same double after it. *)
Lemma C7_counterexample :
  (GridSearch.currentPosition
     (GridSearch.run_ticks Samples.params Samples.negative_series 4) = 100
   /\ GridSearch.totalFees
        (GridSearch.run_ticks Samples.params Samples.negative_series 3)
      = 0%float
   /\ dlt (GridSearch.totalFees
             (GridSearch.run_ticks Samples.params Samples.negative_series 4))
          0 = true
   /\ dlt (GridSearch.total_fees
             (GridSearch.runBacktest Samples.negative_series Samples.params))
          0 = true)
  /\ (nonneg_prices Samples.zero_bid_series = true
      /\ GridSearch.currentPosition
           (GridSearch.run_ticks Samples.params Samples.zero_bid_series 3) = 0
      /\ GridSearch.currentPosition
           (GridSearch.run_ticks Samples.params Samples.zero_bid_series 4)
         = - 100
      /\ GridSearch.totalFees
           (GridSearch.run_ticks Samples.params Samples.zero_bid_series 3)
         = 0%float
      /\ GridSearch.totalFees
           (GridSearch.run_ticks Samples.params Samples.zero_bid_series 4)
         = 0%float)
  /\ (nonneg_prices Samples.absorbed_fee_series = true
      /\ GridSearch.currentPosition
           (GridSearch.run_ticks Samples.params Samples.absorbed_fee_series 4)
         = 100
      /\ GridSearch.currentPosition
           (GridSearch.run_ticks Samples.params Samples.absorbed_fee_series 5)
         = 0
      /\ dlt 0 (1 * Z2d 100 * GridSearch.fees_rate)%float = true
      /\ GridSearch.totalFees
           (GridSearch.run_ticks Samples.params Samples.absorbed_fee_series 5)
         = GridSearch.totalFees
             (GridSearch.run_ticks Samples.params
                Samples.absorbed_fee_series 4)
      /\ dlt (GridSearch.totalFees
                (GridSearch.run_ticks Samples.params
                   Samples.absorbed_fee_series 4))
             (GridSearch.totalFees
                (GridSearch.run_ticks Samples.params
                   Samples.absorbed_fee_series 5)) = false).
Proof.
  vm_compute. repeat split.
Qed.

(** C8 (grid cardinality).  Fuzzing with a range of 10 percent in steps of
    1 percent yields exactly [2*10/1 + 1 = 21] candidate values for each
    parameter, whatever the base value, and the grid holds one combination
    per element of the product of the four candidate lists: [21^4 = 194481]
    for the base values of [main]. *)
Theorem C8_grid_cardinality :
  forall (baseInt : Z) (baseDouble : double)
         (sw_vals wp_vals : list Z) (hsx_vals mat_vals : list double),
    size (Fuzzer.fuzzIntParam baseInt) = 2 * 10 / 1 + 1
    /\ size (Fuzzer.fuzzDoubleParam baseDouble) = 2 * 10 / 1 + 1
    /\ size (Fuzzer.build_combos sw_vals wp_vals hsx_vals mat_vals)
       = size sw_vals * size wp_vals * size hsx_vals * size mat_vals
    /\ size Fuzzer.g_combos = 21 ^ 4
    /\ size Fuzzer.g_combos = 194481.
Proof.
  intros.
  assert (Hi : forall b, length (Fuzzer.fuzzIntParam b) = 21%nat).
  { intro b. unfold Fuzzer.fuzzIntParam.
    rewrite std_sort_length, length_map. reflexivity. }
  assert (Hd : forall b, length (Fuzzer.fuzzDoubleParam b) = 21%nat).
  { intro b. unfold Fuzzer.fuzzDoubleParam.
    rewrite std_sort_length, length_map. reflexivity. }
  assert (Hg : size Fuzzer.g_combos = 194481).
  { unfold size, Fuzzer.g_combos.
    rewrite build_combos_length, !Hi, !Hd, !Nat2Z.inj_mul. reflexivity. }
  unfold size in *. rewrite Hi, Hd, build_combos_length, Hg.
  rewrite !Nat2Z.inj_mul. repeat split.
Qed.

(** C9 (empty series).  For the empty price series, [runBacktest] returns
    a zero-PnL result instead of failing: try2 returns [0.0] at once, and the
    single-file grid search returns PnL 0 and total fees 0 with no position
    ever opened. *)
Theorem C9_empty_series_zero_result :
  forall sw wp hsx mat bids asks params,
    Try2.runBacktest sw wp hsx mat [] bids asks = 0%float
    /\ GridSearch.runBacktest [] params
       = GridSearch.mkBacktestResult 0%float 0%float
    /\ GridSearch.currentPosition (GridSearch.final_state [] params) = 0.
Proof.
  intros. repeat split.
Qed.

(** C10 (the try2 average excludes the current tick).  In try2, the short
    rolling average that tick [i] decides with is NaN when [i < w], and
    otherwise the mean of the mid prices of ticks [i-w .. i-1]: it is
    computed from the mid prices recorded before tick [i], and tick [i]'s own
    mid price is pushed only at the end of its iteration. *)
Theorem C10_try2_average_excludes_current_tick :
  forall p ticks bids asks (i : nat),
    let w := Try2.short_window p in
    let st := Try2.run_ticks p ticks bids asks i in
    Try2.mid_price (Try2.hist st) = map (mid_at bids asks) (indices i)
    /\ Try2.tick_s_avg p st
       = (if Z.of_nat i <? w then nan
          else (fsum (map (mid_at bids asks)
                          (map Z.of_nat (seq (i - Z.to_nat w) (Z.to_nat w))))
                / Z2d w)%float)
    /\ Try2.mid_price
         (Try2.hist (Try2.tick p ticks bids asks st (Z.of_nat i)))
       = Try2.mid_price (Try2.hist st) ++ [mid_at bids asks (Z.of_nat i)].
Proof.
  intros p ticks bids asks i w st.
  split; [apply try2_mid_price_run|]. split.
  - unfold Try2.tick_s_avg. fold w. rewrite try2_rolling_spec.
    unfold st. rewrite try2_mid_price_run.
    unfold size. rewrite length_map, indices_length.
    destruct (Z.leb_spec w (Z.of_nat i)) as [H|H];
      destruct (Z.ltb_spec (Z.of_nat i) w) as [H'|H']; try lia;
      [|reflexivity].
    rewrite lastn_map, lastn_indices by lia. reflexivity.
  - reflexivity.
Qed.

(** * Further properties *)

(** Case analysis on the boolean variables of the goal. *)
Ltac varcases simp :=
  repeat (simp;
          first
            [ match goal with
              | |- context [if ?c then _ else _] => is_var c; destruct c
              end
            | match goal with
              | |- context [andb ?c _] => is_var c; destruct c
              | |- context [orb ?c _] => is_var c; destruct c
              | |- context [negb ?c] => is_var c; destruct c
              end ]).

Ltac try2_cbn :=
  cbn [Try2.hist Try2.strat Try2.pos Try2.cash Try2.wstrat Try2.in_position
       Try2.position_is_long Try2.order_quantity Try2.trade_p
       Try2.current_position_extreme Try2.waiting_for_signal
       Try2.high_spread_exit_index Try2.last_high_spread_exit_savg
       fst snd andb orb negb].

Ltac gs_cbn :=
  cbn [GridSearch.strat GridSearch.currentPosition GridSearch.cash
       GridSearch.totalFees GridSearch.midPrices GridSearch.wstrat
       GridSearch.in_position GridSearch.position_is_long
       GridSearch.order_quantity GridSearch.current_position_extreme
       GridSearch.waiting_for_signal GridSearch.high_spread_exit_index
       GridSearch.last_high_spread_exit_short_avg
       GridSearch.prev_in_high_spread fst snd andb orb negb].

(** ** Backtester.cpp: the decision of a tick *)

Module Try2Decision.
Import Try2 Try2Inv Try2Table Try2Facts.

Lemma try2_check_turn_eq p h m s_avg ps w :
  let w' := check_turn p h m s_avg ps w in
  let s := wstrat w in
  let turn := turn_fires p s s_avg in
  order_quantity w' = (if turn then - ps else order_quantity w)
  /\ wstrat w'
     = mkStrategy
         (if turn then false else in_position s)
         (if turn then false else position_is_long s)
         (if turn then 0%float
          else if extreme_moves s s_avg then s_avg
          else current_position_extreme s)
         (waiting_for_signal s) (high_spread_exit_index s)
         (last_high_spread_exit_savg s).
Proof.
  destruct w as [o tp [ip il ext wt ex last]].
  unfold check_turn, close_now, set_extreme, turn_fires, extreme_moves.
  cbv zeta. try2_cbn.
  destruct (isnan s_avg); try2_cbn; [split; reflexivity|].
  destruct ip; try2_cbn; [|split; reflexivity].
  destruct il; try2_cbn.
  - destruct (dgt s_avg ext); try2_cbn; [split; reflexivity|].
    destruct (dge _ _); split; reflexivity.
  - destruct (dlt s_avg ext); try2_cbn; [split; reflexivity|].
    destruct (dge _ _); split; reflexivity.
Qed.

Lemma try2_check_chain_eq p h m s_avg hs ps w :
  let w' := check_chain p h m s_avg hs ps w in
  let s := wstrat w in
  let forced := forced_close hs ps in
  let seen := hs_exit_seen h hs in
  let entry := entry_window p h s ps hs && entry_signal p s s_avg in
  let long := entry && dgt m s_avg in
  let short := entry && negb (dgt m s_avg) && dlt m s_avg in
  order_quantity w'
  = (if forced then - ps
     else if long then POSITION_SIZE
     else if short then - POSITION_SIZE else order_quantity w)
  /\ wstrat w'
     = mkStrategy
         (if forced then false else if long || short then true
          else in_position s)
         (if forced then false else if long then true
          else if short then false else position_is_long s)
         (if forced then 0%float else if long || short then s_avg
          else current_position_extreme s)
         (if seen then true else if entry then false
          else waiting_for_signal s)
         (if seen then size (timestamp h) - 1 else high_spread_exit_index s)
         (if seen then (if negb (isnan s_avg) then s_avg else m)
          else last_high_spread_exit_savg s).
Proof.
  destruct w as [o tp [ip il ext wt ex last]].
  unfold check_chain, just_exited_hs, try_entry, close_now, forced_close,
    hs_exit_seen, entry_window, entry_signal, hs_exit_seen.
  cbv zeta. try2_cbn.
  generalize (negb (empty (timestamp h)) && back false (in_high_spread h))
    as prev.
  generalize (waiting_period p <=? size (timestamp h) - ex) as waited.
  generalize (ps =? 0) as flat.
  generalize (dge (fabs (s_avg - last)) (hs_exit_change_threshold p)) as sig.
  generalize (dgt m s_avg) as up, (dlt m s_avg) as down.
  generalize (isnan s_avg) as nanavg.
  intros.
  destruct prev, hs, wt, waited, flat, nanavg; try2_cbn;
    try (split; reflexivity);
    destruct sig; try2_cbn; try (split; reflexivity);
    destruct up; try2_cbn; try (split; reflexivity);
    destruct down; split; reflexivity.
Qed.

(** The checks of a tick decide by priority: the close in high spread, then
    an entry, then the exit on a turn of the average. *)
Lemma try2_decision_table p st b a s_avg :
  let w := decide p st b a s_avg in
  (order_quantity w, wstrat w) = decision p st b a s_avg.
Proof.
  unfold decide. cbv zeta.
  set (m := (0.5 * (b + a))%float).
  set (hs := dge (a - b) HIGH_SPREAD_THRESHOLD).
  destruct (try2_check_turn_eq p (hist st) m s_avg (pos st)
              (mkWork 0 0%float (strat st))) as [To Ts].
  set (w1 := check_turn _ _ _ _ _ _) in *.
  destruct (try2_check_chain_eq p (hist st) m s_avg hs (pos st) w1)
    as [Co Cs].
  cbv zeta in To, Ts, Co, Cs. rewrite Co, Cs, To, Ts. clear.
  unfold decision. cbv zeta. fold m hs.
  unfold entry_window, entry_signal. try2_cbn.
  generalize (forced_close hs (pos st)) as forced.
  generalize (hs_exit_seen (hist st) hs) as seen.
  generalize (waiting_period p
              <=? size (timestamp (hist st))
                  - high_spread_exit_index (strat st)) as waited.
  generalize (pos st =? 0) as flat.
  generalize (negb (isnan s_avg)
              && dge (fabs (s_avg - last_high_spread_exit_savg (strat st)))
                     (hs_exit_change_threshold p)) as sig.
  generalize (dgt m s_avg) as up, (dlt m s_avg) as down.
  generalize (turn_fires p (strat st) s_avg) as turn.
  generalize (extreme_moves (strat st) s_avg) as moves.
  generalize (waiting_for_signal (strat st)) as wt.
  generalize hs as h.
  intros.
  f_equal; try (progress f_equal); varcases try2_cbn; try2_cbn; reflexivity.
Qed.

(** What a tick does to the strategy state and to the position. *)
Lemma try2_tick_decision p ticks bids asks st i :
  let d := decision p st (at_ nan bids i) (at_ nan asks i)
                    (tick_s_avg p st) in
  strat (tick p ticks bids asks st i) = snd d
  /\ pos (tick p ticks bids asks st i)
     = pos st + actual_order (pos st) (fst d)
  /\ cash (tick p ticks bids asks st i)
     = settle (cash st) (at_ nan bids i) (at_ nan asks i)
              (actual_order (pos st) (fst d)).
Proof.
  cbv zeta.
  rewrite <- (try2_decision_table p st (at_ nan bids i) (at_ nan asks i)
                (tick_s_avg p st)).
  repeat split.
Qed.

Lemma try2_entry_window_true p h s ps hs :
  entry_window p h s ps hs = true ->
  ps = 0 /\ hs = false /\ waiting_for_signal s = true
  /\ hs_exit_seen h hs = false
  /\ waiting_period p <= size (timestamp h) - high_spread_exit_index s.
Proof.
  unfold entry_window.
  rewrite !andb_true_iff, !negb_true_iff, Z.eqb_eq, Z.leb_le. tauto.
Qed.

Lemma try2_actual_order_full ps q :
  q = 0 \/ q = - ps \/ (ps = 0 /\ (q = 100 \/ q = - 100)) ->
  Z.abs ps <= 100 ->
  actual_order ps q = q.
Proof.
  intros Hq Hb. unfold actual_order, POSITION_LIMIT. zcases; lia.
Qed.

(** The order of a tick: nothing, the close of the whole position, or one
    unit from a flat position. *)
Lemma try2_decision_order p st b a s_avg :
  let q := fst (decision p st b a s_avg) in
  q = 0 \/ (q = - pos st /\ pos st <> 0)
  \/ (pos st = 0 /\ (q = 100 \/ q = - 100)).
Proof.
  unfold decision. cbv zeta. try2_cbn.
  set (hs := dge (a - b) HIGH_SPREAD_THRESHOLD).
  set (m := (0.5 * (b + a))%float).
  unfold forced_close.
  destruct (entry_window p (hist st) (strat st) (pos st) hs) eqn:Ew.
  - apply try2_entry_window_true in Ew. destruct Ew as (Hp & -> & _).
    rewrite Hp. cbn [andb negb Z.eqb]. unfold POSITION_SIZE.
    destruct (entry_signal _ _ _); try2_cbn.
    + destruct (dgt m s_avg); try2_cbn; [tauto|].
      destruct (dlt m s_avg); [tauto|].
      destruct (turn_fires _ _ _); cbn; tauto.
    + destruct (turn_fires _ _ _); cbn; tauto.
  - try2_cbn.
    destruct (Z.eqb_spec (pos st) 0) as [Hp|Hp].
    + rewrite andb_false_r. destruct (turn_fires _ _ _); lia.
    + destruct hs; try2_cbn; [tauto|].
      destruct (turn_fires _ _ _); tauto.
Qed.

End Try2Decision.

(** ** Backtester.cpp: the runs *)

Module Try2Runs.
Import Try2 Try2Inv Try2Table Try2Facts Try2Decision.

Lemma hs_at_before_start bids asks i : i < 0 -> hs_at bids asks i = false.
Proof.
  intro H. unfold hs_at, at_.
  destruct (Z.ltb_spec i 0); [reflexivity | lia].
Qed.

Lemma try2_hist_tick p ticks bids asks st i :
  let st' := tick p ticks bids asks st i in
  let b := at_ nan bids i in
  let a := at_ nan asks i in
  timestamp (hist st') = timestamp (hist st) ++ [at_ 0 ticks i]
  /\ bid_vec (hist st') = bid_vec (hist st) ++ [b]
  /\ ask_vec (hist st') = ask_vec (hist st) ++ [a]
  /\ spread (hist st') = spread (hist st) ++ [(a - b)%float]
  /\ in_high_spread (hist st')
     = in_high_spread (hist st) ++ [hs_at bids asks i]
  /\ position_log (hist st') = position_log (hist st) ++ [pos st'].
Proof. cbv zeta. repeat split. Qed.

Lemma try2_timestamp_run p ticks bids asks k :
  timestamp (hist (run_ticks p ticks bids asks k))
  = map (at_ 0 ticks) (indices k).
Proof.
  induction k as [|k IH]; [reflexivity|].
  rewrite try2_run_ticks_S, indices_S, map_app.
  destruct (try2_hist_tick p ticks bids asks
              (run_ticks p ticks bids asks k) (Z.of_nat k)) as (-> & _).
  now rewrite IH.
Qed.

Lemma try2_in_high_spread_run p ticks bids asks k :
  in_high_spread (hist (run_ticks p ticks bids asks k))
  = map (hs_at bids asks) (indices k).
Proof.
  induction k as [|k IH]; [reflexivity|].
  rewrite try2_run_ticks_S, indices_S, map_app.
  destruct (try2_hist_tick p ticks bids asks
              (run_ticks p ticks bids asks k) (Z.of_nat k))
    as (_ & _ & _ & _ & -> & _).
  now rewrite IH.
Qed.

Lemma try2_position_log_run p ticks bids asks k :
  position_log (hist (run_ticks p ticks bids asks k))
  = map (fun j => pos (run_ticks p ticks bids asks (S j))) (seq 0 k).
Proof.
  induction k as [|k IH]; [reflexivity|].
  rewrite seq_S, map_app. cbn [map Nat.add].
  rewrite <- IH. rewrite (try2_run_ticks_S p ticks bids asks k) at 1.
  destruct (try2_hist_tick p ticks bids asks
              (run_ticks p ticks bids asks k) (Z.of_nat k))
    as (_ & _ & _ & _ & _ & ->).
  rewrite <- try2_run_ticks_S. reflexivity.
Qed.

Lemma try2_size_timestamp_run p ticks bids asks k :
  size (timestamp (hist (run_ticks p ticks bids asks k))) = Z.of_nat k.
Proof.
  rewrite try2_timestamp_run. unfold size.
  now rewrite length_map, indices_length.
Qed.

(** Check 1) at tick [k] of a run: the tick before was in high spread and
    this one is not. *)
Lemma try2_hs_exit_seen_run p ticks bids asks k hs :
  hs_exit_seen (hist (run_ticks p ticks bids asks k)) hs
  = hs_at bids asks (Z.of_nat k - 1) && negb hs.
Proof.
  unfold hs_exit_seen.
  rewrite try2_timestamp_run, try2_in_high_spread_run.
  destruct k as [|k].
  - cbn [indices seq map empty negb andb].
    rewrite hs_at_before_start by lia. reflexivity.
  - rewrite !indices_S, !map_app. cbn [map].
    unfold back. rewrite last_last.
    replace (Z.of_nat (S k) - 1) with (Z.of_nat k) by lia.
    destruct (map (at_ 0 ticks) (indices k)); reflexivity.
Qed.

Lemma try2_coherent_bound st : coherent st -> Z.abs (pos st) <= 100.
Proof. unfold coherent, POSITION_SIZE. intuition lia. Qed.

(** The flags and the order of a tick, case by case. *)
Lemma try2_decision_cases p st b a s_avg :
  let s := strat st in
  let ps := pos st in
  let m := (0.5 * (b + a))%float in
  let hs := dge (a - b)%float HIGH_SPREAD_THRESHOLD in
  let entry := entry_window p (hist st) s ps hs && entry_signal p s s_avg in
  let long := entry && dgt m s_avg in
  let short := entry && negb (dgt m s_avg) && dlt m s_avg in
  let turn := turn_fires p s s_avg in
  let d := decision p st b a s_avg in
  (hs = true /\ ps <> 0 /\ long = false /\ short = false
   /\ fst d = - ps
   /\ in_position (snd d) = false /\ position_is_long (snd d) = false)
  \/ (long = true /\ short = false /\ ps = 0 /\ hs = false
      /\ fst d = 100
      /\ in_position (snd d) = true /\ position_is_long (snd d) = true
      /\ waiting_for_signal (snd d) = false)
  \/ (short = true /\ long = false /\ ps = 0 /\ hs = false
      /\ fst d = - 100
      /\ in_position (snd d) = true /\ position_is_long (snd d) = false
      /\ waiting_for_signal (snd d) = false)
  \/ ((hs = false \/ ps = 0) /\ long = false /\ short = false
      /\ turn = true /\ fst d = - ps
      /\ in_position (snd d) = false /\ position_is_long (snd d) = false)
  \/ ((hs = false \/ ps = 0) /\ long = false /\ short = false
      /\ turn = false /\ fst d = 0
      /\ in_position (snd d) = in_position s
      /\ position_is_long (snd d) = position_is_long s).
Proof.
  unfold decision. cbv zeta. try2_cbn.
  set (hs := dge (a - b) HIGH_SPREAD_THRESHOLD).
  set (m := (0.5 * (b + a))%float).
  unfold forced_close, POSITION_SIZE.
  destruct (entry_window p (hist st) (strat st) (pos st) hs) eqn:Ew.
  - apply try2_entry_window_true in Ew.
    destruct Ew as (Hp & Hh & _ & Hseen & _).
    rewrite Hseen, Hp, Hh. cbn [andb negb Z.eqb].
    destruct (entry_signal _ _ _); try2_cbn.
    + destruct (dgt m s_avg); try2_cbn; [tauto|].
      destruct (dlt m s_avg); try2_cbn; [tauto|].
      destruct (turn_fires _ _ _); cbn; tauto.
    + destruct (turn_fires _ _ _); cbn; tauto.
  - try2_cbn.
    destruct (Z.eqb_spec (pos st) 0) as [Hp|Hp].
    + rewrite andb_false_r. destruct (turn_fires _ _ _); intuition lia.
    + destruct hs; try2_cbn; [tauto|].
      destruct (turn_fires _ _ _); tauto.
Qed.

Lemma try2_decision_waiting p st b a s_avg :
  let hs := dge (a - b)%float HIGH_SPREAD_THRESHOLD in
  waiting_for_signal (snd (decision p st b a s_avg))
  = if hs_exit_seen (hist st) hs then true
    else if entry_window p (hist st) (strat st) (pos st) hs
            && entry_signal p (strat st) s_avg
         then false
         else waiting_for_signal (strat st).
Proof. reflexivity. Qed.

Lemma try2_long_flag_tick p ticks bids asks st i :
  coherent st -> long_flag st -> long_flag (tick p ticks bids asks st i).
Proof.
  intros Hco Hl. pose proof (try2_coherent_bound st Hco) as Hb.
  unfold long_flag in *.
  destruct (try2_tick_decision p ticks bids asks st i) as (-> & -> & _).
  destruct (try2_decision_cases p st (at_ nan bids i) (at_ nan asks i)
              (tick_s_avg p st))
    as [(_ & Hp & _ & _ & -> & _ & ->)
       | [(_ & _ & Hp & _ & -> & _ & -> & _)
         | [(_ & _ & Hp & _ & -> & _ & -> & _)
           | [(_ & _ & _ & _ & -> & _ & ->)
             | (_ & _ & _ & _ & -> & _ & ->)]]]].
  - rewrite try2_actual_order_full by lia.
    replace (pos st + - pos st) with 0 by lia. reflexivity.
  - rewrite try2_actual_order_full by lia. rewrite Hp. reflexivity.
  - rewrite try2_actual_order_full by lia. rewrite Hp. reflexivity.
  - rewrite try2_actual_order_full by lia.
    replace (pos st + - pos st) with 0 by lia. reflexivity.
  - rewrite try2_actual_order_full by lia. rewrite Z.add_0_r. exact Hl.
Qed.

Lemma try2_long_flag_run p ticks bids asks k :
  long_flag (run_ticks p ticks bids asks k).
Proof.
  induction k as [|k IH]; [reflexivity|].
  rewrite try2_run_ticks_S. apply try2_long_flag_tick; [|exact IH].
  apply try2_invariant_run.
Qed.

(** The position after tick [k] of a run is the position before it plus the
    order that the tick decides. *)
Lemma try2_pos_step p ticks bids asks k :
  let st := run_ticks p ticks bids asks k in
  let i := Z.of_nat k in
  let d := decision p st (at_ nan bids i) (at_ nan asks i)
                    (tick_s_avg p st) in
  pos (run_ticks p ticks bids asks (S k)) = pos st + fst d
  /\ strat (run_ticks p ticks bids asks (S k)) = snd d
  /\ cash (run_ticks p ticks bids asks (S k))
     = settle (cash st) (at_ nan bids i) (at_ nan asks i) (fst d).
Proof.
  cbv zeta. rewrite try2_run_ticks_S.
  set (st := run_ticks p ticks bids asks k).
  destruct (try2_tick_decision p ticks bids asks st (Z.of_nat k))
    as (-> & -> & ->).
  assert (Hb : Z.abs (pos st) <= 100)
    by (apply try2_coherent_bound, try2_invariant_run).
  assert (Hq := try2_decision_order p st (at_ nan bids (Z.of_nat k))
                  (at_ nan asks (Z.of_nat k)) (tick_s_avg p st)).
  cbv zeta in Hq.
  rewrite try2_actual_order_full by intuition lia.
  repeat split.
Qed.

(** A tick with no position, no pending signal and no exit from high
    spread decides nothing and leaves the strategy state alone. *)
Lemma try2_decision_quiet p st b a s_avg :
  in_position (strat st) = false ->
  waiting_for_signal (strat st) = false ->
  pos st = 0 ->
  hs_exit_seen (hist st) (dge (a - b)%float HIGH_SPREAD_THRESHOLD) = false ->
  decision p st b a s_avg = (0, strat st).
Proof.
  intros Hi Hw Hp Hs.
  unfold decision, entry_window, turn_fires, extreme_moves, forced_close.
  cbv zeta. rewrite Hs, Hi, Hw, Hp.
  repeat (cbn [andb negb orb Z.eqb]; rewrite ?andb_false_r).
  destruct (strat st); cbn in *; subst; reflexivity.
Qed.

(** A tick whose rolling average is undefined, taken with a flat position,
    orders nothing and opens nothing. *)
Lemma try2_decision_undefined p st b a s_avg :
  isnan s_avg = true ->
  pos st = 0 ->
  fst (decision p st b a s_avg) = 0
  /\ in_position (snd (decision p st b a s_avg)) = in_position (strat st).
Proof.
  intros Hn Hp.
  unfold decision, entry_signal, turn_fires, forced_close.
  cbv zeta. rewrite Hn, Hp.
  repeat (cbn [negb andb orb Z.eqb fst snd in_position];
          rewrite ?andb_false_r).
  split; reflexivity.
Qed.

Lemma settle_nothing c b a : settle c b a 0 = c.
Proof. reflexivity. Qed.

Lemma forallb_indices_S (f : Z -> bool) (k : nat) :
  forallb f (indices (S k)) = forallb f (indices k) && f (Z.of_nat k).
Proof.
  rewrite indices_S, forallb_app. cbn [forallb].
  now rewrite andb_true_r.
Qed.

Lemma forallb_indices_at (f : Z -> bool) (k j : nat) :
  forallb f (indices k) = true -> (j < k)%nat -> f (Z.of_nat j) = true.
Proof.
  intros H Hj. rewrite forallb_forall in H. apply H.
  unfold indices. apply in_map, in_seq. lia.
Qed.

Lemma try2_quiet_run p ticks bids asks k :
  forallb (fun i => negb (hs_at bids asks i)) (indices k) = true ->
  let st := run_ticks p ticks bids asks k in
  pos st = 0 /\ strat st = init_strategy /\ cash st = 0%float.
Proof.
  induction k as [|k IH]; intro H; [repeat split|].
  rewrite forallb_indices_S, andb_true_iff, negb_true_iff in H.
  destruct H as [Hk Hlast]. specialize (IH Hk). cbv zeta in *.
  destruct IH as (Hp & Hs & Hc).
  destruct (try2_pos_step p ticks bids asks k) as (-> & -> & ->).
  rewrite try2_decision_quiet.
  - cbn [fst snd]. rewrite settle_nothing. repeat split; auto. lia.
  - rewrite Hs. reflexivity.
  - rewrite Hs. reflexivity.
  - exact Hp.
  - rewrite try2_hs_exit_seen_run.
    destruct k as [|k].
    + rewrite hs_at_before_start by lia. reflexivity.
    + replace (Z.of_nat (S k) - 1) with (Z.of_nat k) by lia.
      pose proof (forallb_indices_at _ (S k) k Hk ltac:(lia)) as E.
      cbv beta in E. rewrite negb_true_iff in E. rewrite E. reflexivity.
Qed.

Lemma try2_size_mid_price_run p ticks bids asks k :
  size (mid_price (hist (run_ticks p ticks bids asks k))) = Z.of_nat k.
Proof.
  rewrite try2_mid_price_run. unfold size.
  now rewrite length_map, indices_length.
Qed.

Lemma try2_warm_up_run p ticks bids asks k :
  Z.of_nat k <= short_window p ->
  let st := run_ticks p ticks bids asks k in
  pos st = 0 /\ cash st = 0%float /\ in_position (strat st) = false.
Proof.
  induction k as [|k IH]; intro H; [repeat split|].
  assert (Hk : Z.of_nat k <= short_window p) by lia.
  specialize (IH Hk). cbv zeta in *. destruct IH as (Hp & Hc & Hi).
  destruct (try2_pos_step p ticks bids asks k) as (-> & -> & ->).
  set (st := run_ticks p ticks bids asks k) in *.
  assert (Hn : isnan (tick_s_avg p st) = true).
  { unfold tick_s_avg, rolling, st. rewrite try2_size_mid_price_run.
    destruct (Z.leb_spec (short_window p) (Z.of_nat k)); [lia|].
    reflexivity. }
  destruct (try2_decision_undefined p st (at_ nan bids (Z.of_nat k))
              (at_ nan asks (Z.of_nat k)) _ Hn Hp) as [-> ->].
  rewrite settle_nothing. repeat split; auto. lia.
Qed.

Lemma try2_runBacktest_flat sw wp hsx mat ticks bids asks :
  let st := run_ticks (mkParams sw wp hsx mat) ticks bids asks
                      (length ticks) in
  pos st = 0 -> cash st = 0%float ->
  runBacktest sw wp hsx mat ticks bids asks = 0%float.
Proof.
  intros st Hp Hc. unfold runBacktest. cbv zeta.
  destruct (size ticks =? 0); [reflexivity|].
  unfold flatten. fold st. rewrite Hp. exact Hc.
Qed.

(** After a tick in high spread the position is flat. *)
Lemma try2_prev_hs_flat p ticks bids asks k :
  hs_at bids asks (Z.of_nat k - 1) = true ->
  pos (run_ticks p ticks bids asks k) = 0.
Proof.
  intro H.
  destruct (try2_invariant_run p ticks bids asks k) as [_ Hhs].
  apply Hhs. rewrite try2_in_high_spread_run.
  destruct k as [|k].
  - rewrite hs_at_before_start in H by lia. discriminate.
  - rewrite indices_S, map_app. cbn [map]. unfold back.
    rewrite last_last. rewrite <- H. f_equal. lia.
Qed.

End Try2Runs.

(** ** Backtester.cpp: what a run of [runBacktest] guarantees *)

(** X1 (state coherence, try2).  After every tick of every run the
    position is 0, 100 or -100; [in_position] is set exactly when the
    position is not 0 and [position_is_long] exactly when it is positive; an
    open position never waits for a signal; and the tick after which the
    state is taken was not in high spread unless the position is 0. *)
Theorem X1_try2_state_coherence :
  forall p ticks bids asks k,
    let st := Try2.run_ticks p ticks bids asks k in
    (Try2.pos st = 0 \/ Try2.pos st = 100 \/ Try2.pos st = - 100)
    /\ Try2.in_position (Try2.strat st) = negb (Try2.pos st =? 0)
    /\ Try2.position_is_long (Try2.strat st) = (0 <? Try2.pos st)
    /\ (Try2.pos st <> 0 ->
        Try2.waiting_for_signal (Try2.strat st) = false)
    /\ (hs_at bids asks (Z.of_nat k - 1) = true -> Try2.pos st = 0).
Proof.
  intros p ticks bids asks k st.
  destruct (Try2Facts.try2_invariant_run p ticks bids asks k) as [Hco _].
  pose proof (Try2Runs.try2_long_flag_run p ticks bids asks k) as Hl.
  pose proof (Try2Runs.try2_prev_hs_flat p ticks bids asks k) as Hprev.
  fold st in Hco, Hl, Hprev.
  unfold Try2Inv.coherent, Try2Table.long_flag, Try2.POSITION_SIZE in *.
  repeat split.
  - intuition lia.
  - destruct Hco as [[-> ->] | ([-> | ->] & -> & _)]; reflexivity.
  - exact Hl.
  - intuition lia.
  - exact Hprev.
Qed.

(** X1 on the sample series: its last tick is in high spread, so the run
    of all six ticks ends flat. *)
Lemma X1_try2_state_coherence_witness :
  Try2.pos (Try2.run_ticks Samples.try2_params
              (Samples.ticks_of Samples.series)
              (Samples.bids_of Samples.series)
              (Samples.asks_of Samples.series) 6) = 0.
Proof.
  apply (X1_try2_state_coherence Samples.try2_params
           (Samples.ticks_of Samples.series)
           (Samples.bids_of Samples.series)
           (Samples.asks_of Samples.series) 6).
  vm_compute. reflexivity.
Defined.

(** X2 (the orders of a run are filled whole, try2).  The order that a
    tick of a run decides is nothing, the close of the whole open position,
    or one unit of 100 from a flat position; the limit check never rejects
    it, so the position moves by exactly the order: a position is never
    reversed within one tick. *)
Theorem X2_try2_orders_filled_whole :
  forall p ticks bids asks k,
    let st := Try2.run_ticks p ticks bids asks k in
    let i := Z.of_nat k in
    let q := Try2.order_quantity
               (Try2.decide p st (at_ nan bids i) (at_ nan asks i)
                  (Try2.tick_s_avg p st)) in
    Try2.actual_order (Try2.pos st) q = q
    /\ (q = 0 \/ (q = - Try2.pos st /\ Try2.pos st <> 0)
        \/ (Try2.pos st = 0 /\ (q = 100 \/ q = - 100)))
    /\ Try2.pos (Try2.run_ticks p ticks bids asks (S k)) = Try2.pos st + q.
Proof.
  intros p ticks bids asks k st i q.
  assert (Hq : q = fst (Try2Table.decision p st (at_ nan bids i)
                          (at_ nan asks i) (Try2.tick_s_avg p st))).
  { rewrite <- Try2Decision.try2_decision_table. reflexivity. }
  assert (Hb : Z.abs (Try2.pos st) <= 100)
    by (apply Try2Runs.try2_coherent_bound, Try2Facts.try2_invariant_run).
  pose proof (Try2Decision.try2_decision_order p st (at_ nan bids i)
                (at_ nan asks i) (Try2.tick_s_avg p st)) as Ho.
  cbv zeta in Ho. rewrite <- Hq in Ho.
  split; [|split].
  - apply Try2Decision.try2_actual_order_full; [intuition lia | exact Hb].
  - exact Ho.
  - rewrite Hq. apply Try2Runs.try2_pos_step.
Qed.

(** X3 (entries, try2).  Tick [i] of a run opens a long position exactly
    when: the tick is not in high spread and neither was the tick before it
    (on the first tick out of high spread only the exit is recorded), the
    machine waits for a signal, at least [waiting_period] ticks lie between
    the recorded exit index and [i], the position is flat, the rolling
    average is defined and differs from its value at the exit by at least
    [hs_exit_change_threshold], and the mid price is above the average.  It
    opens a short position under the same conditions with the mid price
    below the average. *)
Theorem X3_try2_entry_conditions :
  forall p ticks bids asks k,
    let st := Try2.run_ticks p ticks bids asks k in
    let st' := Try2.run_ticks p ticks bids asks (S k) in
    let i := Z.of_nat k in
    let m := mid_at bids asks i in
    let s_avg := Try2.tick_s_avg p st in
    let s := Try2.strat st in
    let entry :=
      negb (hs_at bids asks i) && negb (hs_at bids asks (i - 1))
      && Try2.waiting_for_signal s
      && (Try2.waiting_period p <=? i - Try2.high_spread_exit_index s)
      && (Try2.pos st =? 0)
      && negb (isnan s_avg)
      && dge (fabs (s_avg - Try2.last_high_spread_exit_savg s)%float)
             (Try2.hs_exit_change_threshold p) in
    ((Try2.pos st <> 100 /\ Try2.pos st' = 100)
     <-> entry && dgt m s_avg = true)
    /\ ((Try2.pos st <> - 100 /\ Try2.pos st' = - 100)
        <-> entry && negb (dgt m s_avg) && dlt m s_avg = true).
Proof.
  intros p ticks bids asks k st st' i m s_avg s entry. subst s.
  destruct (Try2Runs.try2_pos_step p ticks bids asks k) as (Hp & _).
  fold st st' i s_avg in Hp.
  pose proof (Try2Facts.try2_invariant_run p ticks bids asks k) as [Hco _].
  fold st in Hco. apply Try2Runs.try2_coherent_bound in Hco.
  pose proof (Try2Runs.try2_decision_cases p st (at_ nan bids i)
                (at_ nan asks i) s_avg) as Hc.
  cbv zeta in Hc.
  assert (He : Try2Table.entry_window p (Try2.hist st) (Try2.strat st)
                 (Try2.pos st) (hs_at bids asks i)
               && Try2Table.entry_signal p (Try2.strat st) s_avg = entry).
  { unfold Try2Table.entry_window, Try2Table.entry_signal, entry, st.
    rewrite Try2Runs.try2_hs_exit_seen_run, Try2Runs.try2_size_timestamp_run.
    fold i st.
    destruct (hs_at bids asks i), (hs_at bids asks (i - 1)),
      (Try2.waiting_for_signal (Try2.strat st)),
      (Try2.waiting_period p
       <=? i - Try2.high_spread_exit_index (Try2.strat st)),
      (Try2.pos st =? 0), (isnan s_avg); reflexivity. }
  fold (hs_at bids asks i) in Hc. fold (mid_at bids asks i) in Hc.
  fold m in Hc. rewrite He in Hc. rewrite Hp.
  destruct Hc as [(_ & Hn & -> & -> & -> & _)
                 | [(-> & -> & Hz & _ & -> & _)
                   | [(-> & -> & Hz & _ & -> & _)
                     | [(_ & -> & -> & _ & -> & _)
                       | (_ & -> & -> & _ & -> & _)]]]].
  all: split; split; try discriminate; try (intros [? ?]; lia);
    intros _; lia.
Qed.

(** X3 on the sample series: tick 4 opens the long position. *)
Lemma X3_try2_entry_conditions_witness :
  Try2.pos (Try2.run_ticks Samples.try2_params
              (Samples.ticks_of Samples.series)
              (Samples.bids_of Samples.series)
              (Samples.asks_of Samples.series) 4) <> 100
  /\ Try2.pos (Try2.run_ticks Samples.try2_params
                 (Samples.ticks_of Samples.series)
                 (Samples.bids_of Samples.series)
                 (Samples.asks_of Samples.series) 5) = 100.
Proof.
  apply (X3_try2_entry_conditions Samples.try2_params
           (Samples.ticks_of Samples.series)
           (Samples.bids_of Samples.series)
           (Samples.asks_of Samples.series) 4).
  vm_compute. reflexivity.
Defined.

(** X4 (exits, try2).  Tick [i] of a run closes an open position exactly
    when the tick is in high spread or the rolling average has turned from
    its extreme by at least [ma_turn_threshold]; the close always leaves the
    machine [FLAT], not waiting for a signal, and a tick that does not close
    leaves the position as it was. *)
Theorem X4_try2_exit_conditions :
  forall p ticks bids asks k,
    let st := Try2.run_ticks p ticks bids asks k in
    let st' := Try2.run_ticks p ticks bids asks (S k) in
    let i := Z.of_nat k in
    let s_avg := Try2.tick_s_avg p st in
    ((Try2.pos st <> 0 /\ Try2.pos st' = 0)
     <-> (Try2.pos st <> 0
          /\ (hs_at bids asks i = true
              \/ Try2Table.turn_fires p (Try2.strat st) s_avg = true)))
    /\ (Try2.pos st <> 0 -> Try2.pos st' = 0 ->
        Try2Inv.machine_state (Try2.strat st') = FLAT)
    /\ (Try2.pos st <> 0 -> Try2.pos st' <> 0 ->
        Try2.pos st' = Try2.pos st).
Proof.
  intros p ticks bids asks k st st' i s_avg.
  destruct (Try2Runs.try2_pos_step p ticks bids asks k) as (Hp & Hs & _).
  fold st st' i s_avg in Hp, Hs.
  destruct (Try2Facts.try2_invariant_run p ticks bids asks k) as [Hinv _].
  pose proof (Try2Runs.try2_prev_hs_flat p ticks bids asks k) as Hprev.
  fold st in Hinv, Hprev.
  assert (Hw : Try2.pos st <> 0 ->
               Try2.waiting_for_signal (Try2.strat st) = false)
    by (unfold Try2Inv.coherent in Hinv; intuition).
  clear Hinv.
  pose proof (Try2Runs.try2_decision_cases p st (at_ nan bids i)
                (at_ nan asks i) s_avg) as Hc.
  pose proof (Try2Runs.try2_decision_waiting p st (at_ nan bids i)
                (at_ nan asks i) s_avg) as Hwt.
  cbv zeta in Hc, Hwt. fold (hs_at bids asks i) in Hc, Hwt.
  unfold Try2Inv.machine_state, machine_state_of.
  pose proof (Try2Runs.try2_hs_exit_seen_run p ticks bids asks k
                (hs_at bids asks i)) as Hseen.
  fold st in Hseen. replace (Z.of_nat k - 1) with (i - 1) in * by reflexivity.
  rewrite Hp, Hs, Hwt, Hseen. clear Hwt Hseen.
  destruct Hc as [(Hh & Hn & _ & _ & -> & -> & _)
                 | [(_ & _ & Hz & _)
                   | [(_ & _ & Hz & _)
                     | [(Hh & _ & _ & Ht & -> & -> & _)
                       | (Hh & _ & _ & Ht & -> & _)]]]].
  - rewrite Hh. split; [|split].
    + split; intros; (split; [tauto | first [lia | tauto]]).
    + intros _ _.
      destruct (hs_at bids asks (i - 1)) eqn:E;
        [specialize (Hprev eq_refl); contradiction|].
      cbn [andb]. rewrite Hw by exact Hn.
      destruct (_ && _); reflexivity.
    + intros; lia.
  - repeat split; intros; try tauto; lia.
  - repeat split; intros; try tauto; lia.
  - rewrite Ht. split; [|split].
    + split; intros; (split; [tauto | first [lia | tauto]]).
    + intros Hn _.
      destruct (hs_at bids asks (i - 1)) eqn:E;
        [specialize (Hprev eq_refl); contradiction|].
      cbn [andb]. rewrite Hw by exact Hn.
      destruct (_ && _); reflexivity.
    + intros; lia.
  - rewrite Ht. split; [|split].
    + split.
      * intros [? ?]; lia.
      * intros [Hn [Hhs | Hf]]; [|discriminate].
        destruct Hh as [Hh | Hh]; [congruence | contradiction].
    + intros; lia.
    + intros; lia.
Qed.

(** X4 on the sample series: tick 5 is in high spread and closes the long
    position opened at tick 4. *)
Lemma X4_try2_exit_conditions_witness :
  Try2.pos (Try2.run_ticks Samples.try2_params
              (Samples.ticks_of Samples.series)
              (Samples.bids_of Samples.series)
              (Samples.asks_of Samples.series) 5) <> 0
  /\ Try2.pos (Try2.run_ticks Samples.try2_params
                 (Samples.ticks_of Samples.series)
                 (Samples.bids_of Samples.series)
                 (Samples.asks_of Samples.series) 6) = 0.
Proof.
  apply (X4_try2_exit_conditions Samples.try2_params
           (Samples.ticks_of Samples.series)
           (Samples.bids_of Samples.series)
           (Samples.asks_of Samples.series) 5).
  split; [vm_compute; discriminate | left; vm_compute; reflexivity].
Defined.

(** X5 (no high spread, no trade; try2).  If none of the first [k] ticks
    is in high spread, nothing has happened after them: the position is 0,
    the cash is 0 and the strategy state is the initial one.  A whole series
    without a high-spread tick has PnL 0. *)
Theorem X5_try2_no_high_spread_no_trade :
  forall sw wp hsx mat ticks bids asks k,
    forallb (fun i => negb (hs_at bids asks i)) (indices k) = true ->
    let st := Try2.run_ticks (Try2.mkParams sw wp hsx mat)
                ticks bids asks k in
    Try2.pos st = 0 /\ Try2.strat st = Try2.init_strategy
    /\ Try2.cash st = 0%float
    /\ (k = length ticks ->
        Try2.runBacktest sw wp hsx mat ticks bids asks = 0%float).
Proof.
  intros sw wp hsx mat ticks bids asks k H st.
  destruct (Try2Runs.try2_quiet_run (Try2.mkParams sw wp hsx mat)
              ticks bids asks k H) as (Hp & Hs & Hc).
  fold st in Hp, Hs, Hc. repeat split; auto.
  intros ->. now apply Try2Runs.try2_runBacktest_flat.
Qed.

(** X5 on three ticks whose spreads are 0, 1 and 0. *)
Lemma X5_try2_no_high_spread_no_trade_witness :
  Try2.runBacktest 2 1 0.1%float 1000%float [0; 1; 2]
    [10; 10; 10]%float [10; 11; 10]%float = 0%float.
Proof.
  refine (proj2 (proj2 (proj2
            (X5_try2_no_high_spread_no_trade 2 1 0.1%float 1000%float
               [0; 1; 2] [10; 10; 10]%float [10; 11; 10]%float 3 _)))
            eq_refl).
  vm_compute. reflexivity.
Defined.

(** X6 (warm-up, try2).  No position is opened and no cash moves during
    the first [short_window] ticks: the rolling average of tick [i] is
    undefined as long as [i < short_window].  A series of at most
    [short_window] ticks has PnL 0. *)
Theorem X6_try2_warm_up :
  forall sw wp hsx mat ticks bids asks k,
    Z.of_nat k <= sw ->
    let st := Try2.run_ticks (Try2.mkParams sw wp hsx mat)
                ticks bids asks k in
    Try2.pos st = 0 /\ Try2.cash st = 0%float
    /\ Try2.in_position (Try2.strat st) = false
    /\ (k = length ticks ->
        Try2.runBacktest sw wp hsx mat ticks bids asks = 0%float).
Proof.
  intros sw wp hsx mat ticks bids asks k H st.
  destruct (Try2Runs.try2_warm_up_run (Try2.mkParams sw wp hsx mat)
              ticks bids asks k H) as (Hp & Hc & Hi).
  fold st in Hp, Hc, Hi. repeat split; auto.
  intros ->. now apply Try2Runs.try2_runBacktest_flat.
Qed.

(** X6 on the first two ticks of the sample series, with window 2. *)
Lemma X6_try2_warm_up_witness :
  Try2.pos (Try2.run_ticks (Try2.mkParams 2 1 0.1%float 1000%float)
              (Samples.ticks_of Samples.series)
              (Samples.bids_of Samples.series)
              (Samples.asks_of Samples.series) 2) = 0.
Proof.
  refine (proj1 (X6_try2_warm_up 2 1 0.1%float 1000%float
                   (Samples.ticks_of Samples.series)
                   (Samples.bids_of Samples.series)
                   (Samples.asks_of Samples.series) 2 _)).
  simpl. lia.
Defined.

(** X7 (the history vectors, try2).  After [k] ticks every history vector
    holds exactly one entry per tick, in tick order: the timestamps, bids,
    asks, spreads and high-spread flags of ticks [0 .. k-1], and in
    [position_log] the position held after each tick. *)
Theorem X7_try2_history_log :
  forall p ticks bids asks k,
    let h := Try2.hist (Try2.run_ticks p ticks bids asks k) in
    Try2.timestamp h = map (at_ 0 ticks) (indices k)
    /\ Try2.bid_vec h = map (at_ nan bids) (indices k)
    /\ Try2.ask_vec h = map (at_ nan asks) (indices k)
    /\ Try2.spread h
       = map (fun i => (at_ nan asks i - at_ nan bids i)%float) (indices k)
    /\ Try2.in_high_spread h = map (hs_at bids asks) (indices k)
    /\ Try2.position_log h
       = map (fun j => Try2.pos (Try2.run_ticks p ticks bids asks (S j)))
             (seq 0 k)
    /\ length (Try2.short_avg h) = k
    /\ length (Try2.long_avg h) = k
    /\ length (Try2.trade_profit h) = k.
Proof.
  intros p ticks bids asks k. cbv zeta.
  split; [apply Try2Runs.try2_timestamp_run|].
  split; [|split; [|split; [|split; [apply Try2Runs.try2_in_high_spread_run|
            split; [apply Try2Runs.try2_position_log_run|]]]]].
  - induction k as [|k IH]; [reflexivity|].
    rewrite Try2Facts.try2_run_ticks_S, indices_S, map_app, <- IH.
    reflexivity.
  - induction k as [|k IH]; [reflexivity|].
    rewrite Try2Facts.try2_run_ticks_S, indices_S, map_app, <- IH.
    reflexivity.
  - induction k as [|k IH]; [reflexivity|].
    rewrite Try2Facts.try2_run_ticks_S, indices_S, map_app, <- IH.
    reflexivity.
  - induction k as [|k IH]; [repeat split|].
    rewrite Try2Facts.try2_run_ticks_S.
    unfold Try2.tick, Try2.update_history, push_back.
    cbn [Try2.hist Try2.short_avg Try2.long_avg Try2.trade_profit].
    rewrite !length_app. cbn [length]. intuition lia.
Qed.

(** X8 (the recorded exit index, try2).  [high_spread_exit_index] is -1
    until a high-spread episode has ended; from then on it is the index of
    the last tick of the latest episode that has ended: that tick is in high
    spread, the next one is not, and no later tick of the run leaves a high
    spread.  The machine only waits for a signal once such an index is
    recorded. *)
Theorem X8_try2_exit_index :
  forall p ticks bids asks k,
    let s := Try2.strat (Try2.run_ticks p ticks bids asks k) in
    let e := Try2.high_spread_exit_index s in
    (e = -1
     \/ (0 <= e /\ e + 1 < Z.of_nat k
         /\ hs_at bids asks e = true /\ hs_at bids asks (e + 1) = false))
    /\ (Try2.waiting_for_signal s = true -> e <> -1)
    /\ (forall j, e + 1 < j < Z.of_nat k ->
          hs_at bids asks (j - 1) = true -> hs_at bids asks j = true).
Proof.
  intros p ticks bids asks k. induction k as [|k IH].
  - cbn. split; [left; reflexivity|]. split; [discriminate|]. intros; lia.
  - cbv zeta in *.
    destruct (Try2Runs.try2_pos_step p ticks bids asks k) as (_ & -> & _).
    set (st := Try2.run_ticks p ticks bids asks k) in *.
    set (i := Z.of_nat k) in *.
    unfold Try2Table.decision. cbv zeta. try2_cbn.
    fold (hs_at bids asks i).
    pose proof (Try2Runs.try2_hs_exit_seen_run p ticks bids asks k
                  (hs_at bids asks i)) as Hseen.
    pose proof (Try2Runs.try2_size_timestamp_run p ticks bids asks k)
      as Hsize.
    fold st i in Hseen, Hsize. rewrite !Hseen, !Hsize. clear Hseen Hsize.
    replace (Z.of_nat (S k)) with (i + 1) by lia.
    destruct IH as (IH1 & IH2 & IH3).
    destruct (hs_at bids asks (i - 1)) eqn:Eprev;
      [destruct (hs_at bids asks i) eqn:Enow|]; cbn [andb negb].
    + split; [|split].
      * intuition lia.
      * destruct (_ && _); [discriminate | exact IH2].
      * intros j Hj. destruct (Z.eq_dec j i) as [->|Hne]; [auto|].
        apply IH3. lia.
    + assert (0 < i).
      { destruct (Z.ltb_spec (i - 1) 0) as [Hneg|]; [|lia].
        rewrite Try2Runs.hs_at_before_start in Eprev by lia.
        discriminate. }
      split; [|split].
      * right. replace (i - 1 + 1) with i by lia.
        repeat split; auto; lia.
      * intros _. lia.
      * intros j Hj. lia.
    + split; [|split].
      * intuition lia.
      * destruct (_ && _); [discriminate | exact IH2].
      * intros j Hj. destruct (Z.eq_dec j i) as [->|Hne].
        -- rewrite Eprev. discriminate.
        -- apply IH3. lia.
Qed.

(** X8 on the sample series: after three ticks the machine waits for a
    signal, so an exit index is recorded (it is 1, the tick in high
    spread). *)
Lemma X8_try2_exit_index_witness :
  let s := Try2.strat (Try2.run_ticks Samples.try2_params
                         (Samples.ticks_of Samples.series)
                         (Samples.bids_of Samples.series)
                         (Samples.asks_of Samples.series) 3) in
  Try2.waiting_for_signal s = true
  /\ Try2.high_spread_exit_index s <> -1.
Proof.
  split; [vm_compute; reflexivity|].
  apply (X8_try2_exit_index Samples.try2_params
           (Samples.ticks_of Samples.series)
           (Samples.bids_of Samples.series)
           (Samples.asks_of Samples.series) 3).
  vm_compute. reflexivity.
Defined.

(** ** The single-file grid search: the decision of a tick *)

Module GridSearchDecision.
Import GridSearch GridSearchInv GridSearchTable GridSearchFacts.

Lemma gs_check_turn_eq params short_avg ps w :
  check_turn params short_avg ps w
  = let s := wstrat w in
    let turn := turn_fires params s short_avg in
    mkWork (if turn then - ps else order_quantity w)
      (mkStrategy
         (if turn then false else in_position s)
         (if turn then false else position_is_long s)
         (waiting_for_signal s) (high_spread_exit_index s)
         (last_high_spread_exit_short_avg s)
         (if turn then 0%float
          else if extreme_moves s short_avg then short_avg
          else current_position_extreme s)
         (prev_in_high_spread s)).
Proof.
  destruct w as [o [ip il wt ex last ext prev]].
  unfold check_turn, close_now, set_extreme, turn_fires, extreme_moves.
  cbv zeta. gs_cbn.
  destruct ip; [|reflexivity].
  destruct il; gs_cbn.
  - destruct (dgt short_avg ext); gs_cbn; [reflexivity|].
    destruct (dge _ _); reflexivity.
  - destruct (dlt short_avg ext); gs_cbn; [reflexivity|].
    destruct (dge _ _); reflexivity.
Qed.

Lemma gs_check_hs_exit_eq i mid_price short_avg hs w :
  check_hs_exit i mid_price short_avg hs w
  = let s := wstrat w in
    mkWork (order_quantity w)
      (mkStrategy (in_position s) (position_is_long s)
         (hs_exit_seen s hs || waiting_for_signal s)
         (exit_index_now s i hs)
         (baseline_now s mid_price short_avg hs)
         (current_position_extreme s) hs).
Proof.
  destruct w as [o [ip il wt ex last ext prev]].
  unfold check_hs_exit, hs_exit_seen, exit_index_now, baseline_now,
    hs_exit_seen. cbv zeta. gs_cbn.
  destruct (prev && negb hs); reflexivity.
Qed.

Lemma gs_check_entry_eq params i mid_price short_avg hs ps w :
  check_entry params i mid_price short_avg hs ps w
  = let s := wstrat w in
    let entry :=
      waiting_for_signal s
      && (waiting_period params <=? i - high_spread_exit_index s)
      && (ps =? 0) && negb hs
      && (negb (isnan short_avg)
          && negb (isnan (last_high_spread_exit_short_avg s))
          && dge (fabs (short_avg - last_high_spread_exit_short_avg s)%float)
                 (hs_exit_change_threshold params)) in
    let long := entry && dgt mid_price short_avg in
    let short := entry && negb (dgt mid_price short_avg)
                 && dlt mid_price short_avg in
    mkWork (if long then POSITION_SIZE
            else if short then - POSITION_SIZE else order_quantity w)
      (mkStrategy
         (if long || short then true else in_position s)
         (if long then true else if short then false else position_is_long s)
         (if entry then false else waiting_for_signal s)
         (high_spread_exit_index s) (last_high_spread_exit_short_avg s)
         (if long || short then short_avg else current_position_extreme s)
         (prev_in_high_spread s)).
Proof.
  destruct w as [o [ip il wt ex last ext prev]].
  unfold check_entry. cbv zeta. gs_cbn.
  destruct wt; gs_cbn; [|reflexivity].
  destruct ((waiting_period params <=? i - ex) && (ps =? 0) && negb hs);
    gs_cbn; [|reflexivity].
  destruct (negb (isnan short_avg) && negb (isnan last)); gs_cbn;
    [|reflexivity].
  destruct (dge _ _); gs_cbn; [|reflexivity].
  destruct (dgt mid_price short_avg); gs_cbn; [reflexivity|].
  destruct (dlt mid_price short_avg); reflexivity.
Qed.

Lemma gs_check_forced_close_eq hs ps w :
  check_forced_close hs ps w
  = let s := wstrat w in
    let forced := forced_close hs ps in
    mkWork (if forced then - ps else order_quantity w)
      (mkStrategy
         (if forced then false else in_position s)
         (if forced then false else position_is_long s)
         (waiting_for_signal s) (high_spread_exit_index s)
         (last_high_spread_exit_short_avg s)
         (if forced then 0%float else current_position_extreme s)
         (prev_in_high_spread s)).
Proof.
  destruct w as [o [ip il wt ex last ext prev]].
  unfold check_forced_close, close_now, forced_close. cbv zeta. gs_cbn.
  destruct (hs && negb (ps =? 0)); reflexivity.
Qed.

(** The checks of a tick decide by priority: the close in high spread, then
    an entry, then the exit on a turn of the average. *)
Lemma gs_decision_table params i st bid ask short_avg :
  let w := decide params i st bid ask short_avg in
  (order_quantity w, wstrat w) = decision params i st bid ask short_avg.
Proof.
  unfold decide. cbv zeta.
  rewrite gs_check_forced_close_eq, gs_check_entry_eq, gs_check_hs_exit_eq,
    gs_check_turn_eq.
  unfold decision. cbv zeta. gs_cbn.
  set (s := strat st). set (ps := currentPosition st).
  set (hs := dge (ask - bid) HIGH_SPREAD_THRESHOLD).
  set (mid := (0.5 * (bid + ask))%float).
  unfold entry_window, entry_signal, forced_close, hs_exit_seen,
    exit_index_now, baseline_now, hs_exit_seen.
  gs_cbn.
  generalize (turn_fires params s short_avg) as turn.
  generalize (extreme_moves s short_avg) as moves.
  generalize (dgt mid short_avg) as up, (dlt mid short_avg) as down.
  generalize (ps =? 0) as flat.
  generalize (prev_in_high_spread s) as prev, hs as h.
  intros prev h.
  destruct prev, h; gs_cbn.
  all: generalize (waiting_for_signal s) as wt.
  all: try generalize (waiting_period params <=? i - i) as waited0.
  all: try generalize
         (waiting_period params <=? i - high_spread_exit_index s) as waited.
  all: try generalize (isnan short_avg) as nanavg.
  all: intros.
  all: try (destruct nanavg; gs_cbn).
  all: repeat match goal with
       | |- context [dge ?a ?b] => generalize (dge a b); intro
       | |- context [isnan ?a] => generalize (isnan a); intro
       end.
  all: f_equal; try (progress f_equal); varcases gs_cbn; gs_cbn; reflexivity.
Qed.

Lemma gs_entry_window_true params i s ps hs :
  entry_window params i s ps hs = true ->
  ps = 0 /\ hs = false
  /\ (hs_exit_seen s hs || waiting_for_signal s = true)
  /\ waiting_period params <= i - exit_index_now s i hs.
Proof.
  unfold entry_window.
  rewrite !andb_true_iff, !negb_true_iff, Z.eqb_eq, Z.leb_le. tauto.
Qed.

(** The flags and the order of a tick, case by case. *)
Lemma gs_decision_cases params i st bid ask short_avg :
  let s := strat st in
  let ps := currentPosition st in
  let mid_price := (0.5 * (bid + ask))%float in
  let hs := dge (ask - bid)%float HIGH_SPREAD_THRESHOLD in
  let entry := entry_window params i s ps hs
               && entry_signal params s mid_price short_avg hs in
  let long := entry && dgt mid_price short_avg in
  let short := entry && negb (dgt mid_price short_avg)
               && dlt mid_price short_avg in
  let turn := turn_fires params s short_avg in
  let d := decision params i st bid ask short_avg in
  (hs = true /\ ps <> 0 /\ long = false /\ short = false
   /\ fst d = - ps
   /\ in_position (snd d) = false /\ position_is_long (snd d) = false)
  \/ (long = true /\ short = false /\ ps = 0 /\ hs = false
      /\ fst d = 100
      /\ in_position (snd d) = true /\ position_is_long (snd d) = true
      /\ waiting_for_signal (snd d) = false)
  \/ (short = true /\ long = false /\ ps = 0 /\ hs = false
      /\ fst d = - 100
      /\ in_position (snd d) = true /\ position_is_long (snd d) = false
      /\ waiting_for_signal (snd d) = false)
  \/ ((hs = false \/ ps = 0) /\ long = false /\ short = false
      /\ turn = true /\ fst d = - ps
      /\ in_position (snd d) = false /\ position_is_long (snd d) = false)
  \/ ((hs = false \/ ps = 0) /\ long = false /\ short = false
      /\ turn = false /\ fst d = 0
      /\ in_position (snd d) = in_position s
      /\ position_is_long (snd d) = position_is_long s).
Proof.
  unfold decision. cbv zeta. gs_cbn.
  set (hs := dge (ask - bid) HIGH_SPREAD_THRESHOLD).
  set (m := (0.5 * (bid + ask))%float).
  unfold forced_close, POSITION_SIZE.
  destruct (entry_window params i (strat st) (currentPosition st) hs) eqn:Ew.
  - apply gs_entry_window_true in Ew.
    destruct Ew as (Hp & Hh & _).
    rewrite Hp. generalize (entry_signal params (strat st) m short_avg hs).
    rewrite Hh. cbn [andb negb Z.eqb]. intros sig.
    destruct sig; gs_cbn.
    + destruct (dgt m short_avg); gs_cbn; [tauto|].
      destruct (dlt m short_avg); gs_cbn; [tauto|].
      destruct (turn_fires _ _ _); cbn; tauto.
    + destruct (turn_fires _ _ _); cbn; tauto.
  - gs_cbn.
    destruct (Z.eqb_spec (currentPosition st) 0) as [Hp|Hp].
    + rewrite andb_false_r. destruct (turn_fires _ _ _); intuition lia.
    + destruct hs; gs_cbn; [tauto|].
      destruct (turn_fires _ _ _); tauto.
Qed.

Lemma gs_decision_order params i st bid ask short_avg :
  let q := fst (decision params i st bid ask short_avg) in
  q = 0 \/ (q = - currentPosition st /\ currentPosition st <> 0)
  \/ (currentPosition st = 0 /\ (q = 100 \/ q = - 100)).
Proof.
  cbv zeta.
  destruct (gs_decision_cases params i st bid ask short_avg)
    as [(_ & Hp & _ & _ & -> & _)
       | [(_ & _ & Hp & _ & -> & _)
         | [(_ & _ & Hp & _ & -> & _)
           | [(_ & _ & _ & _ & -> & _)
             | (_ & _ & _ & _ & -> & _)]]]]; try tauto.
  destruct (Z.eq_dec (currentPosition st) 0) as [E|E]; [|tauto].
  left. lia.
Qed.

Lemma gs_coherent_bound st : coherent st -> Z.abs (currentPosition st) <= 100.
Proof. unfold coherent, POSITION_SIZE. intuition lia. Qed.

(** A fill of [q] units: all of [process_order] in one place. *)
Lemma gs_process_order_filled st bid ask q s mids :
  filled_quantity (currentPosition st) q = q ->
  strat (process_order st bid ask q s mids) = s
  /\ currentPosition (process_order st bid ask q s mids)
     = currentPosition st + q
  /\ midPrices (process_order st bid ask q s mids) = mids
  /\ (q = 0 ->
      cash (process_order st bid ask q s mids) = cash st
      /\ totalFees (process_order st bid ask q s mids) = totalFees st).
Proof.
  intro Hf.
  split; [unfold process_order; ifcases; reflexivity|].
  split; [rewrite gs_process_order_position, Hf; reflexivity|].
  split; [unfold process_order; ifcases; reflexivity|].
  intros ->. split; reflexivity.
Qed.

(** What a tick does to the strategy state and to the position: nothing
    when the rolling average is undefined, the decision otherwise. *)
Lemma gs_tick_decision params priceData st i :
  coherent st ->
  let d := at_ (mkPriceData nan nan) priceData i in
  let short_avg := tick_short_avg params priceData st i in
  let dec := decision params i st (Bid d) (Ask d) short_avg in
  let st' := tick params priceData st i in
  midPrices st' = tick_mids priceData st i
  /\ if isnan short_avg
     then strat st' = strat st /\ currentPosition st' = currentPosition st
          /\ cash st' = cash st /\ totalFees st' = totalFees st
     else strat st' = snd dec
          /\ currentPosition st' = currentPosition st + fst dec
          /\ (fst dec = 0 ->
              cash st' = cash st /\ totalFees st' = totalFees st).
Proof.
  intros Hco. cbv zeta. unfold tick, tick_decision.
  destruct (isnan (tick_short_avg params priceData st i));
    [repeat split|].
  set (d := at_ (mkPriceData nan nan) priceData i).
  set (avg := tick_short_avg params priceData st i).
  pose proof (gs_decision_table params i st (Bid d) (Ask d) avg) as Ht.
  cbv zeta in Ht.
  set (w := decide params i st (Bid d) (Ask d) avg) in *.
  rewrite <- Ht. cbn [fst snd].
  assert (Hq := gs_decision_order params i st (Bid d) (Ask d) avg).
  cbv zeta in Hq. rewrite <- Ht in Hq. cbn [fst] in Hq.
  apply gs_coherent_bound in Hco.
  destruct (gs_process_order_filled st (Bid d) (Ask d) (order_quantity w)
              (wstrat w) (tick_mids priceData st i))
    as (H1 & H2 & H3 & H4).
  { apply gs_filled_quantity_full; [intuition lia | exact Hco]. }
  auto.
Qed.

Lemma gs_long_flag_tick params priceData st i :
  coherent st -> long_flag st -> long_flag (tick params priceData st i).
Proof.
  intros Hco Hl. unfold long_flag in *.
  destruct (gs_tick_decision params priceData st i Hco) as (_ & Ht).
  cbv zeta in Ht.
  destruct (isnan _).
  { destruct Ht as (-> & -> & _). exact Hl. }
  destruct Ht as (-> & -> & _).
  destruct (gs_decision_cases params i st
              (Bid (at_ (mkPriceData nan nan) priceData i))
              (Ask (at_ (mkPriceData nan nan) priceData i))
              (tick_short_avg params priceData st i))
    as [(_ & Hp & _ & _ & -> & _ & ->)
       | [(_ & _ & Hp & _ & -> & _ & -> & _)
         | [(_ & _ & Hp & _ & -> & _ & -> & _)
           | [(_ & _ & _ & _ & -> & _ & ->)
             | (_ & _ & _ & _ & -> & _ & ->)]]]].
  - replace (currentPosition st + - currentPosition st) with 0 by lia.
    reflexivity.
  - rewrite Hp. reflexivity.
  - rewrite Hp. reflexivity.
  - replace (currentPosition st + - currentPosition st) with 0 by lia.
    reflexivity.
  - rewrite Z.add_0_r. exact Hl.
Qed.

Lemma gs_long_flag_run params priceData k :
  long_flag (run_ticks params priceData k).
Proof.
  induction k as [|k IH]; [reflexivity|].
  rewrite gs_run_ticks_S. apply gs_long_flag_tick; [|exact IH].
  apply gs_invariant_run.
Qed.

(** The step from [k] to [k + 1] ticks of a run. *)
Lemma gs_run_step params priceData k :
  let st := run_ticks params priceData k in
  let st' := run_ticks params priceData (S k) in
  let i := Z.of_nat k in
  let d := at_ (mkPriceData nan nan) priceData i in
  let short_avg := tick_short_avg params priceData st i in
  let dec := decision params i st (Bid d) (Ask d) short_avg in
  midPrices st' = tick_mids priceData st i
  /\ if isnan short_avg
     then strat st' = strat st /\ currentPosition st' = currentPosition st
          /\ cash st' = cash st /\ totalFees st' = totalFees st
     else strat st' = snd dec
          /\ currentPosition st' = currentPosition st + fst dec
          /\ (fst dec = 0 ->
              cash st' = cash st /\ totalFees st' = totalFees st).
Proof.
  cbv zeta. rewrite gs_run_ticks_S.
  apply gs_tick_decision, gs_invariant_run.
Qed.

End GridSearchDecision.

(** ** The single-file grid search: the runs *)

Lemma set_nth_middle {A} (l1 l2 : list A) (x y : A) (n : nat) :
  n = length l1 -> set_nth (l1 ++ x :: l2) n y = l1 ++ y :: l2.
Proof.
  intros ->. induction l1 as [|a l1 IH]; [reflexivity|].
  cbn [app length set_nth]. now rewrite IH.
Qed.

Lemma firstn_snoc_nth {A} (d : A) (l : list A) (k : nat) :
  (k < length l)%nat -> firstn (S k) l = firstn k l ++ [nth k l d].
Proof.
  revert k. induction l as [|a l IH]; intros k Hk.
  - simpl in Hk. lia.
  - destruct k as [|k]; [reflexivity|].
    simpl in Hk. cbn [firstn nth app]. rewrite <- IH by lia. reflexivity.
Qed.

Lemma at_of_nat {A} (d : A) (l : list A) (k : nat) :
  at_ d l (Z.of_nat k) = nth k l d.
Proof.
  unfold at_. destruct (Z.ltb_spec (Z.of_nat k) 0); [lia|].
  now rewrite Nat2Z.id.
Qed.

Lemma firstn_indices {A} (d : A) (l : list A) (k : nat) :
  (k <= length l)%nat -> firstn k l = map (at_ d l) (indices k).
Proof.
  induction k as [|k IH]; intro Hk; [reflexivity|].
  rewrite (firstn_snoc_nth d) by lia.
  rewrite indices_S, map_app, <- IH by lia.
  cbn [map]. now rewrite at_of_nat.
Qed.

Module GridSearchRuns.
Import GridSearch GridSearchInv GridSearchTable GridSearchFacts
  GridSearchDecision.

Lemma gs_decision_quiet params i st bid ask short_avg :
  in_position (strat st) = false ->
  waiting_for_signal (strat st) = false ->
  currentPosition st = 0 ->
  prev_in_high_spread (strat st) = false ->
  dge (ask - bid)%float HIGH_SPREAD_THRESHOLD = false ->
  decision params i st bid ask short_avg = (0, strat st).
Proof.
  intros Hi Hw Hp Hprev Hs.
  unfold decision, entry_window, turn_fires, extreme_moves, forced_close,
    exit_index_now, baseline_now, hs_exit_seen.
  cbv zeta. rewrite Hs, Hi, Hw, Hp, Hprev.
  repeat (cbn [andb negb orb Z.eqb]; rewrite ?andb_false_r).
  destruct (strat st); cbn in *; subst; reflexivity.
Qed.

Lemma gs_quiet_run params data k :
  forallb (fun d => negb (hs_of d)) data = true ->
  (k <= length data)%nat ->
  let st := run_ticks params data k in
  strat st = init_strategy /\ currentPosition st = 0
  /\ cash st = 0%float /\ totalFees st = 0%float.
Proof.
  intros Hq. induction k as [|k IH]; intro Hk; [repeat split|].
  specialize (IH ltac:(lia)). cbv zeta in *.
  destruct IH as (Hs & Hp & Hc & Hf).
  destruct (gs_run_step params data k) as (_ & Ht). cbv zeta in Ht.
  destruct (isnan _).
  { destruct Ht as (-> & -> & -> & ->). auto. }
  rewrite gs_decision_quiet in Ht.
  - cbn [fst snd] in Ht. destruct Ht as (-> & -> & Hz).
    destruct (Hz eq_refl) as [-> ->]. repeat split; auto. lia.
  - rewrite Hs. reflexivity.
  - rewrite Hs. reflexivity.
  - exact Hp.
  - rewrite Hs. reflexivity.
  - rewrite forallb_forall in Hq.
    rewrite at_of_nat.
    specialize (Hq (nth k data (mkPriceData nan nan))
                   ltac:(apply nth_In; lia)).
    rewrite negb_true_iff in Hq. exact Hq.
Qed.

(** [computeRollingAverage] before the window is full. *)
Lemma gs_short_avg_undefined params data st i :
  i + 1 < short_window params ->
  isnan (tick_short_avg params data st i) = true.
Proof.
  intro H. unfold tick_short_avg, computeRollingAverage. cbv zeta.
  destruct (Z.ltb_spec (i - short_window params + 1) 0); [reflexivity|lia].
Qed.

Lemma gs_warm_up_run params data k :
  Z.of_nat k < short_window params ->
  let st := run_ticks params data k in
  strat st = init_strategy /\ currentPosition st = 0
  /\ cash st = 0%float /\ totalFees st = 0%float.
Proof.
  induction k as [|k IH]; intro Hk; [repeat split|].
  specialize (IH ltac:(lia)). cbv zeta in *.
  destruct IH as (Hs & Hp & Hc & Hf).
  destruct (gs_run_step params data k) as (_ & Ht). cbv zeta in Ht.
  rewrite gs_short_avg_undefined in Ht by lia.
  destruct Ht as (-> & -> & -> & ->). auto.
Qed.

Lemma gs_runBacktest_flat data params :
  let st := run_ticks params data (length data) in
  currentPosition st = 0 -> cash st = 0%float -> totalFees st = 0%float ->
  runBacktest data params = mkBacktestResult 0%float 0%float.
Proof.
  intros st Hp Hc Hf. unfold runBacktest, final_state, final_close.
  fold st. rewrite Hp. cbn [Z.ltb Z.compare]. rewrite Hc, Hf. reflexivity.
Qed.

(** The preallocated vector after [k] ticks: the mid prices of the ticks
    seen so far, then the zeros it was created with. *)
Lemma gs_midPrices_run params data k :
  (k <= length data)%nat ->
  midPrices (run_ticks params data k)
  = map mid_of (firstn k data) ++ repeat 0%float (length data - k).
Proof.
  induction k as [|k IH]; intro Hk.
  - cbn. now rewrite Nat.sub_0_r.
  - destruct (gs_run_step params data k) as (-> & _).
    unfold tick_mids, assign. rewrite IH by lia.
    destruct (Z.ltb_spec (Z.of_nat k) 0); [lia|].
    rewrite Nat2Z.id.
    replace (length data - k)%nat with (S (length data - S k)) by lia.
    cbn [repeat].
    rewrite set_nth_middle by (rewrite length_map, length_firstn; lia).
    rewrite (firstn_snoc_nth (mkPriceData nan nan)) by lia.
    rewrite map_app, <- app_assoc, at_of_nat. reflexivity.
Qed.

(** The rolling average of tick [k] of a run is taken over the mid prices
    of ticks [k-w+1 .. k]. *)
Lemma gs_tick_short_avg_run params data k :
  (k < length data)%nat ->
  0 < short_window params ->
  let w := short_window params in
  tick_short_avg params data (run_ticks params data k) (Z.of_nat k)
  = if Z.of_nat k + 1 <? w then nan
    else (fsum (map (fun j => mid_of (at_ (mkPriceData nan nan) data j))
                    (map Z.of_nat (seq (S k - Z.to_nat w) (Z.to_nat w))))
          / Z2d w)%float.
Proof.
  intros Hk Hw w. unfold tick_short_avg.
  destruct (gs_run_step params data k) as (<- & _).
  rewrite gs_midPrices_run by lia.
  set (history := map mid_of (firstn (S k) data)).
  assert (Hsz : size history = Z.of_nat k + 1).
  { unfold size, history. rewrite length_map, length_firstn. lia. }
  replace (Z.of_nat k) with (size history - 1) at 1 by lia.
  rewrite gs_rolling_spec by exact Hw. rewrite Hsz. fold w.
  destruct (Z.ltb_spec (Z.of_nat k + 1) w); [reflexivity|].
  unfold history.
  rewrite (firstn_indices (mkPriceData nan nan)) by lia.
  rewrite map_map, lastn_map, lastn_indices by lia.
  reflexivity.
Qed.

End GridSearchRuns.

(** ** The single-file grid search: what a run of [runBacktest] guarantees *)

(** X9 (state coherence, grid search).  After every tick of every run the
    position is 0, 100 or -100; [in_position] is set exactly when the
    position is not 0 and [position_is_long] exactly when it is positive; an
    open position never waits for a signal; and whenever
    [prev_in_high_spread] is set the position is 0. *)
Theorem X9_gs_state_coherence :
  forall params data k,
    let st := GridSearch.run_ticks params data k in
    let ps := GridSearch.currentPosition st in
    (ps = 0 \/ ps = 100 \/ ps = - 100)
    /\ GridSearch.in_position (GridSearch.strat st) = negb (ps =? 0)
    /\ GridSearch.position_is_long (GridSearch.strat st) = (0 <? ps)
    /\ (ps <> 0 ->
        GridSearch.waiting_for_signal (GridSearch.strat st) = false)
    /\ (GridSearch.prev_in_high_spread (GridSearch.strat st) = true ->
        ps = 0).
Proof.
  intros params data k st ps.
  destruct (GridSearchFacts.gs_invariant_run params data k) as [Hco Hhs].
  pose proof (GridSearchDecision.gs_long_flag_run params data k) as Hl.
  fold st in Hco, Hhs, Hl.
  unfold GridSearchInv.coherent, GridSearchInv.flat_after_hs,
    GridSearchTable.long_flag, GridSearch.POSITION_SIZE in *.
  fold ps in Hco, Hhs, Hl.
  repeat split.
  - intuition lia.
  - destruct Hco as [[-> ->] | ([-> | ->] & -> & _)]; reflexivity.
  - exact Hl.
  - intuition lia.
  - exact Hhs.
Qed.

(** X9 on the sample series: after all six ticks [prev_in_high_spread] is
    set, and the position is 0. *)
Lemma X9_gs_state_coherence_witness :
  GridSearch.currentPosition
    (GridSearch.run_ticks Samples.params Samples.series 6) = 0.
Proof.
  apply (X9_gs_state_coherence Samples.params Samples.series 6).
  vm_compute. reflexivity.
Defined.

(** X10 (the orders of a run are filled whole, grid search).  On a tick
    that is not skipped, the order decided is nothing, the close of the whole
    open position, or one unit of 100 from a flat position; the limit check
    never rejects it, so the position moves by exactly the order and is never
    reversed within one tick.  A skipped tick leaves the position, the cash,
    the fees and the strategy state as they were. *)
Theorem X10_gs_orders_filled_whole :
  forall params data k,
    let st := GridSearch.run_ticks params data k in
    let st' := GridSearch.run_ticks params data (S k) in
    let ps := GridSearch.currentPosition st in
    match GridSearch.tick_decision params data st (Z.of_nat k) with
    | Some w =>
        let q := GridSearch.order_quantity w in
        GridSearch.filled_quantity ps q = q
        /\ (q = 0 \/ (q = - ps /\ ps <> 0)
            \/ (ps = 0 /\ (q = 100 \/ q = - 100)))
        /\ GridSearch.currentPosition st' = ps + q
    | None =>
        GridSearch.currentPosition st' = ps
        /\ GridSearch.cash st' = GridSearch.cash st
        /\ GridSearch.totalFees st' = GridSearch.totalFees st
        /\ GridSearch.strat st' = GridSearch.strat st
    end.
Proof.
  intros params data k st st' ps.
  destruct (GridSearchDecision.gs_run_step params data k) as (_ & Ht).
  cbv zeta in Ht. fold st st' ps in Ht.
  unfold GridSearch.tick_decision.
  destruct (isnan _); [tauto|].
  set (d := at_ _ data (Z.of_nat k)) in *.
  set (avg := GridSearch.tick_short_avg params data st (Z.of_nat k)) in *.
  pose proof (GridSearchDecision.gs_decision_table params (Z.of_nat k) st
                (GridSearch.Bid d) (GridSearch.Ask d) avg) as Htab.
  cbv zeta in Htab. rewrite <- Htab in Ht. cbn [fst snd] in Ht.
  pose proof (GridSearchDecision.gs_decision_order params (Z.of_nat k) st
                (GridSearch.Bid d) (GridSearch.Ask d) avg) as Ho.
  cbv zeta in Ho. rewrite <- Htab in Ho. cbn [fst] in Ho. fold ps in Ho.
  assert (Hb : Z.abs ps <= 100)
    by (apply GridSearchDecision.gs_coherent_bound,
          GridSearchFacts.gs_invariant_run).
  cbv zeta. split; [|split].
  - apply GridSearchFacts.gs_filled_quantity_full; [intuition lia | exact Hb].
  - exact Ho.
  - apply Ht.
Qed.

(** X11 (entries, grid search).  Tick [i] of a run opens a long position
    exactly when: the tick is not skipped (its rolling average is defined),
    it is not in high spread, the machine waits for a signal (possibly since
    this very tick, when it is the first after a high spread), at least
    [waiting_period] ticks lie between the recorded exit index and [i], the
    position is flat, the average at the exit is defined, the average has
    moved from it by at least [hs_exit_change_threshold], and the mid price
    is above the average.  It opens a short position under the same
    conditions with the mid price below the average. *)
Theorem X11_gs_entry_conditions :
  forall params data k,
    let st := GridSearch.run_ticks params data k in
    let st' := GridSearch.run_ticks params data (S k) in
    let i := Z.of_nat k in
    let d := at_ (GridSearch.mkPriceData nan nan) data i in
    let m := GridSearchTable.mid_of d in
    let hs := GridSearchTable.hs_of d in
    let avg := GridSearch.tick_short_avg params data st i in
    let s := GridSearch.strat st in
    let ps := GridSearch.currentPosition st in
    let entry :=
      negb (isnan avg)
      && GridSearchTable.entry_window params i s ps hs
      && GridSearchTable.entry_signal params s m avg hs in
    ((ps <> 100 /\ GridSearch.currentPosition st' = 100)
     <-> entry && dgt m avg = true)
    /\ ((ps <> - 100 /\ GridSearch.currentPosition st' = - 100)
        <-> entry && negb (dgt m avg) && dlt m avg = true).
Proof.
  intros params data k st st' i d m hs avg s ps entry.
  destruct (GridSearchDecision.gs_run_step params data k) as (_ & Ht).
  cbv zeta in Ht. fold st st' i d avg ps in Ht.
  pose proof (GridSearchFacts.gs_invariant_run params data k) as [Hco _].
  fold st in Hco. apply GridSearchDecision.gs_coherent_bound in Hco.
  fold ps in Hco.
  unfold entry. destruct (isnan avg).
  { destruct Ht as (_ & -> & _). cbn [negb andb].
    split; split; try discriminate; intros [? ?]; lia. }
  cbn [negb andb]. destruct Ht as (_ & -> & _).
  pose proof (GridSearchDecision.gs_decision_cases params i st
                (GridSearch.Bid d) (GridSearch.Ask d) avg) as Hc.
  cbv zeta in Hc.
  fold (GridSearchTable.hs_of d) (GridSearchTable.mid_of d) in Hc.
  fold m hs s ps in Hc.
  destruct Hc as [(_ & Hn & -> & -> & -> & _)
                 | [(-> & -> & Hz & _ & -> & _)
                   | [(-> & -> & Hz & _ & -> & _)
                     | [(_ & -> & -> & _ & -> & _)
                       | (_ & -> & -> & _ & -> & _)]]]].
  all: split; split; try discriminate; try (intros [? ?]; lia);
    intros _; lia.
Qed.

(** X11 on the sample series: tick 3 opens the long position. *)
Lemma X11_gs_entry_conditions_witness :
  GridSearch.currentPosition
    (GridSearch.run_ticks Samples.params Samples.series 3) <> 100
  /\ GridSearch.currentPosition
       (GridSearch.run_ticks Samples.params Samples.series 4) = 100.
Proof.
  apply (X11_gs_entry_conditions Samples.params Samples.series 3).
  vm_compute. reflexivity.
Defined.

(** X12 (exits, grid search).  Tick [i] of a run closes an open position
    exactly when the tick is not skipped and either it is in high spread or
    the rolling average has turned from its extreme by at least
    [ma_turn_threshold]; the close always leaves the machine [FLAT], not
    waiting for a signal, and a tick that does not close leaves the position
    as it was. *)
Theorem X12_gs_exit_conditions :
  forall params data k,
    let st := GridSearch.run_ticks params data k in
    let st' := GridSearch.run_ticks params data (S k) in
    let i := Z.of_nat k in
    let d := at_ (GridSearch.mkPriceData nan nan) data i in
    let avg := GridSearch.tick_short_avg params data st i in
    let ps := GridSearch.currentPosition st in
    let ps' := GridSearch.currentPosition st' in
    ((ps <> 0 /\ ps' = 0)
     <-> (ps <> 0 /\ isnan avg = false
          /\ (GridSearchTable.hs_of d = true
              \/ GridSearchTable.turn_fires params (GridSearch.strat st) avg
                 = true)))
    /\ (ps <> 0 -> ps' = 0 ->
        GridSearchInv.machine_state (GridSearch.strat st') = FLAT)
    /\ (ps <> 0 -> ps' <> 0 -> ps' = ps).
Proof.
  intros params data k st st' i d avg ps ps'.
  destruct (GridSearchDecision.gs_run_step params data k) as (_ & Ht).
  cbv zeta in Ht. fold st st' i d avg ps ps' in Ht.
  destruct (GridSearchFacts.gs_invariant_run params data k)
    as [Hinv Hprev].
  fold st in Hinv, Hprev.
  unfold GridSearchInv.coherent, GridSearchInv.flat_after_hs in Hinv, Hprev.
  fold ps in Hinv, Hprev.
  assert (Hw : ps <> 0 ->
               GridSearch.waiting_for_signal (GridSearch.strat st) = false)
    by intuition.
  clear Hinv.
  destruct (isnan avg).
  { destruct Ht as (_ & -> & _).
    split; [split; [intros [? ?]; lia | intros (_ & ? & _); discriminate]|].
    split; intros; [lia | reflexivity]. }
  destruct Ht as (Hs & Hp & _).
  pose proof (GridSearchDecision.gs_decision_cases params i st
                (GridSearch.Bid d) (GridSearch.Ask d) avg) as Hc.
  cbv zeta in Hc. fold (GridSearchTable.hs_of d) in Hc. fold ps in Hc.
  unfold GridSearchInv.machine_state, machine_state_of.
  rewrite Hp, Hs. clear Hp Hs.
  assert (Hwt : ps <> 0 ->
                GridSearch.waiting_for_signal
                  (snd (GridSearchTable.decision params i st
                          (GridSearch.Bid d) (GridSearch.Ask d) avg))
                = false).
  { intro Hn. unfold GridSearchTable.decision. cbv zeta.
    cbn [snd GridSearch.waiting_for_signal].
    unfold GridSearchTable.entry_window, GridSearchTable.hs_exit_seen.
    rewrite Hw by exact Hn.
    destruct (GridSearch.prev_in_high_spread (GridSearch.strat st)) eqn:E;
      [specialize (Hprev eq_refl); contradiction|].
    reflexivity. }
  destruct Hc as [(Hh & Hn & _ & _ & -> & -> & _)
                 | [(_ & _ & Hz & _)
                   | [(_ & _ & Hz & _)
                     | [(Hh & _ & _ & Ht & -> & -> & _)
                       | (Hh & _ & _ & Ht & -> & _)]]]].
  - rewrite Hh. split; [|split].
    + split; intros; (repeat split; first [tauto | lia]).
    + intros _ _. rewrite Hwt by exact Hn. reflexivity.
    + intros; lia.
  - repeat split; intros; try tauto; lia.
  - repeat split; intros; try tauto; lia.
  - rewrite Ht. split; [|split].
    + split; intros; (repeat split; first [tauto | lia]).
    + intros Hn _. rewrite Hwt by exact Hn. reflexivity.
    + intros; lia.
  - rewrite Ht. split; [|split].
    + split.
      * intros [? ?]; lia.
      * intros (Hn & _ & [Hhs | Hf]); [|discriminate].
        destruct Hh as [Hh | Hh]; [congruence | contradiction].
    + intros; lia.
    + intros; lia.
Qed.

(** X12 on the sample series: tick 5 is in high spread and closes the long
    position. *)
Lemma X12_gs_exit_conditions_witness :
  GridSearch.currentPosition
    (GridSearch.run_ticks Samples.params Samples.series 5) <> 0
  /\ GridSearch.currentPosition
       (GridSearch.run_ticks Samples.params Samples.series 6) = 0.
Proof.
  apply (X12_gs_exit_conditions Samples.params Samples.series 5).
  split; [vm_compute; discriminate|].
  split; [vm_compute; reflexivity|].
  left. vm_compute. reflexivity.
Defined.

(** X13 (no high spread, no trade; grid search).  On a series none of
    whose ticks is in high spread nothing ever happens: after every tick the
    position, the cash and the fees are 0 and the strategy state is the
    initial one, and [runBacktest] returns PnL 0 and total fees 0. *)
Theorem X13_gs_no_high_spread_no_trade :
  forall params data,
    forallb (fun d => negb (GridSearchTable.hs_of d)) data = true ->
    (forall k, (k <= length data)%nat ->
       let st := GridSearch.run_ticks params data k in
       GridSearch.strat st = GridSearch.init_strategy
       /\ GridSearch.currentPosition st = 0
       /\ GridSearch.cash st = 0%float
       /\ GridSearch.totalFees st = 0%float)
    /\ GridSearch.runBacktest data params
       = GridSearch.mkBacktestResult 0%float 0%float.
Proof.
  intros params data H. split.
  - intros k Hk. now apply GridSearchRuns.gs_quiet_run.
  - destruct (GridSearchRuns.gs_quiet_run params data (length data) H
                (le_n _)) as (_ & Hp & Hc & Hf).
    now apply GridSearchRuns.gs_runBacktest_flat.
Qed.

(** X13 on three ticks whose spreads are 0, 1 and 0. *)
Lemma X13_gs_no_high_spread_no_trade_witness :
  GridSearch.runBacktest
    [GridSearch.mkPriceData 10 10; GridSearch.mkPriceData 10 11;
     GridSearch.mkPriceData 10 10]%float Samples.params
  = GridSearch.mkBacktestResult 0%float 0%float.
Proof.
  refine (proj2 (X13_gs_no_high_spread_no_trade Samples.params
                   [GridSearch.mkPriceData 10 10; GridSearch.mkPriceData 10 11;
                    GridSearch.mkPriceData 10 10]%float _)).
  vm_compute. reflexivity.
Defined.

(** X14 (warm-up, grid search).  The ticks [i] with [i + 1 < short_window]
    are skipped: after [k < short_window] ticks the strategy state is the
    initial one and position, cash and fees are 0.  A series shorter than
    [short_window] gives PnL 0 and total fees 0. *)
Theorem X14_gs_warm_up :
  forall params data k,
    Z.of_nat k < GridSearch.short_window params ->
    let st := GridSearch.run_ticks params data k in
    GridSearch.strat st = GridSearch.init_strategy
    /\ GridSearch.currentPosition st = 0
    /\ GridSearch.cash st = 0%float
    /\ GridSearch.totalFees st = 0%float
    /\ (k = length data ->
        GridSearch.runBacktest data params
        = GridSearch.mkBacktestResult 0%float 0%float).
Proof.
  intros params data k H st.
  destruct (GridSearchRuns.gs_warm_up_run params data k H)
    as (Hs & Hp & Hc & Hf).
  fold st in Hs, Hp, Hc, Hf. repeat split; auto.
  intros ->. now apply GridSearchRuns.gs_runBacktest_flat.
Qed.

(** X14 on the first tick of the sample series, with window 2. *)
Lemma X14_gs_warm_up_witness :
  GridSearch.strat (GridSearch.run_ticks Samples.params Samples.series 1)
  = GridSearch.init_strategy.
Proof.
  refine (proj1 (X14_gs_warm_up Samples.params Samples.series 1 _)).
  simpl. lia.
Defined.

(** X15 (the grid-search average includes the current tick).  In the
    single-file grid search the rolling average that tick [i] decides with
    is NaN when [i + 1 < w], and otherwise the mean of the mid prices of
    ticks [i-w+1 .. i]: the tick's own mid price is stored before the
    average is taken, and the zeros that fill the rest of the preallocated
    vector are never read. *)
Theorem X15_gs_average_includes_current_tick :
  forall params data (k : nat),
    (k < length data)%nat ->
    0 < GridSearch.short_window params ->
    let w := GridSearch.short_window params in
    let st := GridSearch.run_ticks params data k in
    GridSearch.midPrices st
    = map GridSearchTable.mid_of (firstn k data)
      ++ repeat 0%float (length data - k)
    /\ GridSearch.tick_short_avg params data st (Z.of_nat k)
       = (if Z.of_nat k + 1 <? w then nan
          else (fsum (map (fun j => GridSearchTable.mid_of
                                      (at_ (GridSearch.mkPriceData nan nan)
                                           data j))
                          (map Z.of_nat
                               (seq (S k - Z.to_nat w) (Z.to_nat w))))
                / Z2d w)%float).
Proof.
  intros params data k Hk Hw w st. split.
  - apply GridSearchRuns.gs_midPrices_run. lia.
  - now apply GridSearchRuns.gs_tick_short_avg_run.
Qed.

(** X15 on the sample series: with window 2, tick 3 decides with the mean
    of the mid prices of ticks 2 and 3, which is 11. *)
Lemma X15_gs_average_includes_current_tick_witness :
  GridSearch.tick_short_avg Samples.params Samples.series
    (GridSearch.run_ticks Samples.params Samples.series 3) 3 = 11%float.
Proof.
  refine (eq_trans
            (proj2 (X15_gs_average_includes_current_tick
                      Samples.params Samples.series 3 _ _)) _).
  - simpl. lia.
  - reflexivity.
  - vm_compute. reflexivity.
Defined.

(** ** One entry per high-spread episode *)

Lemma count_ticks_S (f : nat -> bool) (k : nat) :
  count_ticks f (S k)
  = (count_ticks f k + (if f k then 1 else 0))%nat.
Proof.
  unfold count_ticks. rewrite seq_S, filter_app, length_app. cbn [filter Nat.add].
  destruct (f k); reflexivity.
Qed.

(** X24 (one entry per high-spread episode, try2).  In every run the
    number of ticks that open a position, plus one if the machine is waiting
    for a signal, is at most the number of ticks that are the first after a
    high spread: a position can only be opened once for each high-spread
    episode that has ended. *)
Theorem X24_try2_one_entry_per_episode :
  forall p ticks bids asks k,
    let run := Try2.run_ticks p ticks bids asks in
    let entries :=
      count_ticks (fun j => (Try2.pos (run j) =? 0)
                            && negb (Try2.pos (run (S j)) =? 0)) k in
    let exits :=
      count_ticks (fun j => hs_at bids asks (Z.of_nat j - 1)
                            && negb (hs_at bids asks (Z.of_nat j))) k in
    (entries
     + (if Try2.waiting_for_signal (Try2.strat (run k)) then 1 else 0)
     <= exits)%nat.
Proof.
  intros p ticks bids asks k run. cbv zeta.
  induction k as [|k IH]; [cbn; lia|].
  rewrite !count_ticks_S.
  set (e := count_ticks (fun j => (Try2.pos _ =? 0) && _) k) in *.
  set (x := count_ticks (fun j => hs_at _ _ _ && _) k) in *.
  destruct (Try2Runs.try2_pos_step p ticks bids asks k) as (Hp & Hs & _).
  fold run in Hp, Hs. cbv beta. rewrite Hp, Hs. clear Hp Hs.
  set (st := run k) in *. set (i := Z.of_nat k).
  pose proof (Try2Runs.try2_decision_cases p st (at_ nan bids i)
                (at_ nan asks i) (Try2.tick_s_avg p st)) as Hc.
  cbv zeta in Hc. fold (hs_at bids asks i) in Hc.
  rewrite Try2Runs.try2_decision_waiting. fold (hs_at bids asks i).
  pose proof (Try2Runs.try2_hs_exit_seen_run p ticks bids asks k
                (hs_at bids asks i)) as Hseen.
  fold run st i in Hseen. rewrite Hseen.
  set (entry := Try2Table.entry_window p (Try2.hist st) (Try2.strat st)
                  (Try2.pos st) (hs_at bids asks i)
                && Try2Table.entry_signal p (Try2.strat st)
                     (Try2.tick_s_avg p st)) in *.
  assert (He : entry = true ->
               Try2.waiting_for_signal (Try2.strat st) = true
               /\ hs_at bids asks (i - 1) && negb (hs_at bids asks i)
                  = false).
  { unfold entry. rewrite andb_true_iff. intros [Hw _].
    apply Try2Decision.try2_entry_window_true in Hw.
    rewrite Hseen in Hw. tauto. }
  destruct Hc as [(Hh & Hn & Hl & _ & -> & _)
                 | [(Hl & _ & Hz & _ & -> & _)
                   | [(Hl & _ & Hz & _ & -> & _)
                     | [(_ & _ & _ & _ & -> & _)
                       | (_ & _ & _ & _ & -> & _)]]]].
  - replace (Try2.pos st + - Try2.pos st) with 0 by lia.
    rewrite Hh. cbn [negb Z.eqb]. rewrite !andb_false_r.
    destruct entry;
      destruct (Try2.waiting_for_signal (Try2.strat st)); lia.
  - rewrite Hz. cbn [Z.add Z.eqb negb andb].
    assert (entry = true) as Ee
        by (destruct entry; [reflexivity | discriminate]).
    destruct (He Ee) as [Hw ->]. rewrite Ee. rewrite Hw in IH. lia.
  - rewrite Hz. cbn [Z.add Z.eqb negb andb].
    assert (entry = true) as Ee
        by (destruct entry; [reflexivity | discriminate]).
    destruct (He Ee) as [Hw ->]. rewrite Ee. rewrite Hw in IH. lia.
  - replace (Try2.pos st + - Try2.pos st) with 0 by lia.
    cbn [Z.eqb negb]. rewrite andb_false_r.
    destruct (hs_at bids asks (i - 1) && negb (hs_at bids asks i));
      destruct entry;
      destruct (Try2.waiting_for_signal (Try2.strat st)); lia.
  - rewrite Z.add_0_r.
    destruct (Try2.pos st =? 0); cbn [negb andb];
      destruct (hs_at bids asks (i - 1) && negb (hs_at bids asks i));
      destruct entry;
      destruct (Try2.waiting_for_signal (Try2.strat st)); lia.
Qed.

(** X25 (one entry per high-spread episode, grid search).  In every run
    of the single-file grid search the number of ticks that open a position,
    plus one if the machine is waiting for a signal, is at most the number
    of ticks on which check 1) sees the exit from a high spread (a tick that
    is not skipped and not in high spread, while [prev_in_high_spread] is
    set). *)
Theorem X25_gs_one_entry_per_episode :
  forall params data k,
    let run := GridSearch.run_ticks params data in
    let entries :=
      count_ticks (fun j => (GridSearch.currentPosition (run j) =? 0)
                            && negb (GridSearch.currentPosition (run (S j))
                                     =? 0)) k in
    let exits :=
      count_ticks
        (fun j =>
           negb (isnan (GridSearch.tick_short_avg params data (run j)
                          (Z.of_nat j)))
           && GridSearchTable.hs_exit_seen (GridSearch.strat (run j))
                (GridSearchTable.hs_of
                   (at_ (GridSearch.mkPriceData nan nan) data (Z.of_nat j))))
        k in
    (entries
     + (if GridSearch.waiting_for_signal (GridSearch.strat (run k))
        then 1 else 0)
     <= exits)%nat.
Proof.
  intros params data k run. cbv zeta.
  induction k as [|k IH]; [cbn; lia|].
  rewrite !count_ticks_S.
  set (e := count_ticks (fun j => (GridSearch.currentPosition _ =? 0) && _)
              k) in *.
  set (x := count_ticks (fun j => negb _ && _) k) in *.
  destruct (GridSearchDecision.gs_run_step params data k) as (_ & Ht).
  cbv zeta in Ht. fold run in Ht.
  set (st := run k) in *. set (i := Z.of_nat k) in *.
  set (d := at_ (GridSearch.mkPriceData nan nan) data i) in *.
  set (avg := GridSearch.tick_short_avg params data st i) in *.
  cbv beta. fold st i d avg.
  destruct (isnan avg).
  { destruct Ht as (-> & -> & _). cbn [negb andb].
    destruct (GridSearch.currentPosition st =? 0); cbn [negb andb]; lia. }
  destruct Ht as (-> & -> & _). cbn [negb andb].
  pose proof (GridSearchDecision.gs_decision_cases params i st
                (GridSearch.Bid d) (GridSearch.Ask d) avg) as Hc.
  cbv zeta in Hc.
  fold (GridSearchTable.hs_of d) (GridSearchTable.mid_of d) in Hc.
  unfold GridSearchTable.decision at 2. cbv zeta.
  cbn [snd GridSearch.waiting_for_signal].
  fold (GridSearchTable.hs_of d) (GridSearchTable.mid_of d).
  set (seen := GridSearchTable.hs_exit_seen (GridSearch.strat st)
                 (GridSearchTable.hs_of d)) in *.
  set (entry := GridSearchTable.entry_window params i (GridSearch.strat st)
                  (GridSearch.currentPosition st) (GridSearchTable.hs_of d)
                && GridSearchTable.entry_signal params (GridSearch.strat st)
                     (GridSearchTable.mid_of d) avg
                     (GridSearchTable.hs_of d)) in *.
  assert (He : entry = true ->
               seen || GridSearch.waiting_for_signal (GridSearch.strat st)
               = true).
  { unfold entry. rewrite andb_true_iff. intros [Hw _].
    apply GridSearchDecision.gs_entry_window_true in Hw. tauto. }
  destruct Hc as [(Hh & Hn & Hl & _ & -> & _)
                 | [(Hl & _ & Hz & _ & -> & _)
                   | [(Hl & _ & Hz & _ & -> & _)
                     | [(_ & _ & _ & _ & -> & _)
                       | (_ & _ & _ & _ & -> & _)]]]].
  - replace (GridSearch.currentPosition st + - GridSearch.currentPosition st)
      with 0 by lia.
    cbn [Z.eqb negb]. rewrite andb_false_r.
    destruct entry; [specialize (He eq_refl)|];
      destruct seen;
      destruct (GridSearch.waiting_for_signal (GridSearch.strat st));
      cbn [orb] in *; try discriminate; lia.
  - rewrite Hz. cbn [Z.add Z.eqb negb andb].
    assert (entry = true) as Ee
        by (destruct entry; [reflexivity | discriminate]).
    specialize (He Ee). rewrite Ee.
    destruct seen;
      destruct (GridSearch.waiting_for_signal (GridSearch.strat st));
      cbn [orb] in *; try discriminate; lia.
  - rewrite Hz. cbn [Z.add Z.eqb negb andb].
    assert (entry = true) as Ee
        by (destruct entry; [reflexivity | discriminate]).
    specialize (He Ee). rewrite Ee.
    destruct seen;
      destruct (GridSearch.waiting_for_signal (GridSearch.strat st));
      cbn [orb] in *; try discriminate; lia.
  - replace (GridSearch.currentPosition st + - GridSearch.currentPosition st)
      with 0 by lia.
    cbn [Z.eqb negb]. rewrite andb_false_r.
    destruct entry; [specialize (He eq_refl)|];
      destruct seen;
      destruct (GridSearch.waiting_for_signal (GridSearch.strat st));
      cbn [orb] in *; try discriminate; lia.
  - rewrite Z.add_0_r.
    destruct (GridSearch.currentPosition st =? 0); cbn [negb andb];
      (destruct entry; [specialize (He eq_refl)|]);
      destruct seen;
      destruct (GridSearch.waiting_for_signal (GridSearch.strat st));
      cbn [orb] in *; try discriminate; lia.
Qed.

(** ** FuzzerMain.cpp: the candidate values and the grid *)

Module FuzzerFacts.
Import Fuzzer.

Lemma insert_sorted_perm {A} (lt : A -> A -> bool) (x : A) (l : list A) :
  Permutation (x :: l) (insert_sorted lt x l).
Proof.
  induction l as [|y l IH]; [reflexivity|].
  cbn [insert_sorted]. destruct (lt x y); [reflexivity|].
  rewrite perm_swap. now constructor.
Qed.

(** Sorting rearranges: no candidate is lost, none is invented. *)
Lemma std_sort_perm {A} (lt : A -> A -> bool) (l : list A) :
  Permutation l (std_sort lt l).
Proof.
  induction l as [|x l IH]; [reflexivity|].
  cbn [std_sort fold_right]. fold (std_sort lt l).
  rewrite <- insert_sorted_perm. now constructor.
Qed.

Lemma insert_sorted_Z (x : Z) (l : list Z) :
  StronglySorted Z.le l -> StronglySorted Z.le (insert_sorted Z.ltb x l).
Proof.
  induction 1 as [|y l Hs IH Hy]; cbn [insert_sorted].
  - repeat constructor.
  - destruct (Z.ltb_spec x y).
    + constructor; [now constructor|].
      constructor; [lia|].
      eapply Forall_impl; [|exact Hy]. intros; cbn in *; lia.
    + constructor; [exact IH|].
      eapply Permutation_Forall; [apply insert_sorted_perm|].
      constructor; [lia | exact Hy].
Qed.

Lemma std_sort_Z_sorted (l : list Z) :
  StronglySorted Z.le (std_sort Z.ltb l).
Proof.
  induction l as [|x l IH]; [constructor|].
  cbn [std_sort fold_right]. now apply insert_sorted_Z.
Qed.

End FuzzerFacts.

(** X16 ([fuzzIntParam]).  For a base value in the range of [int] such
    that each of the 21 products [baseVal * (100 + i) / 100],
    [i = -10 .. 10], is finite and rounds to a value in the range of [int]
    (so that the cast of the source is defined), the values returned are the
    21 candidates [max (round (baseVal * (100 + i) / 100)) 1] rearranged in
    ascending order; every one of them is at least 1 and in the range of
    [int]. *)
Theorem X16_fuzzIntParam_sorted_positive :
  forall baseVal : Z,
    Fuzzer.in_int baseVal = true ->
    forallb (fun i => Fuzzer.cast_defined
                        (Z2d baseVal * ((100.0 + Z2d i) / 100.0))%float)
            Fuzzer.steps = true ->
    let candidate i :=
      let iv := Fuzzer.round_to_int
                  (Z2d baseVal * ((100.0 + Z2d i) / 100.0))%float in
      if iv <? 1 then 1 else iv in
    Permutation (map candidate Fuzzer.steps) (Fuzzer.fuzzIntParam baseVal)
    /\ StronglySorted Z.le (Fuzzer.fuzzIntParam baseVal)
    /\ Forall (fun v => 1 <= v /\ Fuzzer.in_int v = true)
              (Fuzzer.fuzzIntParam baseVal).
Proof.
  intros baseVal _ Hc candidate. unfold Fuzzer.fuzzIntParam.
  fold candidate. split; [|split].
  - apply FuzzerFacts.std_sort_perm.
  - apply FuzzerFacts.std_sort_Z_sorted.
  - eapply Permutation_Forall; [apply FuzzerFacts.std_sort_perm|].
    apply Forall_map, Forall_forall. intros i Hi. unfold candidate.
    cbv zeta. rewrite forallb_forall in Hc. specialize (Hc i Hi).
    unfold Fuzzer.cast_defined in Hc. apply andb_true_iff in Hc.
    destruct Hc as [_ Hc]. unfold Fuzzer.in_int in *.
    apply andb_true_iff in Hc. destruct Hc as [_ Hu].
    apply Z.leb_le in Hu.
    destruct (Z.ltb_spec (Fuzzer.round_to_int
      (Z2d baseVal * ((100.0 + Z2d i) / 100.0))) 1).
    + split; [lia | reflexivity].
    + split; [lia|]. apply andb_true_iff. split; apply Z.leb_le;
        [unfold Fuzzer.INT_MIN; lia | exact Hu].
Qed.

(** X16 at the base value 80 of [main]: the casts are defined and the
    candidates are 72 .. 88.  At the base value 2000000000 the product for
    [i = 8] rounds to 2160000000, outside [int]: the condition excludes
    it. *)
Lemma X16_fuzzIntParam_sorted_positive_witness :
  (Fuzzer.in_int Fuzzer.baseSW = true
   /\ Fuzzer.fuzzIntParam Fuzzer.baseSW
      = [72; 73; 74; 74; 75; 76; 77; 78; 78; 79; 80;
         81; 82; 82; 83; 84; 85; 86; 86; 87; 88]
   /\ StronglySorted Z.le (Fuzzer.fuzzIntParam Fuzzer.baseSW)
   /\ Forall (fun v => 1 <= v /\ Fuzzer.in_int v = true)
             (Fuzzer.fuzzIntParam Fuzzer.baseSW))
  /\ Fuzzer.cast_defined
       (Z2d 2000000000 * ((100.0 + Z2d 8) / 100.0))%float = false.
Proof.
  split; [|vm_compute; reflexivity].
  assert (H1 : Fuzzer.in_int Fuzzer.baseSW = true)
    by (vm_compute; reflexivity).
  assert (H2 : forallb
                 (fun i => Fuzzer.cast_defined
                             (Z2d Fuzzer.baseSW
                              * ((100.0 + Z2d i) / 100.0))%float)
                 Fuzzer.steps = true)
    by (vm_compute; reflexivity).
  destruct (X16_fuzzIntParam_sorted_positive Fuzzer.baseSW H1 H2)
    as (_ & Hs & Hf).
  split; [exact H1|]. split; [vm_compute; reflexivity|].
  split; [exact Hs | exact Hf].
Defined.

(** X17 ([fuzzDoubleParam]).  The values returned are the 21 candidates
    [baseVal * (100 + i) / 100], with [1e-6] in place of every candidate
    that is [<= 0], rearranged; none of them is [<= 0], whatever the base
    value. *)
Theorem X17_fuzzDoubleParam_not_nonpositive :
  forall baseVal : double,
    let candidate i :=
      let dv := (baseVal * ((100.0 + Z2d i) / 100.0))%float in
      if dle dv 0.0 then 1e-6%float else dv in
    Permutation (map candidate Fuzzer.steps)
                (Fuzzer.fuzzDoubleParam baseVal)
    /\ Forall (fun v => dle v 0 = false) (Fuzzer.fuzzDoubleParam baseVal).
Proof.
  intros baseVal candidate. unfold Fuzzer.fuzzDoubleParam.
  fold candidate. split.
  - apply FuzzerFacts.std_sort_perm.
  - eapply Permutation_Forall; [apply FuzzerFacts.std_sort_perm|].
    apply Forall_map, Forall_forall. intros i _. unfold candidate.
    cbv zeta.
    destruct (dle (baseVal * ((100.0 + Z2d i) / 100.0)) 0) eqn:E;
      [reflexivity | exact E].
Qed.

(** X18 (the grid is the product).  A combination is in the list built by
    the four nested loops exactly when each of its four parameters is one of
    the candidate values of its dimension and its [pnl] is the initial
    [0.0]. *)
Theorem X18_build_combos_product :
  forall sw_vals wp_vals hsx_vals mat_vals pr,
    In pr (Fuzzer.build_combos sw_vals wp_vals hsx_vals mat_vals)
    <-> (In (Fuzzer.short_window pr) sw_vals
         /\ In (Fuzzer.waiting_period pr) wp_vals
         /\ In (Fuzzer.hs_exit_change_threshold pr) hsx_vals
         /\ In (Fuzzer.ma_turn_threshold pr) mat_vals
         /\ Fuzzer.pnl pr = 0%float).
Proof.
  intros sw_vals wp_vals hsx_vals mat_vals pr. unfold Fuzzer.build_combos.
  rewrite in_flat_map. split.
  - intros (sw & Hsw & H). rewrite in_flat_map in H.
    destruct H as (wp & Hwp & H). rewrite in_flat_map in H.
    destruct H as (hsx & Hhsx & H). rewrite in_map_iff in H.
    destruct H as (mat & <- & Hmat). cbn. auto.
  - intros (Hsw & Hwp & Hhsx & Hmat & Hp).
    exists (Fuzzer.short_window pr). split; [exact Hsw|].
    rewrite in_flat_map.
    exists (Fuzzer.waiting_period pr). split; [exact Hwp|].
    rewrite in_flat_map.
    exists (Fuzzer.hs_exit_change_threshold pr). split; [exact Hhsx|].
    rewrite in_map_iff.
    exists (Fuzzer.ma_turn_threshold pr). split; [|exact Hmat].
    destruct pr; cbn in *. now subst.
Qed.

(** X18 on the grid of [main]: the combination of the four base values is
    in it. *)
Lemma X18_build_combos_product_witness :
  In (Fuzzer.mkParamResult 80 80 0.2%float 0.9%float 0%float)
     Fuzzer.g_combos.
Proof.
  unfold Fuzzer.g_combos.
  refine (proj2 (X18_build_combos_product _ _ _ _ _) _).
  cbn [Fuzzer.short_window Fuzzer.waiting_period
       Fuzzer.hs_exit_change_threshold Fuzzer.ma_turn_threshold Fuzzer.pnl].
  split; [|split; [|split; [|split; [|reflexivity]]]].
  - vm_compute. do 10 right. left. reflexivity.
  - vm_compute. do 10 right. left. reflexivity.
  - vm_compute. do 10 right. left. reflexivity.
  - vm_compute. do 10 right. left. reflexivity.
Defined.

(** ** FuzzerMain.cpp: the worker pool *)

Lemma set_nth_length {A} (l : list A) (n : nat) (x : A) :
  length (set_nth l n x) = length l.
Proof.
  revert n. induction l as [|a l IH]; intros [|n]; cbn; auto.
Qed.

Lemma nth_set_nth_same {A} (d : A) (l : list A) (n : nat) (x : A) :
  (n < length l)%nat -> nth n (set_nth l n x) d = x.
Proof.
  revert n. induction l as [|a l IH]; intros [|n] H; cbn in *;
    try lia; auto. apply IH. lia.
Qed.

Lemma nth_set_nth_other {A} (d : A) (l : list A) (n m : nat) (x : A) :
  n <> m -> nth m (set_nth l n x) d = nth m l d.
Proof.
  revert n m. induction l as [|a l IH]; intros [|n] [|m] H; cbn;
    try reflexivity; try congruence. apply IH. congruence.
Qed.

Lemma nth_error_set_nth_same {A} (l : list A) (n : nat) (x y : A) :
  nth_error l n = Some y -> nth_error (set_nth l n x) n = Some x.
Proof.
  revert n. induction l as [|a l IH]; intros [|n] H; cbn in *;
    try discriminate; auto.
Qed.

Lemma nth_error_set_nth_other {A} (l : list A) (n m : nat) (x : A) :
  n <> m -> nth_error (set_nth l n x) m = nth_error l m.
Proof.
  revert n m. induction l as [|a l IH]; intros [|n] [|m] H; cbn;
    try reflexivity; try congruence. apply IH. congruence.
Qed.

Module PoolFacts.
Import Fuzzer Pool.

Lemma sum_over_set_nth (f : Worker -> nat) (l : list Worker) (t : nat)
    (w w' : Worker) :
  nth_error l t = Some w ->
  (sum_over f (set_nth l t w') + f w = sum_over f l + f w')%nat.
Proof.
  revert t. induction l as [|a l IH]; intros [|t] H; cbn in *;
    try discriminate.
  - injection H as ->. lia.
  - specialize (IH t H). unfold sum_over in IH. lia.
Qed.

Lemma sum_over_repeat (f : Worker -> nat) (w : Worker) (n : nat) :
  sum_over f (repeat w n) = (n * f w)%nat.
Proof. induction n as [|n IH]; cbn; [reflexivity|]. unfold sum_over in IH. lia. Qed.

Lemma sum_over_zero (f : Worker -> nat) (l : list Worker) (t : nat)
    (w : Worker) :
  sum_over f l = 0%nat -> nth_error l t = Some w -> f w = 0%nat.
Proof.
  revert t. induction l as [|a l IH]; intros [|t] H E; cbn in *;
    try discriminate.
  - injection E as ->. lia.
  - apply (IH t); [unfold sum_over; lia | exact E].
Qed.

Lemma sum_is_returned_le (ws : list Worker) :
  (sum_over is_returned ws <= length ws)%nat.
Proof.
  induction ws as [|w ws IH]; cbn; [lia|].
  unfold sum_over in IH. unfold is_returned at 1. destruct (returned w); lia.
Qed.

Section Facts.
Variables (ticks : list Z) (bids asks : list double).
Variable combos : list ParamResult.

Local Abbreviation total := (g_totalCount combos).
Local Abbreviation final := (Pool.final ticks bids asks combos).
Local Abbreviation holds := (Pool.holds ticks bids asks combos).
Local Abbreviation worker_ok := (Pool.worker_ok ticks bids asks combos).
Local Abbreviation pool_inv := (Pool.pool_inv ticks bids asks combos).

Lemma pool_inv_init hw : pool_inv (pool_init combos hw).
Proof.
  unfold Pool.pool_inv, pool_init. cbn [shared workers g_results g_nextIdx
                                   g_doneCount].
  rewrite !sum_over_repeat, repeat_length. cbn [in_flight is_returned returned].
  repeat split; try lia.
  - intros j _. left. apply nth_repeat.
  - intros t w H. apply nth_error_In, repeat_spec in H. subst. exact I.
Qed.

Lemma holder_kept (l : list Worker) (t : nat) (w w' : Worker) (j : nat) :
  nth_error l t = Some w ->
  (holds w j -> holds w' j) ->
  (exists t0 w0, nth_error l t0 = Some w0 /\ holds w0 j) ->
  exists t0 w0, nth_error (set_nth l t w') t0 = Some w0 /\ holds w0 j.
Proof.
  intros Ht Hk (t0 & w0 & E & Hh).
  destruct (Nat.eq_dec t t0) as [<-|Hne].
  - exists t, w'. split; [eapply nth_error_set_nth_same; eauto|].
    apply Hk. congruence.
  - exists t0, w0. split; [|exact Hh].
    rewrite nth_error_set_nth_other by exact Hne. exact E.
Qed.

Lemma worker_ok_kept (l : list Worker) (t : nat) (w' : Worker)
    (next next' : nat) :
  (next <= next')%nat ->
  worker_ok next' w' ->
  (forall t0 w0, nth_error l t0 = Some w0 -> worker_ok next w0) ->
  forall t0 w0, nth_error (set_nth l t w') t0 = Some w0 ->
                worker_ok next' w0.
Proof.
  intros Hle Hw' Hall t0 w0 E.
  destruct (Nat.eq_dec t t0) as [<-|Hne].
  - destruct (nth_error l t) as [w|] eqn:Et.
    + erewrite nth_error_set_nth_same in E by eauto. now injection E as <-.
    + assert (length l <= t)%nat by now apply nth_error_None.
      assert (nth_error (set_nth l t w') t = None)
        by (apply nth_error_None; rewrite set_nth_length; lia).
      congruence.
  - rewrite nth_error_set_nth_other in E by exact Hne.
    specialize (Hall t0 w0 E).
    destruct w0; cbn in *; intuition lia.
Qed.

Lemma pool_inv_step st t st' :
  pool_inv st ->
  pool_step ticks bids asks combos st t = Some st' ->
  pool_inv st'.
Proof.
  intros (Hlen & Hval & Hdone & Hok & Hfl & Hret) Hs.
  unfold pool_step in Hs.
  destruct (nth_error (workers st) t) as [w|] eqn:Et; [|discriminate].
  pose proof (Hok t w Et) as Hw.
  pose proof (fun w' => sum_over_set_nth in_flight (workers st) t w w' Et)
    as Sfl.
  pose proof (fun w' => sum_over_set_nth is_returned (workers st) t w w' Et)
    as Sret.
  destruct st as [[next done results] ws].
  cbn [shared workers g_nextIdx g_doneCount g_results] in *.
  destruct w as [|j|j pr| |]; cbn [worker_step] in Hs;
    [| | | |discriminate]; injection Hs as <-;
    unfold Pool.pool_inv;
    cbn [shared workers g_nextIdx g_doneCount g_results worker_ok
         in_flight is_returned returned] in *;
    rewrite ?set_nth_length.
  - (* the fetch *)
    split; [exact Hlen|]. split; [exact Hval|].
    destruct (Nat.leb_spec total next) as [Hge|Hlt].
    + specialize (Sfl Returned). specialize (Sret Returned).
      cbn [in_flight is_returned returned] in Sfl, Sret.
      split; [|split; [|split]]; try lia.
      * intros j Hj _.
        destruct (Hdone j Hj ltac:(lia)) as [Hr|Hh]; [left; exact Hr|].
        right. eapply holder_kept; eauto.
        intros [E|E]; discriminate.
      * apply (worker_ok_kept ws t Returned next); cbn; auto; lia.
    + specialize (Sfl (AtRun next)). specialize (Sret (AtRun next)).
      cbn [in_flight is_returned returned] in Sfl, Sret.
      split; [|split; [|split]]; try lia.
      * intros j Hj Hjn.
        destruct (Nat.eq_dec j next) as [->|Hne].
        -- right. exists t, (AtRun next).
           split; [eapply nth_error_set_nth_same; eauto | left; reflexivity].
        -- destruct (Hdone j Hj ltac:(lia)) as [Hr|Hh]; [left; exact Hr|].
           right. eapply holder_kept; eauto.
           intros [E|E]; discriminate.
      * apply (worker_ok_kept ws t (AtRun next) next); cbn; auto; lia.
  - (* the backtest *)
    change (evaluate ticks bids asks (nth j combos unset)) with (final j).
    specialize (Sfl (AtStore j (final j))).
    specialize (Sret (AtStore j (final j))).
    cbn [in_flight is_returned returned] in Sfl, Sret.
    split; [exact Hlen|]. split; [exact Hval|].
    split; [|split; [|split]]; try lia.
    + intros j0 Hj0 Hjn.
      destruct (Hdone j0 Hj0 Hjn) as [Hr|Hh]; [left; exact Hr|].
      right. eapply holder_kept; eauto.
      intros [E|E]; [injection E as ->; right; reflexivity | discriminate].
    + apply (worker_ok_kept ws t _ next); cbn; auto.
  - (* the store *)
    destruct Hw as [[Hjt Hjn] ->].
    specialize (Sfl AtCount). specialize (Sret AtCount).
    cbn [in_flight is_returned returned] in Sfl, Sret.
    split; [exact Hlen|].
    split; [|split; [|split; [|split]]]; try lia.
    + intros j0 Hj0.
      destruct (Nat.eq_dec j j0) as [<-|Hne].
      * right. apply nth_set_nth_same. lia.
      * rewrite nth_set_nth_other by exact Hne. auto.
    + intros j0 Hj0 Hj0n.
      destruct (Nat.eq_dec j j0) as [<-|Hne].
      * left. apply nth_set_nth_same. lia.
      * rewrite nth_set_nth_other by exact Hne.
        destruct (Hdone j0 Hj0 Hj0n) as [Hr|Hh]; [left; exact Hr|].
        right. eapply holder_kept; eauto.
        intros [E|E]; [discriminate | injection E as ->; contradiction].
    + apply (worker_ok_kept ws t AtCount next); cbn; auto.
  - (* the count *)
    specialize (Sfl AtFetch). specialize (Sret AtFetch).
    cbn [in_flight is_returned returned] in Sfl, Sret.
    split; [exact Hlen|]. split; [exact Hval|].
    split; [|split; [|split]]; try lia.
    + intros j0 Hj0 Hjn.
      destruct (Hdone j0 Hj0 Hjn) as [Hr|Hh]; [left; exact Hr|].
      right. eapply holder_kept; eauto.
      intros [E|E]; discriminate.
    + apply (worker_ok_kept ws t AtFetch next); cbn; auto.
Qed.


Lemma pool_step_workers st t st' :
  pool_step ticks bids asks combos st t = Some st' ->
  length (workers st') = length (workers st).
Proof.
  unfold pool_step. destruct (nth_error _ _); [|discriminate].
  destruct (worker_step _ _ _ _ _ _) as [[sh w']|]; [|discriminate].
  intro H. injection H as <-. apply set_nth_length.
Qed.

Lemma pool_run_workers schedule :
  forall st st',
    pool_run ticks bids asks combos st schedule = Some st' ->
    length (workers st') = length (workers st).
Proof.
  induction schedule as [|t rest IH]; intros st st' Hr; cbn in Hr.
  - now injection Hr as <-.
  - destruct (pool_step ticks bids asks combos st t) as [st1|] eqn:E;
      [|discriminate].
    rewrite (IH _ _ Hr). eapply pool_step_workers; eauto.
Qed.

Lemma pool_inv_run schedule :
  forall st st',
    pool_inv st ->
    pool_run ticks bids asks combos st schedule = Some st' ->
    pool_inv st'.
Proof.
  induction schedule as [|t rest IH]; intros st st' Hi Hr; cbn in Hr.
  - now injection Hr as <-.
  - destruct (pool_step ticks bids asks combos st t) as [st1|] eqn:E;
      [|discriminate].
    eapply IH; [|exact Hr]. eapply pool_inv_step; eauto.
Qed.

Lemma forallb_returned_nth (ws : list Worker) t w :
  forallb returned ws = true -> nth_error ws t = Some w -> w = Returned.
Proof.
  intros H E. rewrite forallb_forall in H.
  specialize (H w (nth_error_In _ _ E)). now destruct w.
Qed.

Lemma sum_over_all_returned (f : Worker -> nat) (ws : list Worker) :
  f Returned = 0%nat -> forallb returned ws = true ->
  sum_over f ws = 0%nat.
Proof.
  intros Hf. induction ws as [|w ws IH]; [reflexivity|].
  cbn. rewrite andb_true_iff. intros [Hw Hws].
  destruct w; try discriminate. specialize (IH Hws).
  unfold sum_over in IH. lia.
Qed.

(** Once every worker has returned, every result is in place. *)
Lemma pool_inv_finished st :
  pool_inv st ->
  workers st <> [] ->
  forallb returned (workers st) = true ->
  g_results (shared st) = map (evaluate ticks bids asks) combos
  /\ g_doneCount (shared st) = total.
Proof.
  intros (Hlen & Hval & Hdone & Hok & Hfl & Hret) Hne Hall.
  assert (Hge : (total <= g_nextIdx (shared st))%nat).
  { destruct (workers st) as [|w ws] eqn:E; [contradiction|].
    assert (w = Returned)
      by (eapply (forallb_returned_nth (w :: ws) 0%nat); eauto).
    subst w. apply (Hok 0%nat Returned). reflexivity. }
  split.
  - apply (nth_ext _ _ unset unset).
    + rewrite length_map. exact Hlen.
    + intros j Hj. rewrite Hlen in Hj.
      rewrite (nth_indep (map _ _) unset (evaluate ticks bids asks unset))
        by (rewrite length_map; exact Hj).
      rewrite map_nth.
      destruct (Hdone j Hj ltac:(lia)) as [Hr | (t & w & E & Hh)];
        [exact Hr|].
      rewrite (forallb_returned_nth _ _ _ Hall E) in Hh.
      destruct Hh; discriminate.
  - rewrite (sum_over_all_returned in_flight) in Hfl by auto. lia.
Qed.

Lemma work_left_step st t st' :
  pool_step ticks bids asks combos st t = Some st' ->
  (work_left combos st = S (work_left combos st'))%nat.
Proof.
  unfold pool_step. intro Hs.
  destruct (nth_error (workers st) t) as [w|] eqn:Et; [|discriminate].
  pose proof (fun w' => sum_over_set_nth steps_left (workers st) t w w' Et)
    as S.
  destruct st as [[next done results] ws]. unfold work_left.
  cbn [shared workers g_nextIdx] in *. 
  destruct w as [|j|j pr| |]; cbn [worker_step] in Hs;
    [| | | |discriminate]; injection Hs as <-;
    cbn [shared workers g_nextIdx].
  - fold total.
    destruct (Nat.leb_spec total next).
    + specialize (S Returned). cbn in S. lia.
    + specialize (S (AtRun next)). cbn in S. lia.
  - specialize (S (AtStore j (evaluate ticks bids asks (nth j combos unset)))).
    cbn in S. lia.
  - specialize (S AtCount). cbn in S. lia.
  - specialize (S AtFetch). cbn in S. lia.
Qed.

Lemma work_left_run schedule :
  forall st st',
    pool_run ticks bids asks combos st schedule = Some st' ->
    (length schedule + work_left combos st' = work_left combos st)%nat.
Proof.
  induction schedule as [|t rest IH]; intros st st' Hr; cbn in Hr.
  - injection Hr as <-. reflexivity.
  - destruct (pool_step ticks bids asks combos st t) as [st1|] eqn:E;
      [|discriminate].
    apply work_left_step in E. apply IH in Hr. cbn [length]. lia.
Qed.

Lemma work_left_init hw :
  work_left combos (pool_init combos hw) = (4 * total + hw)%nat.
Proof.
  unfold work_left, pool_init. cbn [shared workers g_nextIdx].
  rewrite sum_over_repeat. cbn [steps_left]. lia.
Qed.

Lemma work_left_zero st :
  work_left combos st = 0%nat -> forallb returned (workers st) = true.
Proof.
  unfold work_left. intro H.
  assert (Hs : sum_over steps_left (workers st) = 0%nat) by lia.
  clear H. induction (workers st) as [|w ws IH]; [reflexivity|].
  cbn in *. destruct w; cbn in Hs; try lia.
  apply IH. unfold sum_over. lia.
Qed.

Lemma worker_can_step st t w :
  nth_error (workers st) t = Some w -> returned w = false ->
  exists st', pool_step ticks bids asks combos st t = Some st'.
Proof.
  intros E Hr. unfold pool_step. rewrite E.
  destruct w; try discriminate; cbn; eauto.
Qed.

End Facts.
End PoolFacts.

(** X19 (the worker pool computes every result, whatever the
    interleaving).  In every state that the workers of [main] can reach,
    under any schedule of their shared accesses: [g_results] keeps its size,
    each of its elements is either still unset or already the combination of
    the same index with the PnL of its backtest, the index counter never
    exceeds the number of combinations plus the number of workers, and the
    done counter never exceeds the number of combinations.  Once all workers
    (at least one) have returned, [g_results] holds, index by index, every
    combination of [g_combos] with the PnL of its backtest, and
    [g_doneCount] equals [g_totalCount]. *)
Theorem X19_worker_pool_results :
  forall ticks bids asks combos hw schedule st,
    Pool.pool_run ticks bids asks combos (Pool.pool_init combos hw) schedule
    = Some st ->
    let results := Pool.g_results (Pool.shared st) in
    let total := length combos in
    length results = total
    /\ (forall j, (j < total)%nat ->
          nth j results Pool.unset = Pool.unset
          \/ nth j results Pool.unset
             = Pool.evaluate ticks bids asks (nth j combos Pool.unset))
    /\ (Pool.g_nextIdx (Pool.shared st) <= total + hw)%nat
    /\ (Pool.g_doneCount (Pool.shared st) <= total)%nat
    /\ ((0 < hw)%nat ->
        forallb Pool.returned (Pool.workers st) = true ->
        results = map (Pool.evaluate ticks bids asks) combos
        /\ Pool.g_doneCount (Pool.shared st) = total).
Proof.
  intros ticks bids asks combos hw schedule st Hr results total.
  pose proof (PoolFacts.pool_inv_run ticks bids asks combos schedule _ _
                (PoolFacts.pool_inv_init ticks bids asks combos hw) Hr)
    as Hinv.
  pose proof (PoolFacts.pool_run_workers ticks bids asks combos schedule
                _ _ Hr) as Hlen.
  cbn [Pool.pool_init Pool.workers] in Hlen. rewrite repeat_length in Hlen.
  pose proof Hinv as (H1 & H2 & _ & _ & H5 & H6).
  pose proof (PoolFacts.sum_is_returned_le (Pool.workers st)) as Hle.
  unfold Pool.g_totalCount in *. fold total results in H1, H2, H5, H6.
  split; [exact H1|]. split; [exact H2|].
  split; [lia|]. split; [lia|].
  intros Hhw Hall.
  apply (PoolFacts.pool_inv_finished ticks bids asks combos st Hinv);
    [|exact Hall].
  intro E. rewrite E in Hlen. cbn in Hlen. lia.
Qed.

(** X19 on the sample run: two workers, interleaved at every access,
    leave both results in place. *)
Lemma X19_worker_pool_results_witness :
  Pool.g_results (Pool.shared PoolSamples.final_state)
  = map (Pool.evaluate (Samples.ticks_of Samples.series)
           (Samples.bids_of Samples.series) (Samples.asks_of Samples.series))
        PoolSamples.combos.
Proof.
  assert (E : PoolSamples.run PoolSamples.schedule
              = Some PoolSamples.final_state)
    by (vm_compute; reflexivity).
  refine (proj1 (proj2 (proj2 (proj2 (proj2
            (X19_worker_pool_results _ _ _ _ _ _ _ E)))) _ _)).
  - lia.
  - vm_compute. reflexivity.
Defined.

(** X20 (the worker pool terminates and cannot block).  Every step of
    every schedule uses up one unit of [work_left], which starts at four
    accesses per combination plus one last fetch per worker: no schedule is
    longer than [4 * g_totalCount + hw] steps, a worker that has not
    returned can always take its next step, and when no work is left every
    worker has returned. *)
Theorem X20_worker_pool_terminates :
  forall ticks bids asks combos hw schedule st,
    Pool.pool_run ticks bids asks combos (Pool.pool_init combos hw) schedule
    = Some st ->
    (length schedule + Pool.work_left combos st
     = 4 * length combos + hw)%nat
    /\ (Pool.work_left combos st = 0%nat ->
        forallb Pool.returned (Pool.workers st) = true)
    /\ (forall t w,
          nth_error (Pool.workers st) t = Some w ->
          Pool.returned w = false ->
          exists st', Pool.pool_step ticks bids asks combos st t = Some st').
Proof.
  intros ticks bids asks combos hw schedule st Hr.
  split; [|split].
  - rewrite (PoolFacts.work_left_run ticks bids asks combos schedule _ _ Hr).
    apply PoolFacts.work_left_init.
  - apply PoolFacts.work_left_zero.
  - intros t w. apply PoolFacts.worker_can_step.
Qed.

(** X20 on the sample run: its ten steps are all the work there is. *)
Lemma X20_worker_pool_terminates_witness :
  (length PoolSamples.schedule
   + Pool.work_left PoolSamples.combos PoolSamples.final_state
   = 4 * length PoolSamples.combos + 2)%nat.
Proof.
  assert (E : PoolSamples.run PoolSamples.schedule
              = Some PoolSamples.final_state)
    by (vm_compute; reflexivity).
  exact (proj1 (X20_worker_pool_terminates _ _ _ _ _ _ _ E)).
Defined.

(** ** The single-file grid search: the split of the grid among the
    threads *)

Module SplitFacts.
Import Split.

Lemma push_at_length {A} (wl : list (list A)) t x :
  length (push_at wl t x) = length wl.
Proof.
  revert t. induction wl as [|l wl IH]; intros [|t]; cbn; auto.
Qed.

Lemma push_at_nth {A} (wl : list (list A)) t t' (x : A) :
  (t' < length wl)%nat ->
  nth t (push_at wl t' x) []
  = if (t' =? t)%nat then nth t wl [] ++ [x] else nth t wl [].
Proof.
  revert t t'. induction wl as [|l wl IH]; intros t t' H; cbn in H; [lia|].
  destruct t' as [|t'], t as [|t]; cbn [push_at nth Nat.eqb]; auto.
  apply IH. lia.
Qed.

Lemma push_at_concat {A} (wl : list (list A)) t (x : A) :
  (t < length wl)%nat ->
  Permutation (concat (push_at wl t x)) (concat wl ++ [x]).
Proof.
  revert t. induction wl as [|l wl IH]; intros t H; cbn in H; [lia|].
  destruct t as [|t]; cbn [push_at concat].
  - rewrite <- !app_assoc. apply Permutation_app_head, Permutation_app_comm.
  - rewrite <- app_assoc. apply Permutation_app_head, IH. lia.
Qed.

Section Fold.
Context {A : Type} (n : nat) (Hn : (0 < n)%nat).

Local Abbreviation step :=
  (fun (wl : list (list A)) (ix : nat * A) =>
     push_at wl (fst ix mod n) (snd ix)).

Lemma fold_push_length (ixs : list (nat * A)) :
  forall wl, length (fold_left step ixs wl) = length wl.
Proof.
  induction ixs as [|ix ixs IH]; intro wl; cbn; [reflexivity|].
  rewrite IH. cbv beta. apply push_at_length.
Qed.

Lemma fold_push_nth (ixs : list (nat * A)) (t : nat) :
  forall wl,
    length wl = n ->
    nth t (fold_left step ixs wl) []
    = nth t wl []
      ++ map snd (filter (fun ix => (fst ix mod n =? t)%nat) ixs).
Proof.
  induction ixs as [|ix ixs IH]; intros wl Hl; cbn [fold_left filter map].
  - now rewrite app_nil_r.
  - rewrite IH by (rewrite push_at_length; exact Hl).
    rewrite push_at_nth
      by (rewrite Hl; apply Nat.mod_upper_bound; lia).
    destruct (fst ix mod n =? t)%nat; cbn [map];
      [now rewrite <- app_assoc | reflexivity].
Qed.

Lemma fold_push_concat (ixs : list (nat * A)) :
  forall wl,
    length wl = n ->
    Permutation (concat (fold_left step ixs wl)) (concat wl ++ map snd ixs).
Proof.
  induction ixs as [|ix ixs IH]; intros wl Hl; cbn [fold_left map].
  - now rewrite app_nil_r.
  - rewrite IH by (rewrite push_at_length; exact Hl).
    rewrite push_at_concat
      by (rewrite Hl; apply Nat.mod_upper_bound; lia).
    now rewrite <- app_assoc.
Qed.

End Fold.

Lemma concat_repeat_nil {A} (n : nat) : concat (repeat (@nil A) n) = [].
Proof. induction n; cbn; auto. Qed.

Lemma map_snd_combine_seq {A} (l : list A) (s : nat) :
  map snd (combine (seq s (length l)) l) = l.
Proof.
  revert s. induction l as [|x l IH]; intro s; cbn; [reflexivity|].
  now rewrite IH.
Qed.

End SplitFacts.

(** X21 (the split of the grid among the threads).  With at least one
    thread, the round-robin split makes [numThreads] workloads; workload [t]
    holds, in grid order, exactly the parameter sets whose index [i] has
    [i % numThreads = t]; and the workloads together hold every parameter
    set of the grid exactly once. *)
Theorem X21_round_robin_split :
  forall (A : Type) (numThreads : nat) (allParamSets : list A),
    (0 < numThreads)%nat ->
    let wl := Split.threadWorkloads numThreads allParamSets in
    length wl = numThreads
    /\ (forall t,
          nth t wl []
          = map snd
              (filter (fun ix => (fst ix mod numThreads =? t)%nat)
                 (combine (seq 0 (length allParamSets)) allParamSets)))
    /\ Permutation (concat wl) allParamSets.
Proof.
  intros A n all Hn wl. unfold wl, Split.threadWorkloads.
  split; [|split].
  - rewrite (SplitFacts.fold_push_length n). apply repeat_length.
  - intro t.
    rewrite (SplitFacts.fold_push_nth n Hn) by apply repeat_length.
    replace (nth t (repeat [] n) []) with (@nil A); [reflexivity|].
    symmetry. apply nth_repeat.
  - rewrite (SplitFacts.fold_push_concat n Hn) by apply repeat_length.
    rewrite SplitFacts.concat_repeat_nil, SplitFacts.map_snd_combine_seq.
    reflexivity.
Qed.

(** X21 on five parameter sets and two threads. *)
Lemma X21_round_robin_split_witness :
  nth 1 (Split.threadWorkloads 2 [10; 11; 12; 13; 14]) [] = [11; 13].
Proof.
  refine (eq_trans
            (proj1 (proj2 (X21_round_robin_split Z 2 [10; 11; 12; 13; 14] _))
                   1%nat) _).
  - lia.
  - reflexivity.
Defined.

(** ** The first fuzzer of the single file *)

Lemma naive_int_counter (fuel : nat) :
  (8 <= fuel)%nat ->
  NaiveFuzzer.counter_values fuel (-3)%float 3%float 1%float
  = [-3; -2; -1; 0; 1; 2; 3]%float.
Proof.
  intro H. replace fuel with (8 + (fuel - 8))%nat by lia.
  generalize (fuel - 8)%nat. intro f. vm_compute. reflexivity.
Qed.

Lemma naive_double_counter (fuel : nat) :
  (22 <= fuel)%nat ->
  NaiveFuzzer.counter_values fuel (-3)%float 3%float 0.3%float
  = NaiveFuzzer.counter_values 22 (-3)%float 3%float 0.3%float.
Proof.
  intro H. replace fuel with (22 + (fuel - 22))%nat by lia.
  generalize (fuel - 22)%nat. intro f. vm_compute. reflexivity.
Qed.

(** X22 (the first fuzzer of the single file).  Its counter loops end:
    with enough fuel the integer loop takes the 7 values -3 .. 3 and the
    loop stepped by 0.3 takes 21 values, the last of them just below 3
    (rounding never carries the counter past 3 before the 21st value).  So
    for every base value [fuzzIntParam] returns 7 candidates, all at least 1,
    [fuzzDoubleParam] returns 21, and the grid built from them has
    [7 * 7 * 21 * 21 = 21609] combinations. *)
Theorem X22_naive_fuzzer_counts :
  forall (fuel : nat) (baseSW baseWP : Z) (baseHSX baseMAT : double),
    (22 <= fuel)%nat ->
    NaiveFuzzer.counter_values fuel (-3)%float 3%float 1%float
    = [-3; -2; -1; 0; 1; 2; 3]%float
    /\ length (NaiveFuzzer.counter_values fuel (-3)%float 3%float 0.3%float)
       = 21%nat
    /\ dlt (last (NaiveFuzzer.counter_values fuel (-3)%float 3%float
                    0.3%float) 0%float) 3 = true
    /\ length (NaiveFuzzer.fuzzIntParam fuel baseSW) = 7%nat
    /\ Forall (fun v => 1 <= v) (NaiveFuzzer.fuzzIntParam fuel baseSW)
    /\ length (NaiveFuzzer.fuzzDoubleParam fuel baseHSX) = 21%nat
    /\ length (Fuzzer.build_combos
                 (NaiveFuzzer.fuzzIntParam fuel baseSW)
                 (NaiveFuzzer.fuzzIntParam fuel baseWP)
                 (NaiveFuzzer.fuzzDoubleParam fuel baseHSX)
                 (NaiveFuzzer.fuzzDoubleParam fuel baseMAT)) = (7 * 7 * 21 * 21)%nat.
Proof.
  intros fuel baseSW baseWP baseHSX baseMAT H.
  assert (Hi : forall b, length (NaiveFuzzer.fuzzIntParam fuel b) = 7%nat).
  { intro b. unfold NaiveFuzzer.fuzzIntParam.
    rewrite std_sort_length, length_map, naive_int_counter by lia.
    reflexivity. }
  assert (Hd : forall b, length (NaiveFuzzer.fuzzDoubleParam fuel b)
                         = 21%nat).
  { intro b. unfold NaiveFuzzer.fuzzDoubleParam.
    rewrite std_sort_length, length_map, naive_double_counter by lia.
    reflexivity. }
  split; [apply naive_int_counter; lia|].
  split; [rewrite naive_double_counter by lia; reflexivity|].
  split; [rewrite naive_double_counter by lia; reflexivity|].
  split; [apply Hi|]. split; [|split; [apply Hd|]].
  - unfold NaiveFuzzer.fuzzIntParam.
    eapply Permutation_Forall; [apply FuzzerFacts.std_sort_perm|].
    apply Forall_map, Forall_forall. intros i _. cbv zeta.
    destruct (Z.ltb_spec (Fuzzer.round_to_int
      (Z2d baseSW * ((100.0 + i) / 100.0))) 1); lia.
  - rewrite build_combos_length, !Hi, !Hd. reflexivity.
Qed.

(** X22 with fuel 100 and the base values of the first [main]. *)
Lemma X22_naive_fuzzer_counts_witness :
  length (NaiveFuzzer.fuzzDoubleParam 100 0.015%float) = 21%nat.
Proof.
  refine (proj1 (proj2 (proj2 (proj2 (proj2 (proj2
            (X22_naive_fuzzer_counts 100 83 76 0.015%float 0.650%float
               _))))))).
  lia.
Defined.

(** ** Backtester.cpp: the scan for the entry of a trade *)

(** X23 (the entry index of a closed trade).  The backward scan over
    [position_log] returns -1 when none of the first [n] logged positions is
    0, and otherwise the index just after the last logged position that is
    0: every position logged from that index on is non-zero. *)
Theorem X23_entry_index_scan :
  forall (log : list Z) (n : nat),
    let r := Try2.entry_index_scan log n in
    (r = -1
     /\ forall j, 0 <= j < Z.of_nat n -> at_ 0 log j <> 0)
    \/ (1 <= r <= Z.of_nat n
        /\ at_ 0 log (r - 1) = 0
        /\ forall j, r <= j < Z.of_nat n -> at_ 0 log j <> 0).
Proof.
  intros log n. induction n as [|n IH]; cbn [Try2.entry_index_scan].
  - left. split; [reflexivity | intros; lia].
  - destruct (Z.eqb_spec (at_ 0 log (Z.of_nat n)) 0) as [E|E].
    + right. split; [lia|].
      split; [replace (Z.of_nat n + 1 - 1) with (Z.of_nat n) by lia; exact E|].
      intros; lia.
    + cbv zeta in IH.
      destruct IH as [(-> & Hall) | (Hr & Hz & Hall)].
      * left. split; [reflexivity|]. intros j Hj.
        destruct (Z.eq_dec j (Z.of_nat n)) as [->|]; [exact E|].
        apply Hall. lia.
      * right. split; [lia|]. split; [exact Hz|]. intros j Hj.
        destruct (Z.eq_dec j (Z.of_nat n)) as [->|]; [exact E|].
        apply Hall. lia.
Qed.

(** * The sweeps: the ranking of the results *)

(** ** The rankings *)

(** [<] on doubles is asymmetric and transitive, NaN included. *)
Lemma SFcompare_lt_asym (x y : spec_float) :
  SFcompare x y = Some Lt -> SFcompare y x = Some Gt.
Proof.
  destruct x as [sx|sx| |sx mx ex], y as [sy|sy| |sy my ey]; cbn;
    try discriminate;
    try (destruct sx); try (destruct sy); cbn; try discriminate;
    try reflexivity;
    rewrite (Z.compare_antisym ex ey);
    change (Pos.compare_cont Eq mx my) with (Pos.compare mx my);
    change (Pos.compare_cont Eq my mx) with (Pos.compare my mx);
    rewrite (Pos.compare_antisym mx my);
    destruct (ex ?= ey); cbn; try discriminate; try reflexivity;
    destruct (mx ?= my)%positive; cbn; try discriminate; reflexivity.
Qed.

Lemma float_ltb_asym (x y : float) :
  PrimFloat.ltb x y = true -> PrimFloat.ltb y x = false.
Proof.
  rewrite !FloatAxioms.ltb_spec. unfold SFltb.
  destruct (SFcompare (Prim2SF x) (Prim2SF y)) as [[]|] eqn:E;
    try discriminate.
  intros _. rewrite (SFcompare_lt_asym _ _ E). reflexivity.
Qed.

Lemma SFcompare_lt_trans (x y z : spec_float) :
  SFcompare x y = Some Lt -> SFcompare y z = Some Lt ->
  SFcompare x z = Some Lt.
Proof.
  destruct x as [sx|sx| |sx mx ex], y as [sy|sy| |sy my ey],
           z as [sz|sz| |sz mz ez]; cbn;
    try discriminate;
    try (destruct sx); try (destruct sy); try (destruct sz); cbn;
    try discriminate; try reflexivity;
    change (Pos.compare_cont Eq mx my) with (Pos.compare mx my);
    change (Pos.compare_cont Eq my mz) with (Pos.compare my mz);
    change (Pos.compare_cont Eq mx mz) with (Pos.compare mx mz);
    destruct (Z.compare_spec ex ey), (Z.compare_spec ey ez),
             (Z.compare_spec ex ez);
    try discriminate; try reflexivity; try lia;
    destruct (Pos.compare_spec mx my), (Pos.compare_spec my mz),
             (Pos.compare_spec mx mz);
    cbn; try discriminate; try reflexivity; lia.
Qed.

Lemma float_ltb_trans (x y z : float) :
  PrimFloat.ltb x y = true -> PrimFloat.ltb y z = true ->
  PrimFloat.ltb x z = true.
Proof.
  rewrite !FloatAxioms.ltb_spec. unfold SFltb.
  destruct (SFcompare (Prim2SF x) (Prim2SF y)) as [[]|] eqn:E1;
    try discriminate.
  destruct (SFcompare (Prim2SF y) (Prim2SF z)) as [[]|] eqn:E2;
    try discriminate.
  intros _ _. rewrite (SFcompare_lt_trans _ _ _ E1 E2). reflexivity.
Qed.

Module RankingFacts.
Import Ranking.

Section Order.
Context {A : Type} (comp : A -> A -> bool).
Hypothesis comp_asym : forall a b, comp a b = true -> comp b a = false.
Hypothesis comp_trans :
  forall a b c, comp a b = true -> comp b c = true -> comp a c = true.

Lemma no_ties_strict_on (l : list A) : no_ties comp l -> strict_on comp l.
Proof.
  unfold no_ties, strict_on. induction 1 as [|a l Ha Hl [IH1 IH2]].
  - split; [constructor|]. intros x y [].
  - rewrite Forall_forall in Ha. split.
    + constructor; [|exact IH1]. intro Hin.
      destruct (Ha a Hin) as [E|E]; rewrite (comp_asym _ _ E) in E;
        discriminate.
    + intros x y [<-|Hx] [<-|Hy]; auto.
      destruct (Ha x Hx); auto.
Qed.

Lemma strict_on_perm (l l' : list A) :
  Permutation l l' -> strict_on comp l -> strict_on comp l'.
Proof.
  intros Hp [Hn Ht]. split.
  - eapply Permutation_NoDup; eassumption.
  - intros x y Hx Hy.
    apply Ht; eapply Permutation_in; try eassumption;
      now apply Permutation_sym.
Qed.

Lemma strict_on_incl (l l' : list A) :
  strict_on comp l -> NoDup l' -> incl l' l -> strict_on comp l'.
Proof.
  intros [_ Ht] Hn Hi. split; [exact Hn|].
  intros x y Hx Hy. apply Ht; apply Hi; assumption.
Qed.

Lemma strict_on_app_l (a b : list A) :
  strict_on comp (a ++ b) -> strict_on comp a.
Proof.
  intros H. apply (strict_on_incl _ _ H).
  - destruct H as [Hn _]. now apply NoDup_app_remove_r in Hn.
  - intros x Hx. apply in_or_app. now left.
Qed.

Lemma strict_on_tail (x : A) (l : list A) :
  strict_on comp (x :: l) -> strict_on comp l.
Proof.
  intros H. apply (strict_on_incl _ _ H).
  - destruct H as [Hn _]. now inversion Hn.
  - intros y Hy. now right.
Qed.

Lemma stable_insert_perm (x : A) (l : list A) :
  Permutation (x :: l) (stable_insert comp x l).
Proof.
  induction l as [|y l IH]; [reflexivity|].
  cbn [stable_insert]. destruct (comp y x); [|reflexivity].
  rewrite perm_swap. now constructor.
Qed.

Lemma stable_sort_perm (l : list A) :
  Permutation l (stable_sort comp l).
Proof.
  induction l as [|x l IH]; [reflexivity|].
  cbn [stable_sort fold_right]. fold (stable_sort comp l).
  rewrite <- stable_insert_perm. now constructor.
Qed.

Lemma stable_insert_sorted (x : A) (l : list A) :
  strict_on comp (x :: l) -> sorted_by comp l ->
  sorted_by comp (stable_insert comp x l).
Proof.
  unfold sorted_by. intros Hs Hl. induction Hl as [|y l Hl IH Hy].
  - repeat constructor.
  - cbn [stable_insert]. destruct (comp y x) eqn:E.
    + constructor.
      * apply IH. apply (strict_on_incl _ _ Hs).
        -- destruct Hs as [Hn _]. inversion Hn as [|? ? Hx Hn']. subst.
           inversion Hn'. subst. constructor; [|assumption].
           intro Hin. apply Hx. now right.
        -- intros z [<-|Hz]; [now left | right; now right].
      * eapply Permutation_Forall; [apply stable_insert_perm|].
        constructor; [now apply comp_asym | exact Hy].
    + constructor; [now constructor|].
      constructor; [exact E|].
      rewrite Forall_forall in Hy |- *. intros z Hz.
      destruct Hs as [Hn Ht].
      assert (Hxy : comp x y = true).
      { destruct (Ht x y) as [->|[H|H]]; try (now left); try (right; now left);
          [|exact H | congruence].
        inversion Hn as [|? ? Hx _]. exfalso. apply Hx. now left. }
      assert (Hyz : comp y z = true).
      { destruct (Ht y z) as [->|[H|H]];
          try (right; now left); try (right; now right);
          [|exact H | rewrite (Hy z Hz) in H; discriminate].
        inversion Hn as [|? ? _ Hn']. inversion Hn' as [|? ? Hyl _].
        exfalso. now apply Hyl. }
      apply comp_asym. eapply comp_trans; eassumption.
Qed.

Lemma stable_sort_sorted (l : list A) :
  strict_on comp l -> sorted_by comp (stable_sort comp l).
Proof.
  induction l as [|x l IH]; intro Hs; [constructor|].
  cbn [stable_sort fold_right]. fold (stable_sort comp l).
  apply stable_insert_sorted.
  - apply (strict_on_perm (x :: l)); [|exact Hs].
    constructor. apply stable_sort_perm.
  - apply IH. eapply strict_on_tail; eassumption.
Qed.

(** Without ties there is one sorted arrangement. *)
Lemma sorted_unique (l1 : list A) :
  forall l2,
    strict_on comp l1 -> Permutation l1 l2 ->
    sorted_by comp l1 -> sorted_by comp l2 -> l1 = l2.
Proof.
  unfold sorted_by.
  induction l1 as [|a t1 IH]; intros l2 Hs Hp H1 H2.
  - apply Permutation_nil in Hp. now subst.
  - destruct l2 as [|b t2];
      [apply Permutation_sym, Permutation_nil in Hp; discriminate|].
    assert (E : a = b).
    { destruct Hs as [_ Ht].
      destruct (Ht a b) as [E|[E|E]]; [now left | | exact E | |].
      - eapply Permutation_in; [apply Permutation_sym; exact Hp | now left].
      - (* a before b: but b heads l2, which contains a *)
        assert (Hin : In a (b :: t2))
          by (eapply Permutation_in; [exact Hp | now left]).
        destruct Hin as [<-|Hin]; [reflexivity|].
        inversion H2 as [|? ? _ Hb]. subst.
        rewrite Forall_forall in Hb. rewrite (Hb a Hin) in E. discriminate.
      - assert (Hin : In b (a :: t1))
          by (eapply Permutation_in;
              [apply Permutation_sym; exact Hp | now left]).
        destruct Hin as [<-|Hin]; [reflexivity|].
        inversion H1 as [|? ? _ Ha]. subst.
        rewrite Forall_forall in Ha. rewrite (Ha b Hin) in E. discriminate. }
    subst b. f_equal. apply IH.
    + eapply strict_on_tail; eassumption.
    + eapply Permutation_cons_inv; eassumption.
    + now inversion H1.
    + now inversion H2.
Qed.

Lemma sort_outcome_unique (v out : list A) :
  strict_on comp v -> sort_outcome comp v out -> out = stable_sort comp v.
Proof.
  intros Hs [Hp Ho]. apply sorted_unique.
  - eapply strict_on_perm; eassumption.
  - rewrite <- Hp. apply stable_sort_perm.
  - exact Ho.
  - now apply stable_sort_sorted.
Qed.

(** Some element has nothing before it. *)
Lemma first_exists (l : list A) :
  l <> [] ->
  exists x, In x l /\ Forall (fun y => comp y x = false) l.
Proof.
  induction l as [|h t IH]; [congruence|]. intros _.
  assert (Hh : comp h h = false).
  { destruct (comp h h) eqn:E; [|reflexivity].
    now rewrite (comp_asym _ _ E) in E. }
  destruct t as [|h' t'].
  - exists h. split; [now left|]. now repeat constructor.
  - destruct (IH ltac:(discriminate)) as (m & Hm & Hall).
    destruct (comp h m) eqn:E.
    + exists h. split; [now left|]. constructor; [exact Hh|].
      rewrite Forall_forall in Hall |- *. intros y Hy.
      destruct (comp y h) eqn:Ey; [|reflexivity].
      rewrite <- (Hall y Hy). symmetry. eapply comp_trans; eassumption.
    + exists m. split; [now right|]. constructor; assumption.
Qed.

(** [std::sort] has an outcome on every input. *)
Lemma sort_outcome_exists (v : list A) :
  exists out, sort_outcome comp v out.
Proof.
  remember (length v) as n eqn:Hn. revert v Hn.
  induction n as [|n IH]; intros v Hn.
  - destruct v; [|discriminate]. exists []. split; constructor.
  - destruct v as [|a v0] eqn:Ev; [discriminate|]. rewrite <- Ev in *.
    destruct (first_exists v ltac:(subst; discriminate)) as (x & Hx & Hall).
    destruct (in_split _ _ Hx) as (l1 & l2 & E).
    assert (Hp : Permutation v (x :: l1 ++ l2))
      by (rewrite E; apply Permutation_sym, Permutation_middle).
    destruct (IH (l1 ++ l2)) as (out & Hpo & Hso).
    { apply Permutation_length in Hp. cbn in Hp. lia. }
    exists (x :: out). split.
    + rewrite Hp. now constructor.
    + constructor; [exact Hso|].
      eapply Permutation_Forall; [exact Hpo|].
      rewrite Forall_forall in Hall |- *. intros y Hy. apply Hall.
      eapply Permutation_in; [apply Permutation_sym; exact Hp | now right].
Qed.

Lemma stable_sort_outcome (v : list A) :
  strict_on comp v -> sort_outcome comp v (stable_sort comp v).
Proof.
  intro Hs. split; [apply stable_sort_perm | now apply stable_sort_sorted].
Qed.

End Order.

Section Lists.
Context {A : Type} (comp : A -> A -> bool).

Lemma firstn_incl (k : nat) (l : list A) : incl (firstn k l) l.
Proof.
  intros x Hx. rewrite <- (firstn_skipn k l). apply in_or_app. now left.
Qed.

Lemma sorted_by_firstn (k : nat) (l : list A) :
  sorted_by comp l -> sorted_by comp (firstn k l).
Proof.
  unfold sorted_by. intro H. revert k.
  induction H as [|a l Hl IH Ha]; intros [|k]; cbn; try constructor.
  - apply IH.
  - rewrite Forall_forall in Ha |- *. intros x Hx.
    apply Ha. eapply firstn_incl; eassumption.
Qed.

Lemma sorted_by_app (a b : list A) :
  sorted_by comp a -> sorted_by comp b ->
  (forall x y, In x a -> In y b -> comp y x = false) ->
  sorted_by comp (a ++ b).
Proof.
  unfold sorted_by. intros Ha Hb Hab.
  induction Ha as [|x a Ha IH Hx]; [exact Hb|].
  cbn. constructor.
  - apply IH. intros u v Hu Hv. apply Hab; [now right | exact Hv].
  - apply Forall_app. split; [exact Hx|].
    rewrite Forall_forall. intros y Hy. apply Hab; [now left | exact Hy].
Qed.

(** The first [k] elements after an insertion depend only on the first
    [k] elements before it. *)
Lemma firstn_stable_insert (x : A) (k : nat) :
  forall l,
    firstn k (stable_insert comp x l)
    = firstn k (stable_insert comp x (firstn k l)).
Proof.
  induction k as [|k IH]; intros l; [reflexivity|].
  destruct l as [|y t]; [reflexivity|].
  cbn [firstn stable_insert]. destruct (comp y x).
  - cbn [firstn]. now rewrite IH.
  - cbn [firstn]. f_equal. destruct k as [|k']; [reflexivity|].
    rewrite !firstn_cons. f_equal. rewrite firstn_firstn.
    f_equal. lia.
Qed.

End Lists.
End RankingFacts.

(** ** FuzzerMain.cpp: the results at the final report *)

Module ReportFacts.
Import Fuzzer Pool Report.

(** Once the done counter has reached the number of combinations, every
    result is in place, whatever the workers are doing. *)
Lemma pool_done_results ticks bids asks combos st :
  Pool.pool_inv ticks bids asks combos st ->
  (length combos <= g_doneCount (shared st))%nat ->
  g_results (shared st) = map (evaluate ticks bids asks) combos.
Proof.
  intros (Hlen & _ & Hdone & _ & Hfl & _) Hd.
  unfold g_totalCount in *.
  assert (Hz : sum_over in_flight (workers st) = 0%nat) by lia.
  assert (Hn : (length combos <= g_nextIdx (shared st))%nat) by lia.
  apply (nth_ext _ _ unset unset).
  - rewrite length_map. exact Hlen.
  - intros j Hj. rewrite Hlen in Hj.
    rewrite (nth_indep (map _ _) unset (evaluate ticks bids asks unset))
      by (rewrite length_map; exact Hj).
    rewrite map_nth.
    destruct (Hdone j Hj ltac:(lia)) as [Hr | (t & w & E & Hh)];
      [exact Hr|].
    pose proof (PoolFacts.sum_over_zero in_flight _ _ _ Hz E) as H0.
    destruct Hh as [-> | ->]; discriminate.
Qed.

Lemma not_all_returned (ws : list Worker) :
  forallb returned ws = false ->
  exists t w, nth_error ws t = Some w /\ returned w = false.
Proof.
  induction ws as [|w ws IH]; cbn; [discriminate|].
  destruct (returned w) eqn:E; cbn.
  - intro H. destruct (IH H) as (t & w' & Ht & Hw).
    now exists (S t), w'.
  - intros _. now exists 0%nat, w.
Qed.

(** From every state some schedule lets every worker return. *)
Lemma pool_run_exists ticks bids asks combos :
  forall k st,
    work_left combos st = k ->
    exists schedule st',
      pool_run ticks bids asks combos st schedule = Some st'
      /\ forallb returned (workers st') = true.
Proof.
  induction k as [|k IH]; intros st Hk.
  - exists [], st. split; [reflexivity|].
    now apply (PoolFacts.work_left_zero combos).
  - destruct (forallb returned (workers st)) eqn:E.
    + exists [], st. now split.
    + destruct (not_all_returned _ E) as (t & w & Ht & Hw).
      destruct (PoolFacts.worker_can_step ticks bids asks combos st t w
                  Ht Hw) as (st1 & Hs).
      pose proof (PoolFacts.work_left_step ticks bids asks combos _ _ _ Hs)
        as Hl.
      destruct (IH st1 ltac:(lia)) as (schedule & st' & Hr & Hall).
      exists (t :: schedule), st'. cbn [pool_run]. rewrite Hs. now split.
Qed.

(** With at least one worker some schedule completes the sweep. *)
Lemma pool_complete_run ticks bids asks combos hw :
  (0 < hw)%nat ->
  exists schedule st,
    pool_run ticks bids asks combos (pool_init combos hw) schedule = Some st
    /\ (length combos <= g_doneCount (shared st))%nat.
Proof.
  intro Hhw.
  destruct (pool_run_exists ticks bids asks combos _ (pool_init combos hw)
              eq_refl) as (schedule & st & Hr & Hall).
  exists schedule, st. split; [exact Hr|].
  pose proof (PoolFacts.pool_inv_run ticks bids asks combos schedule _ _
                (PoolFacts.pool_inv_init ticks bids asks combos hw) Hr)
    as Hinv.
  pose proof (PoolFacts.pool_run_workers ticks bids asks combos schedule
                _ _ Hr) as Hlen.
  cbn [pool_init workers] in Hlen. rewrite repeat_length in Hlen.
  destruct (PoolFacts.pool_inv_finished ticks bids asks combos st Hinv)
    as [_ Hd]; [|exact Hall|].
  - intro E. rewrite E in Hlen. cbn in Hlen. lia.
  - unfold g_totalCount in Hd. lia.
Qed.

Lemma firstn_topCount (l : list ParamResult) :
  firstn (topCount l) l = firstn 3 l.
Proof.
  unfold topCount. destruct (Nat.le_gt_cases (length l) 3) as [H|H].
  - rewrite Nat.min_l by exact H. rewrite firstn_all.
    symmetry. now apply firstn_all2.
  - rewrite Nat.min_r by lia. reflexivity.
Qed.

Lemma by_pnl_desc_asym (a b : ParamResult) :
  by_pnl_desc a b = true -> by_pnl_desc b a = false.
Proof. unfold by_pnl_desc, dgt. apply float_ltb_asym. Qed.

Lemma by_pnl_desc_trans (a b c : ParamResult) :
  by_pnl_desc a b = true -> by_pnl_desc b c = true ->
  by_pnl_desc a c = true.
Proof.
  unfold by_pnl_desc, dgt. intros H1 H2.
  eapply float_ltb_trans; eassumption.
Qed.

End ReportFacts.

(** ** The single-file grid search: the queue of the best results *)

Lemma filter_perm {A} (f : A -> bool) (l l' : list A) :
  Permutation l l' -> Permutation (filter f l) (filter f l').
Proof.
  induction 1 as [|x l l' H IH|x y l|l l' l'' H1 IH1 H2 IH2]; cbn.
  - constructor.
  - destruct (f x); [now constructor | exact IH].
  - destruct (f x), (f y); try reflexivity. apply perm_swap.
  - eapply perm_trans; eassumption.
Qed.

Lemma concat_set_nth_tail {A} (wl : list (list A)) :
  forall t x rest,
    nth_error wl t = Some (x :: rest) ->
    Permutation (concat wl) (x :: concat (set_nth wl t rest)).
Proof.
  induction wl as [|l wl IH]; intros [|t] x rest H; cbn in H;
    try discriminate.
  - injection H as ->. reflexivity.
  - cbn [set_nth concat]. rewrite (IH t x rest H).
    apply Permutation_sym, Permutation_middle.
Qed.

Lemma concat_all_nil {A} (wl : list (list A)) :
  Forall (fun l => l = []) wl -> concat wl = [].
Proof.
  induction 1 as [|l wl -> _ IH]; [reflexivity|]. exact IH.
Qed.

Lemma threadWorkloads_perm {A} (numThreads : nat) (all : list A) :
  (0 < numThreads)%nat ->
  Permutation (concat (Split.threadWorkloads numThreads all)) all.
Proof.
  intro Hn. unfold Split.threadWorkloads.
  rewrite (SplitFacts.fold_push_concat numThreads Hn)
    by apply repeat_length.
  rewrite SplitFacts.concat_repeat_nil, SplitFacts.map_snd_combine_seq.
  reflexivity.
Qed.

Module GridPoolFacts.
Import GridSearch GridPool Ranking RankingFacts.

Lemma gp_by_pnl_desc_asym (a b : ParameterSet) :
  by_pnl_desc a b = true -> by_pnl_desc b a = false.
Proof. unfold by_pnl_desc, dgt. apply float_ltb_asym. Qed.

Lemma gp_by_pnl_desc_trans (a b c : ParameterSet) :
  by_pnl_desc a b = true -> by_pnl_desc b c = true ->
  by_pnl_desc a c = true.
Proof.
  unfold by_pnl_desc, dgt. intros H1 H2.
  eapply float_ltb_trans; eassumption.
Qed.

Local Abbreviation ssort := (stable_sort by_pnl_desc).
Local Abbreviation strict := (strict_on by_pnl_desc).
Local Abbreviation sorted := (sorted_by by_pnl_desc).
Local Abbreviation best10 := (fun l => firstn 10 (stable_sort by_pnl_desc l)).

Lemma pops_perm n q out rest :
  pops n q out rest -> Permutation q (out ++ rest).
Proof.
  induction 1 as [q | n | n q x q' out rest _ Hp _ IH]; cbn;
    try reflexivity.
  rewrite Hp. now constructor.
Qed.

Lemma pops_length n q out rest :
  pops n q out rest -> length out = Nat.min n (length q).
Proof.
  induction 1 as [q | n | n q x q' out rest _ Hp _ IH]; cbn;
    try reflexivity.
  rewrite (Permutation_length Hp). cbn. now rewrite IH.
Qed.

(** The elements popped come out in descending order, and none of those
    left is above any of them. *)
Lemma pops_sorted n q out rest :
  pops n q out rest ->
  sorted out
  /\ (forall x y, In x out -> In y rest -> by_pnl_desc y x = false).
Proof.
  induction 1 as [q | n | n q x q' out rest [_ Ht] Hp Hq [IH1 IH2]].
  - split; [constructor | intros x y []].
  - split; [constructor | intros x y []].
  - rewrite Forall_forall in Ht.
    assert (Hx : forall y, In y (out ++ rest) -> by_pnl_desc y x = false).
    { intros y Hy. apply (Ht y).
      eapply Permutation_in; [apply Permutation_sym; exact Hp|].
      right. eapply Permutation_in;
        [apply Permutation_sym, (pops_perm _ _ _ _ Hq) | exact Hy]. }
    split.
    + constructor; [exact IH1|]. rewrite Forall_forall.
      intros y Hy. apply Hx, in_or_app. now left.
    + intros a b [<-|Ha] Hb; [|now apply IH2].
      apply Hx, in_or_app. now right.
Qed.

(** Without ties, the elements popped are the first of the sorted
    queue. *)
Lemma pops_best n q out rest :
  strict q -> pops n q out rest -> (n <= length q)%nat ->
  out = firstn n (ssort q).
Proof.
  intros Hs Hp Hn.
  pose proof (pops_perm _ _ _ _ Hp) as Hperm.
  pose proof (pops_length _ _ _ _ Hp) as Hlen.
  destruct (pops_sorted _ _ _ _ Hp) as [Hso Hcross].
  assert (Hsr : strict (out ++ rest))
    by (eapply strict_on_perm; eassumption).
  assert (E : out ++ ssort rest = ssort q).
  { apply (sorted_unique by_pnl_desc).
    - apply (strict_on_perm _ (out ++ rest)); [|exact Hsr].
      apply Permutation_app_head, stable_sort_perm.
    - rewrite <- (stable_sort_perm by_pnl_desc rest), <- Hperm.
      apply stable_sort_perm.
    - apply sorted_by_app; [exact Hso | |].
      + apply (stable_sort_sorted _ gp_by_pnl_desc_asym
                 gp_by_pnl_desc_trans).
        apply (strict_on_incl _ _ _ Hsr).
        * destruct Hsr as [Hnd _]. now apply NoDup_app_remove_l in Hnd.
        * intros y Hy. apply in_or_app. now right.
      + intros x y Hx Hy. apply Hcross; [exact Hx|].
        eapply Permutation_in;
          [apply Permutation_sym, stable_sort_perm | exact Hy].
    - now apply (stable_sort_sorted _ gp_by_pnl_desc_asym
                   gp_by_pnl_desc_trans). }
  rewrite <- E.
  replace n with (length out + 0)%nat by lia.
  rewrite firstn_app_2. cbn. now rewrite app_nil_r.
Qed.

Lemma NoDup_firstn {A} (k : nat) (l : list A) :
  NoDup l -> NoDup (firstn k l).
Proof.
  intro H. rewrite <- (firstn_skipn k l) in H.
  now apply NoDup_app_remove_r in H.
Qed.

Lemma strict_best10 x processed :
  strict (x :: processed) -> strict (x :: best10 processed).
Proof.
  intro Hs. apply (strict_on_incl _ _ _ Hs).
  - destruct Hs as [Hn _]. inversion Hn as [|? ? Hx Hn']. subst.
    constructor.
    + intro Hin. apply Hx.
      eapply Permutation_in;
        [apply Permutation_sym, (stable_sort_perm by_pnl_desc)|].
      eapply firstn_incl; eassumption.
    + apply NoDup_firstn.
      eapply Permutation_NoDup; [apply stable_sort_perm | exact Hn'].
  - intros y [<-|Hy]; [now left | right].
    eapply Permutation_in;
      [apply Permutation_sym, (stable_sort_perm by_pnl_desc)|].
    eapply firstn_incl; eassumption.
Qed.

(** A push keeps the ten best, when nothing ties. *)
Lemma pushed_best q x q' processed :
  strict (x :: processed) ->
  Permutation q (best10 processed) ->
  pushed q x q' ->
  Permutation q' (best10 (x :: processed)).
Proof.
  intros Hs Hq Hp. unfold pushed in Hp.
  pose proof (strict_best10 _ _ Hs) as Hsb.
  assert (Hsq : strict (x :: q)).
  { apply (strict_on_perm _ (x :: best10 processed)); [|exact Hsb].
    constructor. now apply Permutation_sym. }
  destruct (Nat.ltb_spec 10 (length (x :: q))) as [Hl|Hl].
  - destruct Hp as (out & rest & Hpops & Hout).
    rewrite <- Hout.
    rewrite (pops_best _ _ _ _ Hsq Hpops) by lia.
    assert (E : ssort (x :: q)
                = stable_insert by_pnl_desc x (best10 processed)).
    { apply (sorted_unique by_pnl_desc).
      - apply (strict_on_perm _ (x :: q)); [|exact Hsq].
        apply stable_sort_perm.
      - rewrite <- (stable_sort_perm by_pnl_desc (x :: q)).
        rewrite <- stable_insert_perm. now constructor.
      - now apply (stable_sort_sorted _ gp_by_pnl_desc_asym
                     gp_by_pnl_desc_trans).
      - apply (stable_insert_sorted _ gp_by_pnl_desc_asym
                 gp_by_pnl_desc_trans); [exact Hsb|].
        apply sorted_by_firstn.
        apply (stable_sort_sorted _ gp_by_pnl_desc_asym
                 gp_by_pnl_desc_trans).
        eapply strict_on_tail; eassumption. }
    rewrite E. rewrite <- firstn_stable_insert. reflexivity.
  - rewrite <- Hp.
    assert (Hlq : length q = Nat.min 10 (length processed)).
    { rewrite (Permutation_length Hq), length_firstn.
      now rewrite <- (Permutation_length
                        (stable_sort_perm by_pnl_desc processed)). }
    cbn [length] in Hl.
    rewrite firstn_all2.
    + rewrite <- (stable_sort_perm by_pnl_desc (x :: processed)).
      constructor. rewrite Hq. rewrite firstn_all2.
      * apply Permutation_sym, stable_sort_perm.
      * rewrite <- (Permutation_length
                      (stable_sort_perm by_pnl_desc processed)). lia.
    + rewrite <- (Permutation_length
                    (stable_sort_perm by_pnl_desc (x :: processed))).
      cbn [length]. lia.
Qed.

Lemma pops_exists n : forall q, exists out rest, pops n q out rest.
Proof.
  induction n as [|n IH]; intro q.
  - exists [], q. constructor.
  - destruct q as [|a q0] eqn:Eq; [exists [], []; constructor|].
    rewrite <- Eq.
    destruct (first_exists by_pnl_desc gp_by_pnl_desc_asym
                gp_by_pnl_desc_trans q ltac:(subst; discriminate))
      as (x & Hx & Hall).
    destruct (in_split _ _ Hx) as (l1 & l2 & E).
    destruct (IH (l1 ++ l2)) as (out & rest & Hp).
    exists (x :: out), rest.
    apply (pops_next n q x (l1 ++ l2)); [split; assumption | | exact Hp].
    rewrite E. apply Permutation_sym, Permutation_middle.
Qed.

Lemma pushed_exists q x : exists q', pushed q x q'.
Proof.
  unfold pushed. destruct (10 <? length (x :: q))%nat.
  - destruct (pops_exists 10 (x :: q)) as (out & rest & Hp).
    exists out, out, rest. now split.
  - now exists (x :: q).
Qed.

Lemma nonempty_workload {A} (wl : list (list A)) :
  concat wl <> [] -> exists t p rest, nth_error wl t = Some (p :: rest).
Proof.
  induction wl as [|l wl IH]; cbn; [congruence|].
  destruct l as [|p rest].
  - intro H. destruct (IH H) as (t & p & rest & E).
    now exists (S t), p, rest.
  - intros _. now exists 0%nat, p, rest.
Qed.

Lemma concat_nil_all {A} (wl : list (list A)) :
  concat wl = [] -> Forall (fun l => l = []) wl.
Proof.
  induction wl as [|l wl IH]; cbn; [constructor|].
  intro H. apply app_eq_nil in H. destruct H as [-> H].
  constructor; [reflexivity | now apply IH].
Qed.

(** When no parameter set is skipped, the threads can run to the end of
    their workloads, and [completedTasks] then counts every set. *)
Lemma run_exists priceData :
  forall k st,
    length (concat (workloads st)) = k ->
    Forall (fun p => skipped p = false) (concat (workloads st)) ->
    exists st',
      steps priceData st st'
      /\ Forall (fun wl => wl = []) (workloads st')
      /\ completedTasks st' = (completedTasks st + k)%nat.
Proof.
  induction k as [|k IH]; intros st Hk Hs.
  - exists st. split; [constructor|]. split; [|lia].
    apply concat_nil_all. now apply length_zero_iff_nil.
  - destruct (nonempty_workload (workloads st)) as (t & p & rest & E).
    { intro H. rewrite H in Hk. discriminate. }
    pose proof (concat_set_nth_tail _ _ _ _ E) as Hp.
    assert (Hsp : skipped p = false).
    { rewrite Forall_forall in Hs. apply Hs.
      eapply Permutation_in; [apply Permutation_sym; exact Hp | now left]. }
    destruct (pushed_exists (bestResults st) (evaluate priceData p))
      as (q' & Hq).
    pose proof (step_push priceData st t p rest q' E Hsp Hq) as Hstep.
    destruct (IH (mkState q' (S (completedTasks st))
                    (set_nth (workloads st) t rest)))
      as (st' & Hsteps & Hall & Hc).
    + cbn [workloads]. apply Permutation_length in Hp. cbn in Hp. lia.
    + cbn [workloads]. rewrite Forall_forall in Hs |- *.
      intros y Hy. apply Hs.
      eapply Permutation_in; [apply Permutation_sym; exact Hp | now right].
    + exists st'. split; [econstructor; eassumption|].
      split; [exact Hall|]. cbn [completedTasks] in Hc. lia.
Qed.

Lemma final_ranking_exists totalTasks st :
  (totalTasks <= completedTasks st)%nat ->
  Forall (fun wl => wl = []) (workloads st) ->
  exists topResults, final_ranking totalTasks st topResults.
Proof.
  intros Hc Hw.
  destruct (pops_exists (length (bestResults st)) (bestResults st))
    as (out & rest & Hp).
  pose proof (pops_perm _ _ _ _ Hp) as Hperm.
  pose proof (pops_length _ _ _ _ Hp) as Hlen.
  assert (rest = []).
  { apply Permutation_length in Hperm. rewrite length_app in Hperm.
    apply length_zero_iff_nil. lia. }
  subst rest. exists out. split; [exact Hc|]. split; [exact Hw|].
  exists out. split; [exact Hp|]. split; [reflexivity|].
  apply (pops_sorted _ _ _ _ Hp).
Qed.

(** When all PnLs tie, every element is a top, so the pops can take the
    elements in any order. *)
Lemma all_tied_less q a b :
  all_tied q = true -> In a q -> In b q -> less a b = false.
Proof.
  unfold all_tied. rewrite forallb_forall. intros H Ha Hb.
  specialize (H a Ha). rewrite forallb_forall in H.
  apply negb_true_iff. now apply H.
Qed.

Lemma pops_tied out :
  forall q rest,
    (forall a b, In a q -> In b q -> less a b = false) ->
    Permutation q (out ++ rest) ->
    (out <> [] \/ q = rest) ->
    pops (length out) q out rest.
Proof.
  induction out as [|x out IH]; intros q rest Ht Hp Hne.
  - destruct Hne as [Hne | ->]; [congruence | constructor].
  - cbn [length].
    apply (pops_next _ q x (out ++ rest)); [| exact Hp |].
    + assert (Hx : In x q)
        by (eapply Permutation_in;
            [apply Permutation_sym; exact Hp | now left]).
      split; [exact Hx|]. rewrite Forall_forall. intros y Hy.
      now apply Ht.
    + apply IH.
      * intros a b Ha Hb.
        apply Ht; eapply Permutation_in;
          try (apply Permutation_sym; exact Hp); now right.
      * reflexivity.
      * destruct out; [now right | left; discriminate].
Qed.

Lemma pushed_tied q x out dropped :
  all_tied (x :: q) = true ->
  length q = 10%nat -> length out = 10%nat ->
  Permutation (x :: q) (out ++ [dropped]) ->
  pushed q x out.
Proof.
  intros Ht Hq Ho Hp. unfold pushed. cbn [length]. rewrite Hq.
  cbn [Nat.ltb Nat.leb]. exists out, [dropped]. split; [|reflexivity].
  rewrite <- Ho. apply pops_tied.
  - intros a b. now apply all_tied_less.
  - exact Hp.
  - left. intros ->. discriminate.
Qed.

Lemma pushed_small q x :
  (length q < 10)%nat -> pushed q x (x :: q).
Proof.
  intro H. unfold pushed.
  destruct (Nat.ltb_spec 10 (length (x :: q))) as [H'|_];
    [cbn in H'; lia | reflexivity].
Qed.

Lemma sorted_tied q :
  all_tied q = true -> sorted q.
Proof.
  intro Ht.
  assert (H : forall a b, In a q -> In b q -> by_pnl_desc b a = false)
    by (intros a b Ha Hb; exact (all_tied_less q a b Ht Ha Hb)).
  clear Ht. unfold sorted_by. induction q as [|x q IH]; constructor.
  - apply IH. intros a b Ha Hb. apply H; now right.
  - rewrite Forall_forall. intros y Hy. apply H; [now left | now right].
Qed.

(** With all PnLs tied, any arrangement of the queue can be the final
    ranking. *)
Lemma final_ranking_tied totalTasks st topResults :
  (totalTasks <= completedTasks st)%nat ->
  Forall (fun wl => wl = []) (workloads st) ->
  all_tied (bestResults st) = true ->
  Permutation (bestResults st) topResults ->
  final_ranking totalTasks st topResults.
Proof.
  intros Hc Hw Ht Hp. split; [exact Hc|]. split; [exact Hw|].
  exists (bestResults st). split.
  - apply pops_tied.
    + intros a b. now apply all_tied_less.
    + now rewrite app_nil_r.
    + destruct (bestResults st); [now right | left; discriminate].
  - split; [exact Hp|].
    assert (Hs : forall a b, In a topResults -> In b topResults ->
                             by_pnl_desc b a = false).
    { intros a b Ha Hb.
      apply (all_tied_less _ a b Ht);
        eapply Permutation_in; try (apply Permutation_sym; exact Hp);
        assumption. }
    clear - Hs. unfold sorted_by.
    induction topResults as [|x q IH]; constructor.
    + apply IH. intros a b Ha Hb. apply Hs; now right.
    + rewrite Forall_forall. intros y Hy.
      apply Hs; [now left | now right].
Qed.

Section Runs.
Variable priceData : list PriceData.
Variable allParamSets : list ParameterSet.

Local Abbreviation keep := (fun p => negb (skipped p)).
Local Abbreviation results :=
  (map (evaluate priceData) (filter keep allParamSets)).

Local Abbreviation gp_inv := (queue_inv priceData allParamSets).

Lemma gp_inv_init numThreads :
  (0 < numThreads)%nat -> gp_inv (init numThreads allParamSets).
Proof.
  intro Hn. exists []. cbn [init workloads bestResults completedTasks app].
  cbv zeta.
  split; [|split; reflexivity].
  apply Permutation_map, filter_perm, threadWorkloads_perm, Hn.
Qed.

Lemma gp_inv_step st st' :
  strict results -> gp_inv st -> step priceData st st' -> gp_inv st'.
Proof.
  intros Hs (processed & Hperm & Hq & Hc) Hstep. cbv zeta in Hperm.
  unfold queue_inv.
  destruct Hstep as [st t params rest Hw Hk | st t params rest q' Hw Hk Hp];
    cbn [workloads bestResults completedTasks].
  - exists processed. split; [|split; assumption].
    rewrite <- Hperm. apply Permutation_app_head, Permutation_map.
    rewrite (filter_perm keep _ _ (concat_set_nth_tail _ _ _ _ Hw)).
    cbn [filter]. rewrite Hk. reflexivity.
  - assert (Hperm' :
      Permutation
        ((evaluate priceData params :: processed)
         ++ map (evaluate priceData)
              (filter keep (concat (set_nth (workloads st) t rest))))
        results).
    { rewrite <- Hperm. cbn [app].
      rewrite (filter_perm keep _ _ (concat_set_nth_tail _ _ _ _ Hw)).
      cbn [filter]. rewrite Hk. cbn [negb map].
      apply Permutation_middle. }
    exists (evaluate priceData params :: processed).
    split; [exact Hperm'|]. split; [|cbn; now rewrite Hc].
    apply (pushed_best (bestResults st)); [|exact Hq | exact Hp].
    apply (strict_on_app_l by_pnl_desc _
             (map (evaluate priceData)
                (filter keep (concat (set_nth (workloads st) t rest))))).
    eapply strict_on_perm; [apply Permutation_sym; exact Hperm' | exact Hs].
Qed.

Lemma gp_inv_steps st st' :
  strict results -> gp_inv st -> steps priceData st st' -> gp_inv st'.
Proof.
  intros Hs Hi Hsteps. induction Hsteps as [st | st st1 st2 H1 _ IH];
    [exact Hi|].
  apply IH. eapply gp_inv_step; eassumption.
Qed.

(** Without ties the final ranking is the first ten of the sorted
    results. *)
Lemma gp_final_ranking st totalTasks topResults :
  strict results -> gp_inv st ->
  final_ranking totalTasks st topResults ->
  topResults = best10 results.
Proof.
  intros Hs (processed & Hperm & Hq & _) (_ & Hw & popped & Hpops & Hso).
  cbv zeta in Hperm.
  rewrite (concat_all_nil _ Hw) in Hperm. cbn in Hperm.
  rewrite app_nil_r in Hperm.
  assert (E : ssort processed = ssort results).
  { apply (sorted_unique by_pnl_desc).
    - apply (strict_on_perm _ results); [|exact Hs].
      rewrite <- Hperm. apply stable_sort_perm.
    - rewrite <- !stable_sort_perm. exact Hperm.
    - apply (stable_sort_sorted _ gp_by_pnl_desc_asym gp_by_pnl_desc_trans).
      eapply strict_on_perm; [apply Permutation_sym; exact Hperm | exact Hs].
    - now apply (stable_sort_sorted _ gp_by_pnl_desc_asym
                   gp_by_pnl_desc_trans). }
  rewrite E in Hq.
  pose proof (pops_perm _ _ _ _ Hpops) as Hpp. rewrite app_nil_r in Hpp.
  destruct Hso as [Hsp Hst].
  assert (Hsb : strict (best10 results)).
  { apply (strict_on_incl _ _ _
             (strict_on_perm by_pnl_desc _ _
                (stable_sort_perm by_pnl_desc results) Hs)).
    - apply NoDup_firstn.
      eapply Permutation_NoDup; [apply stable_sort_perm | apply Hs].
    - apply firstn_incl. }
  symmetry. apply (sorted_unique by_pnl_desc).
  - exact Hsb.
  - rewrite <- Hsp, <- Hpp. now apply Permutation_sym.
  - apply sorted_by_firstn.
    now apply (stable_sort_sorted _ gp_by_pnl_desc_asym
                 gp_by_pnl_desc_trans).
  - exact Hst.
Qed.

End Runs.
End GridPoolFacts.

(** ** The sweeps: worker counts and ties *)

(** A rearrangement of a list of integers without repetitions. *)
Ltac perm_Z :=
  apply NoDup_Permutation;
  [ repeat (constructor; [cbn; lia|]); constructor
  | repeat (constructor; [cbn; lia|]); constructor
  | intro; cbn; lia ].


(** The state of the single-file grid search, evaluated. *)
Ltac gs_norm :=
  match goal with
  | |- GridPool.steps ?pd ?S ?T =>
      let S' := eval vm_compute in S in
      replace S with S' by (vm_compute; reflexivity)
  end.

(** Thread [t] pushes its next parameter set on a queue of fewer than ten
    elements. *)
Ltac gs_push t :=
  eapply GridPool.steps_step;
  [ eapply (GridPool.step_push _ _ t);
    [ reflexivity | reflexivity
    | apply GridPoolFacts.pushed_small; cbn; lia ]
  | gs_norm ].

(** Thread [t] pushes its last parameter set [p] on a queue of ten
    elements that all tie with it; the queue keeps [out] and drops
    [dropped].  The last step of a run. *)
Ltac gs_push_tied t p out dropped :=
  match goal with
  | |- GridPool.steps ?pd ?S ?T =>
      apply (GridPool.steps_step pd S T T); [|apply GridPool.steps_refl];
      apply (GridPool.step_push pd S t p [] out);
      [ reflexivity | reflexivity
      | apply (GridPoolFacts.pushed_tied _ _ _ dropped);
        [vm_compute; reflexivity | reflexivity | reflexivity |] ]
  end.


